(** * opensomeip: a shallow embedding of the SOME/IP core codecs

    The development follows the C++ sources of the repository:
    - [Wire]          fixed-width integers and network byte order helpers
    - [Message]       src/someip/message.cpp, include/someip/message.h
    - [Deserializer]  src/serialization/serializer.cpp (reader side)
    - [Sd]            src/sd/sd_message.cpp
    - [Tp]            src/tp/tp_segmenter.cpp, tp_reassembler.cpp, tp_manager.cpp

    Conventions.  A C++ unsigned integer of width [w] is a [Z] together with
    its wrap-around written out ([Wire.to_uint8], [Wire.to_uint16],
    [Wire.to_uint32]).  A [std::vector<uint8_t>] is a [list Z]; sizes and
    offsets are [Z] (as [size_t]), converted with [Z.to_nat] where a list is
    indexed.  Member functions that mutate [*this] take the object and return
    the updated object next to their C++ result.  Wall-clock fields
    (timestamps, start times) are not part of the model. *)

From Stdlib Require Import ZArith List Lia Bool Permutation.
From stdpp Require Import base gmap list.
From coqutil Require Import Z.bitblast.
Import ListNotations.
Local Open Scope Z_scope.

(* ================================================================== *)
(** ** Fixed-width integers and byte order *)
(* ================================================================== *)

Module Wire.

(** [static_cast<uintN_t>(x)] *)
Definition to_uint8 (x : Z) : Z := x mod 2 ^ 8.
Definition to_uint16 (x : Z) : Z := x mod 2 ^ 16.
Definition to_uint32 (x : Z) : Z := x mod 2 ^ 32.

Definition is_uint8 (x : Z) : Prop := 0 <= x < 2 ^ 8.
Definition is_uint16 (x : Z) : Prop := 0 <= x < 2 ^ 16.
Definition is_uint32 (x : Z) : Prop := 0 <= x < 2 ^ 32.

(** [v.size()] *)
Definition vsize {A} (v : list A) : Z := Z.of_nat (length v).

(** [v[i]] for a byte vector; the callers check the bound first. *)
Definition at_ (v : list Z) (i : Z) : Z := nth (Z.to_nat i) v 0.

(** The four bytes, in memory order, of [htonl(v)]: what
    [data.insert(data.end(), (uint8_t* )&be, (uint8_t* )&be + 4)] appends. *)
Definition htonl_bytes (v : Z) : list Z :=
  [ Z.land (Z.shiftr v 24) 0xFF; Z.land (Z.shiftr v 16) 0xFF;
    Z.land (Z.shiftr v 8) 0xFF; Z.land v 0xFF ].

(** [ntohl( *reinterpret_cast<const uint32_t*>(&data[offset]))] *)
Definition ntohl_at (data : list Z) (offset : Z) : Z :=
  Z.lor (Z.lor (Z.lor (Z.shiftl (at_ data offset) 24)
                      (Z.shiftl (at_ data (offset + 1)) 16))
               (Z.shiftl (at_ data (offset + 2)) 8))
        (at_ data (offset + 3)).

(** Same for [htons] / [ntohs]. *)
Definition htons_bytes (v : Z) : list Z :=
  [ Z.land (Z.shiftr v 8) 0xFF; Z.land v 0xFF ].

Definition ntohs_at (data : list Z) (offset : Z) : Z :=
  Z.lor (Z.shiftl (at_ data offset) 8) (at_ data (offset + 1)).

End Wire.

(* ================================================================== *)
(** ** SOME/IP message: include/someip/types.h, src/someip/message.cpp *)
(* ================================================================== *)

Module Message.
Import Wire.

Definition SOMEIP_PROTOCOL_VERSION : Z := 0x01.
Definition SOMEIP_INTERFACE_VERSION : Z := 0x01.

(** [struct MessageId] and [struct RequestId]: two [uint16_t] each. *)
Record MessageId := mkMessageId { service_id : Z; method_id : Z }.
Record RequestId := mkRequestId { client_id : Z; session_id : Z }.

Definition MessageId_to_uint32 (i : MessageId) : Z :=
  Z.lor (to_uint32 (Z.shiftl (service_id i) 16)) (method_id i).

Definition MessageId_from_uint32 (value : Z) : MessageId :=
  mkMessageId (to_uint16 (Z.shiftr value 16)) (to_uint16 (Z.land value 0xFFFF)).

Definition RequestId_to_uint32 (i : RequestId) : Z :=
  Z.lor (to_uint32 (Z.shiftl (client_id i) 16)) (session_id i).

Definition RequestId_from_uint32 (value : Z) : RequestId :=
  mkRequestId (to_uint16 (Z.shiftr value 16)) (to_uint16 (Z.land value 0xFFFF)).

(** [enum class MessageType : uint8_t].  A value of the enumeration type is
    any byte ([static_cast<MessageType>(data[offset])] in [deserialize]), so
    the field is the underlying byte and the enumerators are constants. *)
Definition REQUEST : Z := 0x00.
Definition REQUEST_NO_RETURN : Z := 0x01.
Definition NOTIFICATION : Z := 0x02.
Definition REQUEST_ACK : Z := 0x40.
Definition RESPONSE : Z := 0x80.
Definition ERROR : Z := 0x81.
Definition RESPONSE_ACK : Z := 0xC0.
Definition ERROR_ACK : Z := 0xC1.
Definition TP_REQUEST : Z := 0x20.
Definition TP_REQUEST_NO_RETURN : Z := 0x21.
Definition TP_NOTIFICATION : Z := 0x22.

(** [enum class ReturnCode : uint8_t] *)
Definition E_OK : Z := 0x00.
Definition E_NOT_OK : Z := 0x01.
Definition E_UNKNOWN_SERVICE : Z := 0x02.
Definition E_UNKNOWN_METHOD : Z := 0x03.
Definition E_NOT_READY : Z := 0x04.
Definition E_NOT_REACHABLE : Z := 0x05.
Definition E_TIMEOUT : Z := 0x06.
Definition E_WRONG_PROTOCOL_VERSION : Z := 0x07.
Definition E_WRONG_INTERFACE_VERSION : Z := 0x08.
Definition E_MALFORMED_MESSAGE : Z := 0x09.
Definition E_WRONG_MESSAGE_TYPE : Z := 0x0A.
Definition E_E2E_REPEATED : Z := 0x0B.
Definition E_E2E_WRONG_SEQUENCE : Z := 0x0C.
Definition E_E2E : Z := 0x0D.
Definition E_E2E_NOT_AVAILABLE : Z := 0x0E.
Definition E_E2E_NO_NEW_DATA : Z := 0x0F.

(** The two [switch] statements of [has_valid_header]: every listed case
    breaks, [default] returns false. *)
Definition message_type_known (ty : Z) : bool :=
  existsb (Z.eqb ty)
    [ REQUEST; REQUEST_NO_RETURN; NOTIFICATION; REQUEST_ACK; RESPONSE; ERROR;
      RESPONSE_ACK; ERROR_ACK; TP_REQUEST; TP_REQUEST_NO_RETURN; TP_NOTIFICATION ].

Definition return_code_known (code : Z) : bool :=
  existsb (Z.eqb code)
    [ E_OK; E_NOT_OK; E_UNKNOWN_SERVICE; E_UNKNOWN_METHOD; E_NOT_READY;
      E_NOT_REACHABLE; E_TIMEOUT; E_WRONG_PROTOCOL_VERSION;
      E_WRONG_INTERFACE_VERSION; E_MALFORMED_MESSAGE; E_WRONG_MESSAGE_TYPE;
      E_E2E_REPEATED; E_E2E_WRONG_SEQUENCE; E_E2E; E_E2E_NOT_AVAILABLE;
      E_E2E_NO_NEW_DATA ].

(** [class Message], private members in declaration order. *)
Record t := mk {
  message_id_ : MessageId;
  length_ : Z;
  request_id_ : RequestId;
  protocol_version_ : Z;
  interface_version_ : Z;
  message_type_ : Z;
  return_code_ : Z;
  payload_ : list Z
}.

Definition HEADER_SIZE : Z := 16.
Definition MIN_MESSAGE_SIZE : Z := HEADER_SIZE.
Definition MAX_TCP_PAYLOAD_SIZE : Z := 65535.

(** The ranges of the member types. *)
Record wf (m : t) : Prop := mk_wf {
  wf_service_id : is_uint16 (service_id (message_id_ m));
  wf_method_id : is_uint16 (method_id (message_id_ m));
  wf_length : is_uint32 (length_ m);
  wf_client_id : is_uint16 (client_id (request_id_ m));
  wf_session_id : is_uint16 (session_id (request_id_ m));
  wf_protocol_version : is_uint8 (protocol_version_ m);
  wf_interface_version : is_uint8 (interface_version_ m);
  wf_message_type : is_uint8 (message_type_ m);
  wf_return_code : is_uint8 (return_code_ m);
  wf_payload : Forall is_uint8 (payload_ m)
}.

(** [Message::Message()] *)
Definition default : t :=
  mk (mkMessageId 0 0) 8 (mkRequestId 0 0)
     SOMEIP_PROTOCOL_VERSION SOMEIP_INTERFACE_VERSION REQUEST E_OK [].

(** The setters of the header fields, and the plain assignment to
    [payload_] (which, unlike [set_payload], leaves [length_] alone). *)
Definition set_message_id (m : t) (id : MessageId) : t :=
  mk id (length_ m) (request_id_ m) (protocol_version_ m)
     (interface_version_ m) (message_type_ m) (return_code_ m) (payload_ m).

Definition set_length (m : t) (length : Z) : t :=
  mk (message_id_ m) length (request_id_ m) (protocol_version_ m)
     (interface_version_ m) (message_type_ m) (return_code_ m) (payload_ m).

Definition set_request_id (m : t) (id : RequestId) : t :=
  mk (message_id_ m) (length_ m) id (protocol_version_ m)
     (interface_version_ m) (message_type_ m) (return_code_ m) (payload_ m).

Definition set_protocol_version (m : t) (version : Z) : t :=
  mk (message_id_ m) (length_ m) (request_id_ m) version
     (interface_version_ m) (message_type_ m) (return_code_ m) (payload_ m).

Definition set_interface_version (m : t) (version : Z) : t :=
  mk (message_id_ m) (length_ m) (request_id_ m) (protocol_version_ m)
     version (message_type_ m) (return_code_ m) (payload_ m).

Definition set_message_type (m : t) (type : Z) : t :=
  mk (message_id_ m) (length_ m) (request_id_ m) (protocol_version_ m)
     (interface_version_ m) type (return_code_ m) (payload_ m).

Definition set_return_code (m : t) (code : Z) : t :=
  mk (message_id_ m) (length_ m) (request_id_ m) (protocol_version_ m)
     (interface_version_ m) (message_type_ m) code (payload_ m).

Definition assign_payload (m : t) (payload : list Z) : t :=
  mk (message_id_ m) (length_ m) (request_id_ m) (protocol_version_ m)
     (interface_version_ m) (message_type_ m) (return_code_ m) payload.

(** [length_ = 8 + payload_.size();] stored into a [uint32_t]. *)
Definition update_length (m : t) : t :=
  set_length m (to_uint32 (8 + vsize (payload_ m))).

Definition set_payload (m : t) (payload : list Z) : t :=
  update_length (assign_payload m payload).

(** [Message(MessageId, RequestId, MessageType, ReturnCode)] *)
Definition make (message_id : MessageId) (request_id : RequestId)
    (message_type return_code : Z) : t :=
  update_length
    (mk message_id 8 request_id SOMEIP_PROTOCOL_VERSION SOMEIP_INTERFACE_VERSION
        message_type return_code []).

(** [Message::serialize() const] *)
Definition serialize (m : t) : list Z :=
  htonl_bytes (MessageId_to_uint32 (message_id_ m))
  ++ htonl_bytes (length_ m)
  ++ htonl_bytes (RequestId_to_uint32 (request_id_ m))
  ++ [ protocol_version_ m; interface_version_ m; message_type_ m; return_code_ m ]
  ++ payload_ m.

Definition has_valid_payload (m : t) : bool :=
  vsize (payload_ m) <=? MAX_TCP_PAYLOAD_SIZE.

Definition has_valid_header (m : t) : bool :=
  if negb (protocol_version_ m =? SOMEIP_PROTOCOL_VERSION) then false else
  if negb (interface_version_ m =? SOMEIP_INTERFACE_VERSION) then false else
  let expected_total_size := to_uint32 (8 + length_ m) in
  let actual_total_size := to_uint32 (HEADER_SIZE + vsize (payload_ m)) in
  if negb (expected_total_size =? actual_total_size) then false else
  if negb (message_type_known (message_type_ m)) then false else
  if negb (return_code_known (return_code_ m)) then false else
  true.

Definition is_valid (m : t) : bool :=
  has_valid_header m && has_valid_payload m.

(** [bool Message::deserialize(const std::vector<uint8_t>& data)]: the members
    are assigned as the header is read, so an early [return false] leaves the
    members read so far in [*this]. *)
Definition deserialize (self : t) (data : list Z) : bool * t :=
  if vsize data <? MIN_MESSAGE_SIZE then (false, self) else
  let offset := 0 in
  if offset + 4 >? vsize data then (false, self) else
  let self := set_message_id self (MessageId_from_uint32 (ntohl_at data offset)) in
  let offset := offset + 4 in
  if offset + 4 >? vsize data then (false, self) else
  let self := set_length self (ntohl_at data offset) in
  let offset := offset + 4 in
  if offset + 4 >? vsize data then (false, self) else
  let self := set_request_id self (RequestId_from_uint32 (ntohl_at data offset)) in
  let offset := offset + 4 in
  if offset + 1 >? vsize data then (false, self) else
  let self := set_protocol_version self (at_ data offset) in
  let offset := offset + 1 in
  if offset + 1 >? vsize data then (false, self) else
  let self := set_interface_version self (at_ data offset) in
  let offset := offset + 1 in
  if offset + 1 >? vsize data then (false, self) else
  let self := set_message_type self (at_ data offset) in
  let offset := offset + 1 in
  if offset + 1 >? vsize data then (false, self) else
  let self := set_return_code self (at_ data offset) in
  let offset := offset + 1 in
  if length_ self <? 8 then (false, self) else
  let expected_payload_size := length_ self - 8 in
  let actual_payload_size := vsize data - offset in
  if negb (actual_payload_size =? expected_payload_size) then (false, self) else
  let self := assign_payload self (skipn (Z.to_nat offset) data) in
  (is_valid self, self).

End Message.

(* ================================================================== *)
(** ** Payload reader: src/serialization/serializer.cpp, [class Deserializer] *)
(* ================================================================== *)

Module Deserializer.
Import Wire.

(** [enum class Result : uint8_t] (include/common/result.h) *)
Inductive Result :=
| SUCCESS | NETWORK_ERROR | NOT_CONNECTED | CONNECTION_LOST | CONNECTION_REFUSED
| TIMEOUT | INVALID_ENDPOINT | INVALID_MESSAGE | INVALID_MESSAGE_TYPE
| INVALID_SERVICE_ID | INVALID_METHOD_ID | INVALID_PROTOCOL_VERSION
| INVALID_INTERFACE_VERSION | MALFORMED_MESSAGE | INVALID_SESSION_ID
| SESSION_EXPIRED | SESSION_NOT_FOUND | OUT_OF_MEMORY | BUFFER_OVERFLOW
| RESOURCE_EXHAUSTED | SERVICE_NOT_FOUND | SERVICE_UNAVAILABLE
| SUBSCRIPTION_FAILED | SAFETY_VIOLATION | FAULT_DETECTED | RECOVERY_FAILED
| NOT_IMPLEMENTED | INVALID_ARGUMENT | PERMISSION_DENIED | INTERNAL_ERROR
| NOT_INITIALIZED | INVALID_STATE | UNKNOWN_ERROR.

(** [template<typename T> class DeserializationResult] *)
Inductive DeserializationResult (T : Type) :=
| success (value : T)
| error (error_code : Result).
Arguments success {T} value.
Arguments error {T} error_code.

Definition is_error {T} (r : DeserializationResult T) : bool :=
  match r with success _ => false | error _ => true end.

Definition get_error {T} (r : DeserializationResult T) : Result :=
  match r with success _ => SUCCESS | error e => e end.

(** [class Deserializer]: the buffer and the cursor. *)
Record t := mk { buffer_ : list Z; position_ : Z }.

(** [Deserializer(const std::vector<uint8_t>& data)] *)
Definition make (data : list Z) : t := mk data 0.

Definition get_position (d : t) : Z := position_ d.
Definition get_remaining (d : t) : Z := vsize (buffer_ d) - position_ d.

Definition advance (d : t) (n : Z) : t := mk (buffer_ d) (position_ d + n).

Definition deserialize_bool (d : t) : DeserializationResult bool * t :=
  if position_ d + 1 >? vsize (buffer_ d) then (error MALFORMED_MESSAGE, d)
  else (success (negb (at_ (buffer_ d) (position_ d) =? 0x00)), advance d 1).

Definition deserialize_uint8 (d : t) : DeserializationResult Z * t :=
  if position_ d + 1 >? vsize (buffer_ d) then (error MALFORMED_MESSAGE, d)
  else (success (at_ (buffer_ d) (position_ d)), advance d 1).

(** [std::optional<uint16_t> read_be_uint16()]: [memcpy] then [ntohs]. *)
Definition read_be_uint16 (d : t) : option Z * t :=
  if position_ d + 2 >? vsize (buffer_ d) then (None, d)
  else (Some (ntohs_at (buffer_ d) (position_ d)), advance d 2).

Definition read_be_uint32 (d : t) : option Z * t :=
  if position_ d + 4 >? vsize (buffer_ d) then (None, d)
  else (Some (ntohl_at (buffer_ d) (position_ d)), advance d 4).

(** [read_be_uint64]: [memcpy] into a [uint64_t], then the explicit byte
    shuffle; on a little-endian host the result is the big-endian reading of
    the eight bytes. *)
Definition read_be_uint64 (d : t) : option Z * t :=
  if position_ d + 8 >? vsize (buffer_ d) then (None, d)
  else (Some (Z.lor (Z.shiftl (ntohl_at (buffer_ d) (position_ d)) 32)
                    (ntohl_at (buffer_ d) (position_ d + 4))),
        advance d 8).

(** [static_cast<intN_t>] of an unsigned value of the same width. *)
Definition to_signed (bits : Z) (v : Z) : Z :=
  if v <? 2 ^ (bits - 1) then v else v - 2 ^ bits.

Definition lift {A B} (f : A -> B) (r : option A * t) : DeserializationResult B * t :=
  match r with
  | (None, d) => (error MALFORMED_MESSAGE, d)
  | (Some v, d) => (success (f v), d)
  end.

Definition deserialize_uint16 (d : t) := lift (fun v : Z => v) (read_be_uint16 d).
Definition deserialize_uint32 (d : t) := lift (fun v : Z => v) (read_be_uint32 d).
Definition deserialize_uint64 (d : t) := lift (fun v : Z => v) (read_be_uint64 d).

Definition deserialize_int8 (d : t) : DeserializationResult Z * t :=
  match deserialize_uint8 d with
  | (error e, d') => (error e, d')
  | (success v, d') => (success (to_signed 8 v), d')
  end.

Definition deserialize_int16 (d : t) := lift (to_signed 16) (read_be_uint16 d).
Definition deserialize_int32 (d : t) := lift (to_signed 32) (read_be_uint32 d).
Definition deserialize_int64 (d : t) := lift (to_signed 64) (read_be_uint64 d).

(** [read_be_float] / [read_be_double] reinterpret the bits read by
    [read_be_uint32] / [read_be_uint64]; a floating-point value is
    represented here by its bit pattern. *)
Definition deserialize_float (d : t) := lift (fun bits : Z => bits) (read_be_uint32 d).
Definition deserialize_double (d : t) := lift (fun bits : Z => bits) (read_be_uint64 d).

Definition set_position (d : t) (pos : Z) : bool * t :=
  let valid := pos <=? vsize (buffer_ d) in
  (valid, if valid then mk (buffer_ d) pos else d).

(** [size_t] has 64 bits: a sum of two [size_t] values wraps modulo 2^64. *)
Definition to_size_t (x : Z) : Z := x mod 2 ^ 64.

(** [position_ = std::min(position_ + bytes, buffer_.size())].  The sum is
    taken in [size_t] and wraps.  [buffer_.size()] is a [size_t] itself, so
    a sum that does not exceed it has not wrapped. *)
Definition skip (d : t) (bytes : Z) : t :=
  let sum := position_ d + bytes in
  let sum := if sum <=? vsize (buffer_ d) then sum else to_size_t sum in
  mk (buffer_ d) (Z.min sum (vsize (buffer_ d))).

Definition align_to (d : t) (alignment : Z) : t :=
  let padding := (alignment - (position_ d mod alignment)) mod alignment in
  skip d padding.

(** [deserialize_string]: the characters are the bytes
    [buffer_[position_ .. position_ + length)]. *)
Definition deserialize_string (d : t) : DeserializationResult (list Z) * t :=
  match deserialize_uint32 d with
  | (error e, d) => (error e, d)
  | (success length, d) =>
      if position_ d + length >? vsize (buffer_ d) then (error MALFORMED_MESSAGE, d)
      else
        let result := firstn (Z.to_nat length) (skipn (Z.to_nat (position_ d)) (buffer_ d)) in
        let d := advance d length in
        let d := align_to d 4 in
        (success result, d)
  end.

(** [deserialize_array<T>(length)]: [element] is the reader the
    [if constexpr] chain selects for [T]. *)
Fixpoint deserialize_array_loop {T} (element : t -> DeserializationResult T * t)
    (n : nat) (result : list T) (d : t) : DeserializationResult (list T) * t :=
  match n with
  | O => (success result, d)
  | S n' =>
      match element d with
      | (error e, d') => (error e, d')
      | (success v, d') => deserialize_array_loop element n' (result ++ [v]) d'
      end
  end.

Definition deserialize_array {T} (element : t -> DeserializationResult T * t)
    (length : Z) (d : t) : DeserializationResult (list T) * t :=
  deserialize_array_loop element (Z.to_nat length) [] d.

(** The scalar readers, by name, with the error flag of their result. *)
Inductive scalar :=
| Bool | UInt8 | UInt16 | UInt32 | UInt64
| Int8 | Int16 | Int32 | Int64 | Float | Double.

Definition flag {T} (r : DeserializationResult T * t) : bool * t :=
  (is_error (fst r), snd r).

Definition read_scalar (s : scalar) (d : t) : bool * t :=
  match s with
  | Bool => flag (deserialize_bool d)
  | UInt8 => flag (deserialize_uint8 d)
  | UInt16 => flag (deserialize_uint16 d)
  | UInt32 => flag (deserialize_uint32 d)
  | UInt64 => flag (deserialize_uint64 d)
  | Int8 => flag (deserialize_int8 d)
  | Int16 => flag (deserialize_int16 d)
  | Int32 => flag (deserialize_int32 d)
  | Int64 => flag (deserialize_int64 d)
  | Float => flag (deserialize_float d)
  | Double => flag (deserialize_double d)
  end.

End Deserializer.

(* ================================================================== *)
(** ** Service discovery codec: src/sd/sd_message.cpp *)
(* ================================================================== *)

Module Sd.
Import Wire.

(** [enum class EntryType : uint8_t]; as for [MessageType] the field holds
    the byte. *)
Definition FIND_SERVICE : Z := 0x00.
Definition OFFER_SERVICE : Z := 0x01.
Definition SUBSCRIBE_EVENTGROUP : Z := 0x06.
Definition SUBSCRIBE_EVENTGROUP_ACK : Z := 0x07.

(** [class SdEntry]: the members of the base class. *)
Record SdEntry := mkSdEntry {
  type_ : Z;
  index1_ : Z;
  index2_ : Z;
  ttl_ : Z
}.

(** [class ServiceEntry : public SdEntry] *)
Record ServiceEntry := mkServiceEntry {
  se_base : SdEntry;
  se_service_id_ : Z;
  se_instance_id_ : Z;
  se_major_version_ : Z;
  se_minor_version_ : Z
}.

(** [class EventGroupEntry : public SdEntry] *)
Record EventGroupEntry := mkEventGroupEntry {
  eg_base : SdEntry;
  eg_service_id_ : Z;
  eg_instance_id_ : Z;
  eg_eventgroup_id_ : Z;
  eg_major_version_ : Z
}.

(** A [std::unique_ptr<SdEntry>]: one of the two derived classes. *)
Inductive entry :=
| Service (e : ServiceEntry)
| EventGroup (e : EventGroupEntry).

(** [ServiceEntry()] and [EventGroupEntry()] *)
Definition ServiceEntry_default : ServiceEntry :=
  mkServiceEntry (mkSdEntry FIND_SERVICE 0 0 0) 0 0 0 0.
Definition EventGroupEntry_default : EventGroupEntry :=
  mkEventGroupEntry (mkSdEntry SUBSCRIBE_EVENTGROUP 0 0 0) 0 0 0 0.

(** [SdEntry::serialize]: the fourteen [push_back]s. *)
Definition SdEntry_serialize (e : SdEntry) : list Z :=
  [ type_ e; index1_ e; index2_ e;
    0;            (* number of options 1 *)
    0;            (* number of options 2 *)
    0; 0;         (* service id *)
    0; 0;         (* instance id *)
    0;            (* major version *)
    Z.land (Z.shiftr (ttl_ e) 24) 0xFF; Z.land (Z.shiftr (ttl_ e) 16) 0xFF;
    Z.land (Z.shiftr (ttl_ e) 8) 0xFF; Z.land (ttl_ e) 0xFF ].

(** [ServiceEntry::serialize]: [data[i] = v] is the list update. *)
Definition ServiceEntry_serialize (e : ServiceEntry) : list Z :=
  let data := SdEntry_serialize (se_base e) in
  let data := <[4%nat := Z.land (Z.shiftr (se_service_id_ e) 8) 0xFF]> data in
  let data := <[5%nat := Z.land (se_service_id_ e) 0xFF]> data in
  let data := <[6%nat := Z.land (Z.shiftr (se_instance_id_ e) 8) 0xFF]> data in
  let data := <[7%nat := Z.land (se_instance_id_ e) 0xFF]> data in
  let data := <[8%nat := se_major_version_ e]> data in
  data.

Definition EventGroupEntry_serialize (e : EventGroupEntry) : list Z :=
  let data := SdEntry_serialize (eg_base e) in
  let data := <[4%nat := Z.land (Z.shiftr (eg_service_id_ e) 8) 0xFF]> data in
  let data := <[5%nat := Z.land (eg_service_id_ e) 0xFF]> data in
  let data := <[6%nat := Z.land (Z.shiftr (eg_instance_id_ e) 8) 0xFF]> data in
  let data := <[7%nat := Z.land (eg_instance_id_ e) 0xFF]> data in
  let data := <[8%nat := eg_major_version_ e]> data in
  data ++ [ Z.land (Z.shiftr (eg_eventgroup_id_ e) 8) 0xFF;
            Z.land (eg_eventgroup_id_ e) 0xFF ].

(** The virtual call [entry->serialize()]. *)
Definition serialize_entry (e : entry) : list Z :=
  match e with
  | Service s => ServiceEntry_serialize s
  | EventGroup g => EventGroupEntry_serialize g
  end.

(** [SdEntry::deserialize(data, offset)]: result, object, new [offset]. *)
Definition SdEntry_deserialize (self : SdEntry) (data : list Z) (offset : Z)
    : bool * SdEntry * Z :=
  if offset + 16 >? vsize data then (false, self, offset) else
  let self := mkSdEntry (at_ data offset) (at_ data (offset + 1))
                        (at_ data (offset + 2)) (ttl_ self) in
  (true, self, offset + 3 + 2).

Definition be16_at (data : list Z) (offset : Z) : Z :=
  to_uint16 (Z.lor (Z.shiftl (at_ data offset) 8) (at_ data (offset + 1))).

Definition be32_at (data : list Z) (offset : Z) : Z :=
  to_uint32 (Z.lor (Z.lor (Z.lor (Z.shiftl (at_ data offset) 24)
                                 (Z.shiftl (at_ data (offset + 1)) 16))
                          (Z.shiftl (at_ data (offset + 2)) 8))
                   (at_ data (offset + 3))).

Definition ServiceEntry_deserialize (self : ServiceEntry) (data : list Z) (offset : Z)
    : bool * ServiceEntry * Z :=
  match SdEntry_deserialize (se_base self) data offset with
  | (false, base, offset) =>
      (false, mkServiceEntry base (se_service_id_ self) (se_instance_id_ self)
                (se_major_version_ self) (se_minor_version_ self), offset)
  | (true, base, offset) =>
      let self := mkServiceEntry base (se_service_id_ self) (se_instance_id_ self)
                    (se_major_version_ self) (se_minor_version_ self) in
      if offset + 9 >? vsize data then (false, self, offset) else
      let base := mkSdEntry (type_ base) (index1_ base) (index2_ base)
                            (be32_at data (offset + 5)) in
      (true,
       mkServiceEntry base (be16_at data offset) (be16_at data (offset + 2))
         (at_ data (offset + 4)) (se_minor_version_ self),
       offset + 9)
  end.

Definition EventGroupEntry_deserialize (self : EventGroupEntry) (data : list Z)
    (offset : Z) : bool * EventGroupEntry * Z :=
  match SdEntry_deserialize (eg_base self) data offset with
  | (false, base, offset) =>
      (false, mkEventGroupEntry base (eg_service_id_ self) (eg_instance_id_ self)
                (eg_eventgroup_id_ self) (eg_major_version_ self), offset)
  | (true, base, offset) =>
      let self := mkEventGroupEntry base (eg_service_id_ self) (eg_instance_id_ self)
                    (eg_eventgroup_id_ self) (eg_major_version_ self) in
      if offset + 11 >? vsize data then (false, self, offset) else
      let base := mkSdEntry (type_ base) (index1_ base) (index2_ base)
                            (be32_at data (offset + 5)) in
      (true,
       mkEventGroupEntry base (be16_at data offset) (be16_at data (offset + 2))
         (be16_at data (offset + 9)) (at_ data (offset + 4)),
       offset + 11)
  end.

(** [class SdOption] and the two derived classes that are implemented. *)
Definition IPV4_ENDPOINT : Z := 0x04.
Definition IPV4_MULTICAST : Z := 0x14.

Record IPv4EndpointOption := mkIPv4EndpointOption {
  ep_length_ : Z; ep_protocol_ : Z; ep_ipv4_address_ : Z; ep_port_ : Z
}.

Record IPv4MulticastOption := mkIPv4MulticastOption {
  mc_length_ : Z; mc_ipv4_address_ : Z; mc_port_ : Z
}.

Inductive option_ :=
| IPv4Endpoint (o : IPv4EndpointOption)
| IPv4Multicast (o : IPv4MulticastOption).

Definition SdOption_serialize (type length : Z) : list Z :=
  [ type; 0; Z.land (Z.shiftr length 8) 0xFF; Z.land length 0xFF ].

Definition IPv4EndpointOption_serialize (o : IPv4EndpointOption) : list Z :=
  let data := SdOption_serialize IPV4_ENDPOINT (ep_length_ o)
    ++ [ Z.land (Z.shiftr (ep_ipv4_address_ o) 24) 0xFF;
         Z.land (Z.shiftr (ep_ipv4_address_ o) 16) 0xFF;
         Z.land (Z.shiftr (ep_ipv4_address_ o) 8) 0xFF;
         Z.land (ep_ipv4_address_ o) 0xFF;
         0; ep_protocol_ o;
         Z.land (Z.shiftr (ep_port_ o) 8) 0xFF; Z.land (ep_port_ o) 0xFF ] in
  let length := 9 in
  let data := <[2%nat := Z.land (Z.shiftr length 8) 0xFF]> data in
  <[3%nat := Z.land length 0xFF]> data.

Definition IPv4MulticastOption_serialize (o : IPv4MulticastOption) : list Z :=
  let data := SdOption_serialize IPV4_MULTICAST (mc_length_ o)
    ++ [ Z.land (Z.shiftr (mc_ipv4_address_ o) 24) 0xFF;
         Z.land (Z.shiftr (mc_ipv4_address_ o) 16) 0xFF;
         Z.land (Z.shiftr (mc_ipv4_address_ o) 8) 0xFF;
         Z.land (mc_ipv4_address_ o) 0xFF;
         0;
         Z.land (Z.shiftr (mc_port_ o) 8) 0xFF; Z.land (mc_port_ o) 0xFF ] in
  let length := 7 in
  let data := <[2%nat := Z.land (Z.shiftr length 8) 0xFF]> data in
  <[3%nat := Z.land length 0xFF]> data.

Definition serialize_option (o : option_) : list Z :=
  match o with
  | IPv4Endpoint e => IPv4EndpointOption_serialize e
  | IPv4Multicast m => IPv4MulticastOption_serialize m
  end.

(** [class SdMessage] *)
Record SdMessage := mkSdMessage {
  flags_ : Z;
  reserved_ : Z;
  entries_ : list entry;
  options_ : list option_
}.

Definition SdMessage_default : SdMessage := mkSdMessage 0 0 [] [].

Definition add_entry (m : SdMessage) (e : entry) : SdMessage :=
  mkSdMessage (flags_ m) (reserved_ m) (entries_ m ++ [e]) (options_ m).

(** [SdMessage::serialize] *)
Definition SdMessage_serialize (m : SdMessage) : list Z :=
  let data := [ flags_ m; Z.land (Z.shiftr (reserved_ m) 16) 0xFF;
                Z.land (Z.shiftr (reserved_ m) 8) 0xFF; Z.land (reserved_ m) 0xFF;
                0; 0; 0; 0 ] in
  let length_offset := 4%nat in
  let data := data ++ concat (map serialize_entry (entries_ m)) in
  let data := data ++ concat (map serialize_option (options_ m)) in
  let total_length := to_uint32 (vsize data - 8) in
  let data := <[length_offset := Z.land (Z.shiftr total_length 24) 0xFF]> data in
  let data := <[S length_offset := Z.land (Z.shiftr total_length 16) 0xFF]> data in
  let data := <[S (S length_offset) := Z.land (Z.shiftr total_length 8) 0xFF]> data in
  <[S (S (S length_offset)) := Z.land total_length 0xFF]> data.

(** The [while (entries_options_length > 0)] loop of [SdMessage::deserialize].
    [None] stands for a loop that has not ended after [fuel] iterations. *)
Fixpoint deserialize_entries (fuel : nat) (data : list Z) (length : Z)
    (self : SdMessage) (offset entries_options_length : Z)
    : option (bool * SdMessage) :=
  match fuel with
  | O => None
  | S fuel =>
      if negb (entries_options_length >? 0) then Some (true, self) else
      if offset + 1 >? vsize data then Some (false, self) else
      let raw_type := at_ data offset in
      if (raw_type =? 0x00) || (raw_type =? 0x01) then
        match ServiceEntry_deserialize ServiceEntry_default data offset with
        | (true, e, offset) =>
            let self := add_entry self (Service e) in
            let entries_options_length :=
              if offset >=? 8 then
                let parsed_length := offset - 8 in
                if parsed_length <=? length then length - parsed_length else 0
              else 0 in
            deserialize_entries fuel data length self offset entries_options_length
        | (false, _, _) => Some (false, self)
        end
      else if (raw_type =? 0x06) || (raw_type =? 0x07) then
        match EventGroupEntry_deserialize EventGroupEntry_default data offset with
        | (true, e, offset) =>
            let self := add_entry self (EventGroup e) in
            let entries_options_length :=
              if offset >=? 8 then
                let parsed_length := offset - 8 in
                if parsed_length <=? length then length - parsed_length else 0
              else 0 in
            deserialize_entries fuel data length self offset entries_options_length
        | (false, _, _) => Some (false, self)
        end
      else
        (* Unknown entry type, skip it *)
        let offset := offset + 1 in
        let entries_options_length :=
          if entries_options_length >? 0 then entries_options_length - 1
          else entries_options_length in
        deserialize_entries fuel data length self offset entries_options_length
  end.

(** [SdMessage::deserialize]; every iteration of the loop moves [offset]
    forward, so [vsize data + 1] iterations are enough ([Sd_deserialize_total]). *)
Definition SdMessage_deserialize (self : SdMessage) (data : list Z)
    : option (bool * SdMessage) :=
  if vsize data <? 8 then Some (false, self) else
  let offset := 0 in
  let flags := at_ data offset in
  let offset := offset + 1 in
  let reserved :=
    to_uint32 (Z.lor (Z.lor (Z.shiftl (at_ data offset) 16)
                            (Z.shiftl (at_ data (offset + 1)) 8))
                     (at_ data (offset + 2))) in
  let self := mkSdMessage flags reserved (entries_ self) (options_ self) in
  let offset := offset + 3 in
  let length := be32_at data offset in
  let offset := offset + 4 in
  if offset + length >? vsize data then Some (false, self) else
  deserialize_entries (S (Datatypes.length data)) data length self offset length.

End Sd.

(* ================================================================== *)
(** ** Transport protocol: include/tp/tp_types.h, src/tp/tp_segmenter.cpp,
       src/tp/tp_reassembler.cpp, src/tp/tp_manager.cpp *)
(* ================================================================== *)

Module Tp.
Import Wire.

Inductive TpResult :=
| SUCCESS | MESSAGE_TOO_LARGE | SEGMENTATION_FAILED | REASSEMBLY_TIMEOUT
| INVALID_SEGMENT | SEQUENCE_ERROR | NETWORK_ERROR | RESOURCE_EXHAUSTED | TIMEOUT.

Inductive TpMessageType :=
| FIRST_SEGMENT | CONSECUTIVE_SEGMENT | LAST_SEGMENT | SINGLE_MESSAGE.

(** [struct TpConfig]; the two durations are in milliseconds. *)
Record TpConfig := mkTpConfig {
  max_segment_size : Z;
  max_message_size : Z;
  max_retries : Z;
  retry_timeout : Z;
  reassembly_timeout : Z;
  max_concurrent_transfers : Z;
  enable_acknowledgments : bool
}.

Definition TpConfig_default : TpConfig :=
  mkTpConfig 1400 1000000 3 500 5000 10 true.

(** [struct TpSegmentHeader]: [uint32_t], [uint16_t], [uint16_t], [uint8_t]
    and the segment type. *)
Record TpSegmentHeader := mkTpSegmentHeader {
  message_length : Z;
  segment_offset : Z;
  segment_length : Z;
  sequence_number : Z;
  message_type : TpMessageType
}.

(** [struct TpSegment] *)
Record TpSegment := mkTpSegment {
  header : TpSegmentHeader;
  payload : list Z
}.

(** [v.assign(src.begin() + first, src.begin() + last)] *)
Definition slice (src : list Z) (first last : Z) : list Z :=
  firstn (Z.to_nat (last - first)) (skipn (Z.to_nat first) src).

(* ------------------------------------------------------------------ *)
(** *** [class TpSegmenter] *)

Record TpSegmenter := mkTpSegmenter {
  config_ : TpConfig;
  next_sequence_number_ : Z
}.

(** The [while (payload_offset < total_length)] loop of
    [create_multi_segments]; [payload_offset] is a [uint16_t], [total_length]
    and [remaining_bytes] are [uint32_t].  [None] stands for a loop that has
    not ended after [fuel] iterations. *)
Fixpoint subsequent_segments (fuel : nat) (config : TpConfig) (payload : list Z)
    (total_length sequence_number payload_offset : Z) (segments : list TpSegment)
    : option (list TpSegment) :=
  match fuel with
  | O => None
  | S fuel =>
      if negb (payload_offset <? total_length) then Some segments else
      let remaining_bytes := to_uint32 (total_length - payload_offset) in
      let ty := if remaining_bytes <=? max_segment_size config
                then LAST_SEGMENT else CONSECUTIVE_SEGMENT in
      let payload_size :=
        to_uint16 (Z.min (max_segment_size config) remaining_bytes) in
      let segment :=
        mkTpSegment
          (mkTpSegmentHeader total_length payload_offset payload_size
             sequence_number ty)
          (slice payload payload_offset (payload_offset + payload_size)) in
      subsequent_segments fuel config payload total_length sequence_number
        (to_uint16 (payload_offset + payload_size)) (segments ++ [segment])
  end.

(** [TpSegmenter::create_multi_segments] *)
Definition create_multi_segments (fuel : nat) (self : TpSegmenter)
    (message : Message.t) (payload : list Z) (segments : list TpSegment)
    : option (TpResult * TpSegmenter * list TpSegment) :=
  let total_length := to_uint32 (vsize payload) in
  let sequence_number := next_sequence_number_ self in
  let self := mkTpSegmenter (config_ self) (to_uint8 (next_sequence_number_ self + 1)) in
  (* first segment: header + first part of payload *)
  let header := resize 16 0 (Message.serialize message) in
  let first_payload_size :=
    Z.min (to_uint32 (max_segment_size (config_ self) - 16)) total_length in
  let header := header ++ firstn (Z.to_nat first_payload_size) payload in
  let segment :=
    mkTpSegment
      (mkTpSegmentHeader total_length 0 (to_uint16 (vsize header))
         sequence_number FIRST_SEGMENT)
      header in
  let segments := segments ++ [segment] in
  let payload_offset := to_uint16 first_payload_size in
  match subsequent_segments fuel (config_ self) payload total_length
          sequence_number payload_offset segments with
  | None => None
  | Some segments =>
      let self :=
        mkTpSegmenter (config_ self) (to_uint8 ((next_sequence_number_ self + 1) mod 256)) in
      Some (SUCCESS, self, segments)
  end.

(** [TpSegmenter::segment_message(message, segments)] *)
Definition segment_message (fuel : nat) (self : TpSegmenter)
    (message : Message.t) (segments : list TpSegment)
    : option (TpResult * TpSegmenter * list TpSegment) :=
  let payload := Message.payload_ message in
  if vsize payload >? max_message_size (config_ self) then
    Some (MESSAGE_TOO_LARGE, self, segments)
  else if vsize payload <=? max_segment_size (config_ self) then
    let message_data := Message.serialize message in
    let segment :=
      mkTpSegment
        (mkTpSegmentHeader (to_uint32 (vsize payload)) 0
           (to_uint16 (vsize message_data)) (next_sequence_number_ self)
           SINGLE_MESSAGE)
        message_data in
    Some (SUCCESS,
          mkTpSegmenter (config_ self) (to_uint8 (next_sequence_number_ self + 1)),
          segments ++ [segment])
  else create_multi_segments fuel self message payload segments.

(* ------------------------------------------------------------------ *)
(** *** [struct TpReassemblyBuffer] *)

Record TpReassemblyBuffer := mkTpReassemblyBuffer {
  message_id : Z;
  total_length : Z;
  received_data : list Z;
  received_segments : list bool;
  last_sequence_number : Z;
  complete : bool
}.

(** [TpReassemblyBuffer(msg_id, length)]: [received_data.resize(length)]. *)
Definition TpReassemblyBuffer_make (msg_id length : Z) : TpReassemblyBuffer :=
  mkTpReassemblyBuffer msg_id length (replicate (Z.to_nat length) 0) [] 0 false.

(** [is_segment_received(uint16_t offset, uint16_t length)] *)
Definition is_segment_received (b : TpReassemblyBuffer) (offset length : Z) : bool :=
  forallb (fun i : nat => nth (Z.to_nat offset + i) (received_segments b) false)
          (seq 0 (Z.to_nat length)).

(** [mark_segment_received(uint16_t offset, uint16_t length)]; the guarded
    assignment [if (bit_index < size) bits[bit_index] = true] is the list
    update, which leaves the list alone out of range. *)
Definition mark_loop (offset : Z) (n : nat) (bits : list bool) : list bool :=
  fold_left (fun (bs : list bool) (i : nat) => <[(Z.to_nat offset + i)%nat := true]> bs)
            (seq 0 n) bits.

Definition mark_segment_received (b : TpReassemblyBuffer) (offset length : Z)
    : TpReassemblyBuffer :=
  let bits := received_segments b in
  let bits :=
    if vsize bits <? total_length b
    then resize (Z.to_nat (total_length b)) false bits else bits in
  let bits := mark_loop offset (Z.to_nat length) bits in
  mkTpReassemblyBuffer (message_id b) (total_length b) (received_data b) bits
    (last_sequence_number b) (complete b).

Definition is_complete (b : TpReassemblyBuffer) : bool :=
  if complete b then true else forallb (fun received : bool => received) (received_segments b).

Definition get_complete_message (b : TpReassemblyBuffer) : list Z :=
  if negb (is_complete b) then [] else received_data b.

(** [std::copy(first, last, dst.begin() + offset)] into a vector that is
    large enough ([add_segment_to_buffer] checks the bound before it copies). *)
Definition copy_at (src dst : list Z) (offset : Z) : list Z :=
  firstn (Z.to_nat offset) dst ++ src
  ++ skipn (Z.to_nat offset + length src) dst.

(* ------------------------------------------------------------------ *)
(** *** [class TpReassembler] *)

Record TpReassembler := mkTpReassembler {
  r_config_ : TpConfig;
  reassembly_buffers_ : gmap Z TpReassemblyBuffer
}.

Definition TpReassembler_make (config : TpConfig) : TpReassembler :=
  mkTpReassembler config ∅.

Definition validate_segment (self : TpReassembler) (segment : TpSegment) : bool :=
  if negb (segment_length (header segment) =? vsize (payload segment)) then false else
  if message_length (header segment) >? max_message_size (r_config_ self) then false else
  if segment_offset (header segment) + segment_length (header segment)
     >? message_length (header segment) then false else
  true.

(** [find_or_create_buffer]: the returned pointer is the key of the buffer in
    the map ([None] for [nullptr]). *)
Definition find_or_create_buffer (self : TpReassembler) (segment : TpSegment)
    : option Z * TpReassembler :=
  let key := sequence_number (header segment) in
  match reassembly_buffers_ self !! key with
  | Some _ => (Some key, self)
  | None =>
      match message_type (header segment) with
      | FIRST_SEGMENT | SINGLE_MESSAGE =>
          let buffer :=
            TpReassemblyBuffer_make (sequence_number (header segment))
                                    (message_length (header segment)) in
          (Some key,
           mkTpReassembler (r_config_ self) (<[key := buffer]> (reassembly_buffers_ self)))
      | _ => (None, self)
      end
  end.

Definition set_received_data (b : TpReassemblyBuffer) (data : list Z) : TpReassemblyBuffer :=
  mkTpReassemblyBuffer (message_id b) (total_length b) data (received_segments b)
    (last_sequence_number b) (complete b).

Definition add_segment_to_buffer (buffer : TpReassemblyBuffer) (segment : TpSegment)
    : bool * TpReassemblyBuffer :=
  let h := header segment in
  if is_segment_received buffer (segment_offset h) (segment_length h) then (true, buffer) else
  if segment_offset h + segment_length h >? total_length buffer then (false, buffer) else
  let header_size := 16 in
  let '(bytes_received, buffer) :=
    match message_type h with
    | FIRST_SEGMENT =>
        if vsize (payload segment) >? header_size then
          (vsize (payload segment) - header_size,
           set_received_data buffer
             (copy_at (skipn (Z.to_nat header_size) (payload segment))
                      (received_data buffer) (segment_offset h)))
        else (0, buffer)
    | SINGLE_MESSAGE =>
        if vsize (payload segment) >? header_size then
          (vsize (payload segment) - header_size,
           set_received_data buffer
             (copy_at (skipn (Z.to_nat header_size) (payload segment))
                      (received_data buffer) 0))
        else (0, buffer)
    | _ =>
        (vsize (payload segment),
         set_received_data buffer
           (copy_at (payload segment) (received_data buffer) (segment_offset h)))
    end in
  let buffer := mark_segment_received buffer (segment_offset h) (to_uint16 bytes_received) in
  let buffer :=
    mkTpReassemblyBuffer (message_id buffer) (total_length buffer) (received_data buffer)
      (received_segments buffer) (sequence_number h) (complete buffer) in
  (true, buffer).

(** [TpReassembler::process_segment(segment, complete_message)]: the result,
    the reassembler afterwards and the out-parameter [complete_message]. *)
Definition process_segment (self : TpReassembler) (segment : TpSegment)
    (complete_message : list Z) : bool * TpReassembler * list Z :=
  if negb (validate_segment self segment) then (false, self, complete_message) else
  match find_or_create_buffer self segment with
  | (None, self) => (false, self, complete_message)
  | (Some key, self) =>
      match reassembly_buffers_ self !! key with
      | None => (false, self, complete_message)
      | Some buffer =>
          let '(added, buffer) := add_segment_to_buffer buffer segment in
          let self :=
            mkTpReassembler (r_config_ self) (<[key := buffer]> (reassembly_buffers_ self)) in
          if added && is_complete buffer then
            let buffer :=
              mkTpReassemblyBuffer (message_id buffer) (total_length buffer)
                (received_data buffer) (received_segments buffer)
                (last_sequence_number buffer) true in
            let complete_message := get_complete_message buffer in
            (true,
             mkTpReassembler (r_config_ self)
               (delete (message_id buffer) (<[key := buffer]> (reassembly_buffers_ self))),
             complete_message)
          else (true, self, complete_message)
      end
  end.

Definition is_reassembling (self : TpReassembler) (message_id : Z) : bool :=
  bool_decide (is_Some (reassembly_buffers_ self !! message_id)).

Definition cancel_reassembly (self : TpReassembler) (message_id : Z) : TpReassembler :=
  mkTpReassembler (r_config_ self) (delete message_id (reassembly_buffers_ self)).

Definition get_active_reassemblies (self : TpReassembler) : Z :=
  Z.of_nat (size (reassembly_buffers_ self)).

(** Feeding a sequence of segments, one [process_segment] call each, with
    one [complete_message] vector handed from call to call; the result is
    the conjunction of the calls' results. *)
Fixpoint feed (self : TpReassembler) (segments : list TpSegment)
    (complete_message : list Z) : bool * TpReassembler * list Z :=
  match segments with
  | [] => (true, self, complete_message)
  | segment :: rest =>
      let '(ok, self, complete_message) := process_segment self segment complete_message in
      let '(oks, self, complete_message) := feed self rest complete_message in
      (ok && oks, self, complete_message)
  end.

(* ------------------------------------------------------------------ *)
(** *** [class TpManager] (the parts that bound and route transfers) *)

Inductive TpTransferState :=
| IDLE | SEGMENTING | SENDING | WAITING_ACK | RECEIVING | REASSEMBLING
| COMPLETE | FAILED | TRANSFER_TIMEOUT.

Record TpTransfer := mkTpTransfer {
  transfer_id : Z;
  t_message_id : Z;
  state : TpTransferState;
  segments : list TpSegment;
  next_segment_to_send : Z;
  retry_count : Z
}.

Record TpStatistics := mkTpStatistics {
  messages_segmented : Z;
  messages_reassembled : Z;
  segments_sent : Z;
  segments_received : Z;
  retransmissions : Z;
  timeouts : Z;
  errors : Z
}.

Record TpManager := mkTpManager {
  m_config_ : TpConfig;
  segmenter_ : TpSegmenter;
  reassembler_ : TpReassembler;
  active_transfers_ : gmap Z TpTransfer;
  next_transfer_id_ : Z;
  statistics_ : TpStatistics
}.

Definition TpManager_make (config : TpConfig) : TpManager :=
  mkTpManager config (mkTpSegmenter config 0) (TpReassembler_make config) ∅ 1
    (mkTpStatistics 0 0 0 0 0 0 0).

Definition needs_segmentation (self : TpManager) (message : Message.t) : bool :=
  let data := Message.serialize message in
  vsize data >? max_segment_size (m_config_ self).

(** [TpManager::segment_message(message, transfer_id)]: result, manager
    afterwards and the out-parameter [transfer_id]. *)
Definition manager_segment_message (fuel : nat) (self : TpManager)
    (message : Message.t) (transfer_id : Z)
    : option (TpResult * TpManager * Z) :=
  if Z.of_nat (size (active_transfers_ self)) >=? max_concurrent_transfers (m_config_ self)
  then Some (RESOURCE_EXHAUSTED, self, transfer_id) else
  let transfer_id := next_transfer_id_ self in
  let self :=
    mkTpManager (m_config_ self) (segmenter_ self) (reassembler_ self)
      (active_transfers_ self) (to_uint32 (next_transfer_id_ self + 1)) (statistics_ self) in
  let message_id :=
    Z.lor (to_uint32 (Z.shiftl (Message.service_id (Message.message_id_ message)) 16))
          (Message.method_id (Message.message_id_ message)) in
  match segment_message fuel (segmenter_ self) message [] with
  | None => None
  | Some (result, segmenter, segments) =>
      let self :=
        mkTpManager (m_config_ self) segmenter (reassembler_ self)
          (active_transfers_ self) (next_transfer_id_ self) (statistics_ self) in
      match result with
      | SUCCESS =>
          let transfer := mkTpTransfer transfer_id message_id SENDING segments 0 0 in
          let st := statistics_ self in
          Some (SUCCESS,
                mkTpManager (m_config_ self) (segmenter_ self) (reassembler_ self)
                  (<[transfer_id := transfer]> (active_transfers_ self))
                  (next_transfer_id_ self)
                  (mkTpStatistics (to_uint32 (messages_segmented st + 1))
                     (messages_reassembled st) (segments_sent st) (segments_received st)
                     (retransmissions st) (timeouts st) (errors st)),
                transfer_id)
      | _ => Some (result, self, transfer_id)
      end
  end.

End Tp.

(* ================================================================== *)
(** ** Message type helpers: src/someip/types.cpp *)
(* ================================================================== *)

Module Types.
Import Message.

Definition is_request (type : Z) : bool :=
  (type =? REQUEST) || (type =? REQUEST_NO_RETURN)
  || (type =? TP_REQUEST) || (type =? TP_REQUEST_NO_RETURN).

Definition is_response (type : Z) : bool :=
  (type =? RESPONSE) || (type =? ERROR)
  || (type =? RESPONSE_ACK) || (type =? ERROR_ACK).

Definition uses_tp (type : Z) : bool :=
  (type =? TP_REQUEST) || (type =? TP_REQUEST_NO_RETURN) || (type =? TP_NOTIFICATION).

(** The [switch] of [get_ack_type]; [default] returns the type itself. *)
Definition get_ack_type (type : Z) : Z :=
  if type =? REQUEST then REQUEST_ACK
  else if type =? RESPONSE then RESPONSE_ACK
  else if type =? ERROR then ERROR_ACK
  else type.

Definition is_success (code : Z) : bool := code =? E_OK.

End Types.

(* ================================================================== *)
(** ** Copying and moving a message: src/someip/message.cpp *)
(* ================================================================== *)

Module MessageObject.
Import Wire Message.

(** [Message(const Message& other)] and, for [this != &other],
    [operator=(const Message& other)]: every member is copied. *)
Definition copy_construct (other : t) : t := other.
Definition copy_assign (self other : t) : t := other.

(** What the move operations leave in [other]: its interface version is
    set to 0xFF and its length to 8.  [left] is the payload the moved-from
    vector holds: empty after the move constructor. *)
Definition moved_from (other : t) (left : list Z) : t :=
  set_length (set_interface_version (assign_payload other left) 0xFF) 8.

(** [Message(Message&& other)]: the new object and [other] afterwards.
    [length_] is initialised, before [payload_] is moved, from the size of
    [other.payload_]. *)
Definition move_construct (other : t) : t * t :=
  (mk (message_id_ other) (to_uint32 (8 + vsize (payload_ other)))
      (request_id_ other) (protocol_version_ other) (interface_version_ other)
      (message_type_ other) (return_code_ other) (payload_ other),
   moved_from other []).

(** [operator=(Message&& other)] for [this != &other]: the object assigned
    to.  Unlike the move constructor it sets the interface version to
    [SOMEIP_INTERFACE_VERSION]. *)
Definition move_assign (self other : t) : t :=
  mk (message_id_ other) (to_uint32 (8 + vsize (payload_ other)))
     (request_id_ other) (protocol_version_ other) SOMEIP_INTERFACE_VERSION
     (message_type_ other) (return_code_ other) (payload_ other).

(** [get_total_size()] *)
Definition get_total_size (m : t) : Z := HEADER_SIZE + vsize (payload_ m).

End MessageObject.

(* ================================================================== *)
(** ** Payload writer: src/serialization/serializer.cpp, [class Serializer] *)
(* ================================================================== *)

Module Serializer.
Import Wire.

(** [class Serializer]: the buffer. *)
Record t := mk { buffer_ : list Z }.

(** [Serializer()] and [reset()] *)
Definition make : t := mk [].
Definition reset (s : t) : t := mk [].

Definition get_buffer (s : t) : list Z := buffer_ s.
Definition get_size (s : t) : Z := vsize (buffer_ s).

(** [buffer_.push_back(b)] and [buffer_.insert(buffer_.end(), first, last)] *)
Definition push_back (s : t) (b : Z) : t := mk (buffer_ s ++ [b]).
Definition insert_end (s : t) (bytes : list Z) : t := mk (buffer_ s ++ bytes).

Definition append_be_uint16 (s : t) (value : Z) : t := insert_end s (htons_bytes value).
Definition append_be_uint32 (s : t) (value : Z) : t := insert_end s (htonl_bytes value).

(** The byte swap that [append_be_uint64] writes out, on a [uint64_t]. *)
Definition swap_bytes64 (value : Z) : Z :=
  Z.lor (Z.lor (Z.lor (Z.lor (Z.lor (Z.lor (Z.lor
    (Z.shiftr (Z.land value 0xFF00000000000000) 56)
    (Z.shiftr (Z.land value 0x00FF000000000000) 40))
    (Z.shiftr (Z.land value 0x0000FF0000000000) 24))
    (Z.shiftr (Z.land value 0x000000FF00000000) 8))
    (Z.shiftl (Z.land value 0x00000000FF000000) 8))
    (Z.shiftl (Z.land value 0x0000000000FF0000) 24))
    (Z.shiftl (Z.land value 0x000000000000FF00) 40))
    (Z.shiftl (Z.land value 0x00000000000000FF) 56).

(** The eight bytes of a [uint64_t] in memory order, on a little-endian
    host: what [reinterpret_cast<const uint8_t*>(&be_value)] points to. *)
Definition memory_bytes64 (x : Z) : list Z :=
  [ Z.land x 0xFF; Z.land (Z.shiftr x 8) 0xFF; Z.land (Z.shiftr x 16) 0xFF;
    Z.land (Z.shiftr x 24) 0xFF; Z.land (Z.shiftr x 32) 0xFF;
    Z.land (Z.shiftr x 40) 0xFF; Z.land (Z.shiftr x 48) 0xFF;
    Z.land (Z.shiftr x 56) 0xFF ].

Definition append_be_uint64 (s : t) (value : Z) : t :=
  insert_end s (memory_bytes64 (swap_bytes64 value)).

(** The signed variants cast to the unsigned type of the same width. *)
Definition append_be_int16 (s : t) (value : Z) : t := append_be_uint16 s (to_uint16 value).
Definition append_be_int32 (s : t) (value : Z) : t := append_be_uint32 s (to_uint32 value).
Definition append_be_int64 (s : t) (value : Z) : t := append_be_uint64 s (value mod 2 ^ 64).

Definition serialize_bool (s : t) (value : bool) : t :=
  push_back s (if value then 0x01 else 0x00).
Definition serialize_uint8 (s : t) (value : Z) : t := push_back s value.
Definition serialize_uint16 (s : t) (value : Z) : t := append_be_uint16 s value.
Definition serialize_uint32 (s : t) (value : Z) : t := append_be_uint32 s value.
Definition serialize_uint64 (s : t) (value : Z) : t := append_be_uint64 s value.
Definition serialize_int8 (s : t) (value : Z) : t := push_back s (to_uint8 value).
Definition serialize_int16 (s : t) (value : Z) : t := append_be_int16 s value.
Definition serialize_int32 (s : t) (value : Z) : t := append_be_int32 s value.
Definition serialize_int64 (s : t) (value : Z) : t := append_be_int64 s value.

(** A [float] or [double] is its bit pattern, as on the reader side. *)
Definition serialize_float (s : t) (bits : Z) : t := append_be_uint32 s bits.
Definition serialize_double (s : t) (bits : Z) : t := append_be_uint64 s bits.

(** [add_padding(bytes)] and [align_to(alignment)]: the loops push
    [bytes], respectively [padding_needed], zero bytes. *)
Definition add_padding (s : t) (bytes : Z) : t :=
  insert_end s (replicate (Z.to_nat bytes) 0x00).

Definition align_to (s : t) (alignment : Z) : t :=
  let current_size := vsize (buffer_ s) in
  let padding_needed := (alignment - (current_size mod alignment)) mod alignment in
  insert_end s (replicate (Z.to_nat padding_needed) 0x00).

(** [serialize_string(value)]: the characters of a [std::string] are bytes. *)
Definition serialize_string (s : t) (value : list Z) : t :=
  let s := serialize_uint32 s (to_uint32 (vsize value)) in
  let s := insert_end s value in
  align_to s 4.

(** [serialize_array<T>(array)]: [element] is the writer the [if constexpr]
    chain selects for [T]. *)
Definition serialize_array {T} (element : t -> T -> t) (s : t) (array : list T) : t :=
  let s := serialize_uint32 s (to_uint32 (vsize array)) in
  fold_left element array s.

End Serializer.

(** The integer element types of [serialize_array] and [deserialize_array],
    with the writer and the reader that the two [if constexpr] chains select
    for each of them. *)
Module Element.
Import Wire.

Inductive int_type :=
| uint8_t | uint16_t | uint32_t | uint64_t | int8_t | int16_t | int32_t | int64_t.

Definition sizeof (T : int_type) : Z :=
  match T with
  | uint8_t | int8_t => 1
  | uint16_t | int16_t => 2
  | uint32_t | int32_t => 4
  | uint64_t | int64_t => 8
  end.

(** The values of the type. *)
Definition in_range (T : int_type) (v : Z) : Prop :=
  match T with
  | uint8_t => 0 <= v < 2 ^ 8
  | uint16_t => 0 <= v < 2 ^ 16
  | uint32_t => 0 <= v < 2 ^ 32
  | uint64_t => 0 <= v < 2 ^ 64
  | int8_t => - 2 ^ 7 <= v < 2 ^ 7
  | int16_t => - 2 ^ 15 <= v < 2 ^ 15
  | int32_t => - 2 ^ 31 <= v < 2 ^ 31
  | int64_t => - 2 ^ 63 <= v < 2 ^ 63
  end.

Definition serialize (T : int_type) (s : Serializer.t) (element : Z) : Serializer.t :=
  match T with
  | uint8_t => Serializer.serialize_uint8 s element
  | uint16_t => Serializer.serialize_uint16 s element
  | uint32_t => Serializer.serialize_uint32 s element
  | uint64_t => Serializer.serialize_uint64 s element
  | int8_t => Serializer.serialize_int8 s element
  | int16_t => Serializer.serialize_int16 s element
  | int32_t => Serializer.serialize_int32 s element
  | int64_t => Serializer.serialize_int64 s element
  end.

Definition deserialize (T : int_type) (d : Deserializer.t)
    : Deserializer.DeserializationResult Z * Deserializer.t :=
  match T with
  | uint8_t => Deserializer.deserialize_uint8 d
  | uint16_t => Deserializer.deserialize_uint16 d
  | uint32_t => Deserializer.deserialize_uint32 d
  | uint64_t => Deserializer.deserialize_uint64 d
  | int8_t => Deserializer.deserialize_int8 d
  | int16_t => Deserializer.deserialize_int16 d
  | int32_t => Deserializer.deserialize_int32 d
  | int64_t => Deserializer.deserialize_int64 d
  end.

(** [Deserializer::is_valid()] and [Deserializer::reset()] *)
Definition is_valid (d : Deserializer.t) : bool :=
  Deserializer.position_ d <=? vsize (Deserializer.buffer_ d).

Definition reset (d : Deserializer.t) : Deserializer.t :=
  Deserializer.mk (Deserializer.buffer_ d) 0.

End Element.

(* ================================================================== *)
(** ** Service discovery: flags and options (include/sd/sd_message.h,
       src/sd/sd_message.cpp) *)
(* ================================================================== *)

Module SdFlags.
Import Wire Sd.

Definition set_flags (m : SdMessage) (flags : Z) : SdMessage :=
  mkSdMessage flags (reserved_ m) (entries_ m) (options_ m).

Definition add_option (m : SdMessage) (o : option_) : SdMessage :=
  mkSdMessage (flags_ m) (reserved_ m) (entries_ m) (options_ m ++ [o]).

Definition is_reboot (m : SdMessage) : bool := negb (Z.land (flags_ m) 0x80 =? 0).
Definition is_unicast (m : SdMessage) : bool := negb (Z.land (flags_ m) 0x40 =? 0).

(** [flags_ |= 0x80] and [flags_ &= ~0x80]: computed on [int], stored into
    the [uint8_t] member. *)
Definition set_reboot (m : SdMessage) (reboot : bool) : SdMessage :=
  if reboot then set_flags m (to_uint8 (Z.lor (flags_ m) 0x80))
  else set_flags m (to_uint8 (Z.land (flags_ m) (Z.lnot 0x80))).

Definition set_unicast (m : SdMessage) (unicast : bool) : SdMessage :=
  if unicast then set_flags m (to_uint8 (Z.lor (flags_ m) 0x40))
  else set_flags m (to_uint8 (Z.land (flags_ m) (Z.lnot 0x40))).

End SdFlags.

(** The option classes as whole objects: the members of [SdOption]
    ([type_], which [deserialize] overwrites, and [length_]) and those of
    the derived class. *)
Module SdOptions.
Import Wire.

Record SdOption := mkSdOption { type_ : Z; length_ : Z }.

Record IPv4EndpointOption := mkIPv4EndpointOption {
  ep_base : SdOption;
  ep_protocol_ : Z;
  ep_ipv4_address_ : Z;
  ep_port_ : Z
}.

Record IPv4MulticastOption := mkIPv4MulticastOption {
  mc_base : SdOption;
  mc_ipv4_address_ : Z;
  mc_port_ : Z
}.

(** [IPv4EndpointOption()] and [IPv4MulticastOption()] *)
Definition IPv4EndpointOption_default : IPv4EndpointOption :=
  mkIPv4EndpointOption (mkSdOption Sd.IPV4_ENDPOINT 0) 0 0 0.
Definition IPv4MulticastOption_default : IPv4MulticastOption :=
  mkIPv4MulticastOption (mkSdOption Sd.IPV4_MULTICAST 0) 0 0.

Definition SdOption_serialize (o : SdOption) : list Z :=
  [ type_ o; 0; Z.land (Z.shiftr (length_ o) 8) 0xFF; Z.land (length_ o) 0xFF ].

(** [SdOption::deserialize(data, offset)]: result, object, new [offset]. *)
Definition SdOption_deserialize (self : SdOption) (data : list Z) (offset : Z)
    : bool * SdOption * Z :=
  if offset + 4 >? vsize data then (false, self, offset) else
  let type := at_ data offset in
  let offset := offset + 1 in
  let offset := offset + 1 in
  let length := Sd.be16_at data offset in
  (true, mkSdOption type length, offset + 2).

Definition IPv4EndpointOption_serialize (o : IPv4EndpointOption) : list Z :=
  let data := SdOption_serialize (ep_base o)
    ++ [ Z.land (Z.shiftr (ep_ipv4_address_ o) 24) 0xFF;
         Z.land (Z.shiftr (ep_ipv4_address_ o) 16) 0xFF;
         Z.land (Z.shiftr (ep_ipv4_address_ o) 8) 0xFF;
         Z.land (ep_ipv4_address_ o) 0xFF;
         0; ep_protocol_ o;
         Z.land (Z.shiftr (ep_port_ o) 8) 0xFF; Z.land (ep_port_ o) 0xFF ] in
  let length := 9 in
  let data := <[2%nat := Z.land (Z.shiftr length 8) 0xFF]> data in
  <[3%nat := Z.land length 0xFF]> data.

(** [IPv4EndpointOption::deserialize]: after the check against [length_]
    it reads the eight bytes [data[offset .. offset + 8)]. *)
Definition IPv4EndpointOption_deserialize (self : IPv4EndpointOption) (data : list Z)
    (offset : Z) : bool * IPv4EndpointOption * Z :=
  match SdOption_deserialize (ep_base self) data offset with
  | (false, base, offset) =>
      (false,
       mkIPv4EndpointOption base (ep_protocol_ self) (ep_ipv4_address_ self) (ep_port_ self),
       offset)
  | (true, base, offset) =>
      let self :=
        mkIPv4EndpointOption base (ep_protocol_ self) (ep_ipv4_address_ self)
          (ep_port_ self) in
      if offset + length_ base >? vsize data then (false, self, offset) else
      let ipv4_address := Sd.be32_at data offset in
      let offset := offset + 5 in
      let protocol := at_ data offset in
      let offset := offset + 1 in
      let port := Sd.be16_at data offset in
      (true, mkIPv4EndpointOption base protocol ipv4_address port, offset + 2)
  end.

Definition IPv4MulticastOption_serialize (o : IPv4MulticastOption) : list Z :=
  let data := SdOption_serialize (mc_base o)
    ++ [ Z.land (Z.shiftr (mc_ipv4_address_ o) 24) 0xFF;
         Z.land (Z.shiftr (mc_ipv4_address_ o) 16) 0xFF;
         Z.land (Z.shiftr (mc_ipv4_address_ o) 8) 0xFF;
         Z.land (mc_ipv4_address_ o) 0xFF;
         0;
         Z.land (Z.shiftr (mc_port_ o) 8) 0xFF; Z.land (mc_port_ o) 0xFF ] in
  let length := 7 in
  let data := <[2%nat := Z.land (Z.shiftr length 8) 0xFF]> data in
  <[3%nat := Z.land length 0xFF]> data.

Definition IPv4MulticastOption_deserialize (self : IPv4MulticastOption) (data : list Z)
    (offset : Z) : bool * IPv4MulticastOption * Z :=
  match SdOption_deserialize (mc_base self) data offset with
  | (false, base, offset) =>
      (false, mkIPv4MulticastOption base (mc_ipv4_address_ self) (mc_port_ self), offset)
  | (true, base, offset) =>
      let self := mkIPv4MulticastOption base (mc_ipv4_address_ self) (mc_port_ self) in
      if offset + length_ base >? vsize data then (false, self, offset) else
      let ipv4_address := Sd.be32_at data offset in
      let offset := offset + 5 in
      let port := Sd.be16_at data offset in
      (true, mkIPv4MulticastOption base ipv4_address port, offset + 2)
  end.

End SdOptions.

(* ================================================================== *)
(** ** Transport protocol: progress, and the transfers of [TpManager]
       (src/tp/tp_reassembler.cpp, src/tp/tp_manager.cpp) *)
(* ================================================================== *)

Module TpOps.
Import Wire Tp.

(** [TpSegment()] *)
Definition TpSegment_default : TpSegment :=
  mkTpSegment (mkTpSegmentHeader 0 0 0 0 SINGLE_MESSAGE) [].

(** [TpReassembler::get_reassembly_progress(message_id, received_bytes,
    total_bytes)]: result and the two out-parameters.  [received_bytes] is
    a [uint32_t]. *)
Definition get_reassembly_progress (self : TpReassembler)
    (message_id received_bytes total_bytes : Z) : bool * Z * Z :=
  match reassembly_buffers_ self !! message_id with
  | None => (false, received_bytes, total_bytes)
  | Some buffer =>
      let total_bytes := total_length buffer in
      let received_bytes :=
        fold_left
          (fun (received_bytes : Z) (received : bool) =>
             if received
             then to_uint32 (received_bytes + max_segment_size (r_config_ self))
             else received_bytes)
          (received_segments buffer) 0 in
      let received_bytes :=
        if received_bytes >? total_bytes then total_bytes else received_bytes in
      (true, received_bytes, total_bytes)
  end.

Definition TpSegmenter_update_config (self : TpSegmenter) (config : TpConfig)
    : TpSegmenter :=
  mkTpSegmenter config (next_sequence_number_ self).

Definition TpReassembler_update_config (self : TpReassembler) (config : TpConfig)
    : TpReassembler :=
  mkTpReassembler config (reassembly_buffers_ self).

(* ------------------------------------------------------------------ *)
(** *** [class TpManager] *)

Definition set_active_transfers (self : TpManager) (transfers : gmap Z TpTransfer)
    : TpManager :=
  mkTpManager (m_config_ self) (segmenter_ self) (reassembler_ self) transfers
    (next_transfer_id_ self) (statistics_ self).

Definition set_statistics (self : TpManager) (statistics : TpStatistics) : TpManager :=
  mkTpManager (m_config_ self) (segmenter_ self) (reassembler_ self)
    (active_transfers_ self) (next_transfer_id_ self) statistics.

Definition set_reassembler (self : TpManager) (reassembler : TpReassembler) : TpManager :=
  mkTpManager (m_config_ self) (segmenter_ self) reassembler
    (active_transfers_ self) (next_transfer_id_ self) (statistics_ self).

(** [TpManager::shutdown()] *)
Definition shutdown (self : TpManager) : TpManager := set_active_transfers self ∅.

(** [TpManager::get_next_segment(transfer_id, segment)]: result, manager
    afterwards and the out-parameter [segment]. *)
Definition get_next_segment (self : TpManager) (transfer_id : Z) (segment : TpSegment)
    : TpResult * TpManager * TpSegment :=
  match active_transfers_ self !! transfer_id with
  | None => (INVALID_SEGMENT, self, segment)
  | Some transfer =>
      if next_segment_to_send transfer >=? vsize (segments transfer) then
        let transfer :=
          mkTpTransfer (Tp.transfer_id transfer) (t_message_id transfer) COMPLETE
            (segments transfer) (next_segment_to_send transfer) (retry_count transfer) in
        (SUCCESS,
         set_active_transfers self (<[transfer_id := transfer]> (active_transfers_ self)),
         TpSegment_default)
      else
        let segment :=
          nth (Z.to_nat (next_segment_to_send transfer)) (segments transfer)
              TpSegment_default in
        let transfer :=
          mkTpTransfer (Tp.transfer_id transfer) (t_message_id transfer) (state transfer)
            (segments transfer) (next_segment_to_send transfer + 1)
            (retry_count transfer) in
        let self :=
          set_active_transfers self
            (<[transfer_id := transfer]> (active_transfers_ self)) in
        let st := statistics_ self in
        (SUCCESS,
         set_statistics self
           (mkTpStatistics (messages_segmented st) (messages_reassembled st)
              (to_uint32 (segments_sent st + 1)) (segments_received st)
              (retransmissions st) (timeouts st) (errors st)),
         segment)
  end.

(** [TpManager::handle_received_segment(segment, complete_message)] *)
Definition handle_received_segment (self : TpManager) (segment : TpSegment)
    (complete_message : list Z) : bool * TpManager * list Z :=
  let st := statistics_ self in
  let self :=
    set_statistics self
      (mkTpStatistics (messages_segmented st) (messages_reassembled st)
         (segments_sent st) (to_uint32 (segments_received st + 1))
         (retransmissions st) (timeouts st) (errors st)) in
  match message_type (header segment) with
  | SINGLE_MESSAGE => (true, self, payload segment)
  | _ =>
      let '(result, reassembler, complete_message) :=
        process_segment (reassembler_ self) segment complete_message in
      (result, set_reassembler self reassembler, complete_message)
  end.

(** [TpManager::acknowledge_segments(transfer_id, segments_acknowledged)] *)
Definition acknowledge_segments (self : TpManager) (transfer_id : Z)
    (segments_acknowledged : list Z) : TpResult * TpManager :=
  match active_transfers_ self !! transfer_id with
  | None => (INVALID_SEGMENT, self)
  | Some _ => (SUCCESS, self)
  end.

(** [TpManager::cancel_transfer(transfer_id)] *)
Definition cancel_transfer (self : TpManager) (transfer_id : Z) : TpResult * TpManager :=
  match active_transfers_ self !! transfer_id with
  | None => (INVALID_SEGMENT, self)
  | Some _ =>
      (SUCCESS, set_active_transfers self (delete transfer_id (active_transfers_ self)))
  end.

(** [TpManager::get_transfer_status(transfer_id)] *)
Definition get_transfer_status (self : TpManager) (transfer_id : Z) : TpTransferState :=
  match active_transfers_ self !! transfer_id with
  | None => FAILED
  | Some transfer => state transfer
  end.

Definition get_statistics (self : TpManager) : TpStatistics := statistics_ self.

(** [n] calls of [get_next_segment] for one transfer: the segments they
    return, in order, and the manager afterwards. *)
Fixpoint next_segments (n : nat) (self : TpManager) (transfer_id : Z)
    : list TpSegment * TpManager :=
  match n with
  | O => ([], self)
  | S n =>
      let '(_, self, segment) := get_next_segment self transfer_id TpSegment_default in
      let '(rest, self) := next_segments n self transfer_id in
      (segment :: rest, self)
  end.

(** Handing a sequence of segments to [handle_received_segment], one call
    each, with one [complete_message] vector handed from call to call. *)
Fixpoint receive (self : TpManager) (segments : list TpSegment)
    (complete_message : list Z) : bool * TpManager * list Z :=
  match segments with
  | [] => (true, self, complete_message)
  | segment :: rest =>
      let '(ok, self, complete_message) :=
        handle_received_segment self segment complete_message in
      let '(oks, self, complete_message) := receive self rest complete_message in
      (ok && oks, self, complete_message)
  end.

End TpOps.

(* ================================================================== *)
(** ** Framing of the TCP byte stream (src/transport/tcp_transport.cpp) *)
(* ================================================================== *)

Module Tcp.
Import Wire.

(** [TcpTransport::SOMEIP_HEADER_SIZE], [TcpTransport::MAX_MESSAGE_SIZE] *)
Definition SOMEIP_HEADER_SIZE : Z := 16.
Definition MAX_MESSAGE_SIZE : Z := 65535.

(** [struct TcpTransportConfig], without its durations. *)
Record TcpTransportConfig := mkTcpTransportConfig {
  max_receive_buffer : Z;
  max_connections : Z;
  keep_alive : bool
}.

Definition TcpTransportConfig_default : TcpTransportConfig :=
  mkTcpTransportConfig 65536 10 true.

(** [(buffer[i] << 24) | (buffer[i + 1] << 16) | (buffer[i + 2] << 8) |
    buffer[i + 3]], an [int], stored in a [uint32_t]. *)
Definition word_at (buffer : list Z) (i : Z) : Z :=
  to_uint32
    (Z.lor (Z.lor (Z.lor (Z.shiftl (at_ buffer i) 24)
                         (Z.shiftl (at_ buffer (i + 1)) 16))
                  (Z.shiftl (at_ buffer (i + 2)) 8))
           (at_ buffer (i + 3))).

(** The loop that looks for the next potential header after an invalid
    length: the first [search_start] with [search_start + 16 <=
    buffer.size()] whose four bytes are not all zero.  [fuel] bounds the
    iterations; the loop stops within [buffer.size()] of them, since
    [search_start] grows by one each time. *)
Fixpoint find_header (fuel : nat) (buffer : list Z) (search_start : Z) : option Z :=
  match fuel with
  | O => None
  | S fuel =>
      if search_start + SOMEIP_HEADER_SIZE <=? vsize buffer then
        let potential_msg_id := word_at buffer search_start in
        if negb (potential_msg_id =? 0) then Some search_start
        else find_header fuel buffer (search_start + 1)
      else None
  end.

(** [TcpTransport::parse_message_from_buffer(buffer, message)]: result,
    [buffer] afterwards and [message] afterwards ([None] is the null
    pointer). *)
Definition parse_message_from_buffer (config : TcpTransportConfig)
    (buffer : list Z) (message : option Message.t)
    : bool * list Z * option Message.t :=
  if vsize buffer >? max_receive_buffer config then (false, [], message) else
  if vsize buffer <? SOMEIP_HEADER_SIZE then (false, buffer, message) else
  let length_from_client_id := word_at buffer 4 in
  if (length_from_client_id <? 8) || (length_from_client_id >? MAX_MESSAGE_SIZE) then
    match find_header (length buffer) buffer SOMEIP_HEADER_SIZE with
    | Some search_start => (false, skipn (Z.to_nat search_start) buffer, message)
    | None => (false, [], message)
    end
  else
  let total_message_size := 8 + length_from_client_id in
  if vsize buffer <? total_message_size then (false, buffer, message) else
  let message_data := firstn (Z.to_nat total_message_size) buffer in
  let buffer := skipn (Z.to_nat total_message_size) buffer in
  let '(ok, parsed) := Message.deserialize Message.default message_data in
  (ok, buffer, Some parsed).

End Tcp.

(* ================================================================== *)
(** ** Inputs and specifications used by the properties below *)
(* ================================================================== *)

Section Inputs.
Import Wire.

(** The message of scenario S1. *)
Definition hello_world : Message.t :=
  Message.set_payload
    (Message.make (Message.mkMessageId 0x1000 0x0001) (Message.mkRequestId 0x1234 0x5678)
                  Message.REQUEST Message.E_OK)
    [0x48; 0x65; 0x6C; 0x6C; 0x6F].

(** A message whose length field was overwritten after the payload was set
    (scenario S2). *)
Definition stale_length : Message.t :=
  Message.set_length (Message.set_payload Message.default (repeat 0xAA 100)) 99.

(** A message with a payload of 65 528 bytes whose header is consistent. *)
Definition large_message : Message.t :=
  Message.set_payload Message.default (repeat 0 (Z.to_nat 65528)).

(** A buffer that holds the length prefix 5 of a string and one character. *)
Definition truncated_string : Deserializer.t := Deserializer.make [0; 0; 0; 5; 65].

(** The find-service entry of scenario S6 and the message that holds it. *)
Definition find_service : Sd.ServiceEntry :=
  Sd.mkServiceEntry (Sd.mkSdEntry Sd.FIND_SERVICE 0 0 3) 0x1234 0xFFFF 0xFF 0.

Definition find_service_message : Sd.SdMessage :=
  Sd.add_entry Sd.SdMessage_default (Sd.Service find_service).

(** An SD payload with two 16-byte entries: one of the unknown type 0x02 (all
    other bytes zero), then a well-formed SUBSCRIBE_EVENTGROUP entry at
    offset 24. *)
Definition subscribe : Sd.EventGroupEntry :=
  Sd.mkEventGroupEntry (Sd.mkSdEntry Sd.SUBSCRIBE_EVENTGROUP 0 0 3) 0x1234 0x0001 0x1234 1.

Definition unknown_then_subscribe : list Z :=
  [0; 0; 0; 0; 0; 0; 0; 32]
  ++ (0x02 :: repeat 0 15)
  ++ Sd.EventGroupEntry_serialize subscribe.

End Inputs.

Section TpInputs.
Import Wire Tp.

(** Scenario S3: [max_segment_size = 100] and a payload of 350 bytes. *)
Definition config_100 : TpConfig := mkTpConfig 100 1000000 3 500 5000 10 true.

Definition message_350 : Message.t :=
  Message.set_payload Message.default (repeat 0x55 350).

(** A payload of 90 bytes: the serialized message has 106 bytes. *)
Definition message_90 : Message.t :=
  Message.set_payload Message.default (repeat 0x55 90).

(** A payload of 70 000 bytes, below the default [max_message_size]. *)
Definition message_70000 : Message.t :=
  Message.set_payload Message.default (repeat 0 (Z.to_nat 70000)).

(** The segments after the first one, for a payload [P] cut at
    [payload_offset]: CONSECUTIVE segments of [mss] bytes while more than
    [mss] bytes remain, then one LAST segment with the rest. *)
Inductive tail_segments (mss : Z) (P : list Z) (seq : Z) : Z -> list TpSegment -> Prop :=
| tail_last (payload_offset : Z) :
    payload_offset < vsize P -> vsize P - payload_offset <= mss ->
    tail_segments mss P seq payload_offset
      [ mkTpSegment
          (mkTpSegmentHeader (vsize P) payload_offset (vsize P - payload_offset)
             seq LAST_SEGMENT)
          (slice P payload_offset (vsize P)) ]
| tail_consecutive (payload_offset : Z) (rest : list TpSegment) :
    mss < vsize P - payload_offset ->
    tail_segments mss P seq (payload_offset + mss) rest ->
    tail_segments mss P seq payload_offset
      (mkTpSegment
         (mkTpSegmentHeader (vsize P) payload_offset mss seq CONSECUTIVE_SEGMENT)
         (slice P payload_offset (payload_offset + mss))
       :: rest).

(** The first segment of a split message: the 16 header bytes, then the
    first [mss - 16] payload bytes. *)
Definition first_segment (mss : Z) (message : Message.t) (seq : Z) : TpSegment :=
  mkTpSegment
    (mkTpSegmentHeader (vsize (Message.payload_ message)) 0 mss seq FIRST_SEGMENT)
    (firstn 16 (Message.serialize message)
     ++ firstn (Z.to_nat (mss - 16)) (Message.payload_ message)).

(** The single segment of a message that is not split. *)
Definition single_segment (message : Message.t) (seq : Z) : TpSegment :=
  mkTpSegment
    (mkTpSegmentHeader (to_uint32 (vsize (Message.payload_ message))) 0
       (to_uint16 (vsize (Message.serialize message))) seq SINGLE_MESSAGE)
    (Message.serialize message).

(** The payload bytes that [add_segment_to_buffer] copies out of a segment:
    a FIRST or SINGLE segment without its 16 header bytes, any other segment
    whole. *)
Definition carried (s : TpSegment) : list Z :=
  match message_type (header s) with
  | FIRST_SEGMENT | SINGLE_MESSAGE => skipn 16 (payload s)
  | _ => payload s
  end.

(** Byte [j] of the message lies in the range a segment writes. *)
Definition covers (s : TpSegment) (j : nat) : Prop :=
  (Z.to_nat (segment_offset (header s)) <= j
   < Z.to_nat (segment_offset (header s)) + length (carried s))%nat.

Definition covered (l : list TpSegment) (j : nat) : Prop :=
  exists s, s ∈ l /\ covers s j.

(** A CONSECUTIVE or LAST segment of the message with payload [P] sent
    under sequence number [seq]. *)
Definition tail_segment_of (P : list Z) (seq : Z) (s : TpSegment) : Prop :=
  sequence_number (header s) = seq
  /\ message_length (header s) = vsize P
  /\ (message_type (header s) = CONSECUTIVE_SEGMENT
      \/ message_type (header s) = LAST_SEGMENT)
  /\ 0 <= segment_offset (header s)
  /\ segment_length (header s) = vsize (payload s)
  /\ 0 < segment_length (header s) < 65536
  /\ segment_offset (header s) + segment_length (header s) <= vsize P
  /\ payload s
     = slice P (segment_offset (header s))
               (segment_offset (header s) + segment_length (header s)).

(** The reassembly buffer of a message with payload [P] after the segments
    [done] were added: the bits mark the bytes those segments cover, and the
    marked bytes of the data are the bytes of [P]. *)
Definition buffer_tracks (P : list Z) (seq : Z) (done : list TpSegment)
    (b : TpReassemblyBuffer) : Prop :=
  message_id b = seq
  /\ total_length b = vsize P
  /\ length (received_data b) = length P
  /\ length (received_segments b) = length P
  /\ complete b = false
  /\ (forall j : nat,
        received_segments b !! j = Some true <-> (j < length P)%nat /\ covered done j)
  /\ (forall j : nat,
        received_segments b !! j = Some true -> received_data b !! j = P !! j).

(** A reassembler that holds such a buffer under [seq]; [others] are the
    buffers of the other sequence numbers. *)
Definition reassembling (config : TpConfig) (others : gmap Z TpReassemblyBuffer)
    (P : list Z) (seq : Z) (done : list TpSegment) (self : TpReassembler) : Prop :=
  r_config_ self = config
  /\ delete seq (reassembly_buffers_ self) = others
  /\ exists b, reassembly_buffers_ self !! seq = Some b /\ buffer_tracks P seq done b.

(** The buffer that [process_segment] leaves for a FIRST_SEGMENT [s] whose
    sequence number had no buffer. *)
Definition buffer_after_first (s : TpSegment) : TpReassemblyBuffer :=
  let h := header s in
  let bytes := if vsize (payload s) >? 16 then vsize (payload s) - 16 else 0 in
  mkTpReassemblyBuffer (sequence_number h) (message_length h)
    (if vsize (payload s) >? 16
     then copy_at (skipn 16 (payload s)) (replicate (Z.to_nat (message_length h)) 0)
                  (segment_offset h)
     else replicate (Z.to_nat (message_length h)) 0)
    (mark_loop (segment_offset h) (Z.to_nat bytes)
               (replicate (Z.to_nat (message_length h)) false))
    (sequence_number h) false.

(** A valid FIRST_SEGMENT of 32 bytes for sequence number [seq]. *)
Definition first_of (seq : Z) : TpSegment :=
  mkTpSegment (mkTpSegmentHeader 100 0 32 seq FIRST_SEGMENT) (repeat 0 32).

(** A reassembler with the default configuration (at most 10 concurrent
    transfers) that has received the first segment of ten messages. *)
Definition ten_in_flight : TpReassembler :=
  snd (fst (feed (TpReassembler_make TpConfig_default)
                 (map first_of [0; 1; 2; 3; 4; 5; 6; 7; 8; 9]) [])).

(** The four segments of scenario S3 and the order of scenario S4. *)
Definition segments_350 : list TpSegment :=
  match segment_message 8 (mkTpSegmenter config_100 0) message_350 [] with
  | Some (_, _, segments) => segments
  | None => []
  end.

Definition last_first_order (l : list TpSegment) : list TpSegment :=
  match l with
  | [first; consecutive1; consecutive2; last] => [last; consecutive2; first; consecutive1]
  | _ => l
  end.

End TpInputs.

Section WriterInputs.
Import Wire.

(** A reader at [position] over the bytes a writer has produced, followed
    by the bytes [rest]. *)
Definition written (s : Serializer.t) (rest : list Z) (position : Z) : Deserializer.t :=
  Deserializer.mk (Serializer.buffer_ s ++ rest) position.

End WriterInputs.

Section SdInputs.
Import Wire Sd.

(** What [EventGroupEntry::deserialize] reads back from the sixteen bytes
    that [EventGroupEntry::serialize] wrote for [e]: the writer puts the
    service id at bytes 4-5, the reader takes it from bytes 5-6, and so on. *)
Definition read_back (e : EventGroupEntry) : EventGroupEntry :=
  mkEventGroupEntry (eg_base e)
    (eg_service_id_ e mod 256 * 256 + eg_instance_id_ e / 256)
    (eg_instance_id_ e mod 256 * 256 + eg_major_version_ e)
    (eg_eventgroup_id_ e)
    0.

(** The members of an eventgroup entry are within the ranges of their
    types, and its type is one of the two that the decoder takes for an
    eventgroup entry. *)
Definition eventgroup_entry_ok (e : EventGroupEntry) : Prop :=
  (type_ (eg_base e) = SUBSCRIBE_EVENTGROUP \/ type_ (eg_base e) = SUBSCRIBE_EVENTGROUP_ACK)
  /\ is_uint8 (index1_ (eg_base e)) /\ is_uint8 (index2_ (eg_base e))
  /\ is_uint32 (ttl_ (eg_base e))
  /\ is_uint16 (eg_service_id_ e) /\ is_uint16 (eg_instance_id_ e)
  /\ is_uint16 (eg_eventgroup_id_ e) /\ is_uint8 (eg_major_version_ e).

(** A message that holds two SUBSCRIBE_EVENTGROUP entries and no option. *)
Definition two_subscriptions : SdMessage :=
  add_entry (add_entry (mkSdMessage 0x80 0 [] []) (EventGroup subscribe))
    (EventGroup
       (mkEventGroupEntry (mkSdEntry SUBSCRIBE_EVENTGROUP_ACK 0 0 5) 0x1111 0x2222 7 1)).

(** An endpoint option 192.168.0.1:30490 over UDP and a multicast option. *)
Definition endpoint_option : SdOptions.IPv4EndpointOption :=
  SdOptions.mkIPv4EndpointOption (SdOptions.mkSdOption IPV4_ENDPOINT 0)
    0x11 0xC0A80001 30490.

Definition multicast_option : SdOptions.IPv4MulticastOption :=
  SdOptions.mkIPv4MulticastOption (SdOptions.mkSdOption IPV4_MULTICAST 0)
    0xEF767A45 30490.

End SdInputs.

Section ReassemblerInputs.
Import Wire Tp.

(** The header fields of a segment are values of their unsigned types. *)
Definition header_in_range (s : TpSegment) : Prop :=
  is_uint32 (message_length (header s))
  /\ is_uint16 (segment_offset (header s))
  /\ is_uint16 (segment_length (header s))
  /\ is_uint8 (sequence_number (header s)).

(** Every buffer of the reassembler is stored under its own [message_id],
    and its data vector has the announced length: what holds for the
    buffers that [find_or_create_buffer] makes. *)
Definition buffers_consistent (self : TpReassembler) : Prop :=
  forall (key : Z) (b : TpReassemblyBuffer),
    reassembly_buffers_ self !! key = Some b ->
    message_id b = key /\ vsize (received_data b) = total_length b.

(** A FIRST_SEGMENT without any byte that announces a message of five
    bytes. *)
Definition empty_first_segment : TpSegment :=
  mkTpSegment (mkTpSegmentHeader 5 0 0 3 FIRST_SEGMENT) [].

End ReassemblerInputs.

Section ReassemblerSteps.
Import Wire Tp.

(** The buffer that [process_segment] works on: the one stored under the
    sequence number of the segment, or a new one for a FIRST_SEGMENT or a
    SINGLE_MESSAGE segment. *)
Definition buffer_for (self : TpReassembler) (s : TpSegment) : option TpReassemblyBuffer :=
  match reassembly_buffers_ self !! sequence_number (header s) with
  | Some b => Some b
  | None =>
      match message_type (header s) with
      | FIRST_SEGMENT | SINGLE_MESSAGE =>
          Some (TpReassemblyBuffer_make (sequence_number (header s))
                                        (message_length (header s)))
      | _ => None
      end
  end.

End ReassemblerSteps.

Section ManagerInputs.
Import Wire Tp TpOps.

(** The configuration of scenario S3 with room for one transfer only. *)
Definition one_transfer : TpConfig := mkTpConfig 100 1000000 3 500 5000 1 true.

(** A manager with that configuration after it has registered the message
    of 350 bytes, and the transfer it holds under id 1. *)
Definition sending_350 : TpManager :=
  match manager_segment_message 400 (TpManager_make one_transfer) message_350 0 with
  | Some (_, self, _) => self
  | None => TpManager_make one_transfer
  end.

Definition transfer_350 : TpTransfer := mkTpTransfer 1 0 SENDING segments_350 0 0.

End ManagerInputs.

(* ================================================================== *)
(** * Properties *)
(* ================================================================== *)

(* ------------------------------------------------------------------ *)
(** ** Bit-level facts used by the codecs *)

Lemma testbit_above (v n i : Z) :
  0 <= n -> 0 <= v < 2 ^ n -> n <= i -> Z.testbit v i = false.
Proof.
  intros Hn Hv Hi.
  destruct (Z.eq_dec v 0) as [->|Hne]; [apply Z.bits_0|].
  apply Z.bits_above_log2; [lia|].
  assert (Z.log2 v < n) by (apply Z.log2_lt_pow2; lia).
  lia.
Qed.

Ltac bits_high :=
  repeat match goal with
  | H : 0 <= ?v < 2 ^ ?n |- context [Z.testbit ?v ?i] =>
      rewrite (testbit_above v n i) by lia
  | |- context [Z.testbit ?v ?i] =>
      rewrite (Z.testbit_neg_r v i) by lia
  end.

Ltac bits_done :=
  bits_high;
  repeat match goal with
  | |- context [Z.testbit ?a ?i] => destruct (Z.testbit a i)
  end;
  reflexivity.

Lemma be32_decode_encode (v : Z) :
  0 <= v < 2 ^ 32 ->
  Z.lor (Z.lor (Z.lor (Z.shiftl (Z.land (Z.shiftr v 24) 0xFF) 24)
                      (Z.shiftl (Z.land (Z.shiftr v 16) 0xFF) 16))
               (Z.shiftl (Z.land (Z.shiftr v 8) 0xFF) 8))
        (Z.land v 0xFF) = v.
Proof.
  intros Hv. change 0xFF with (Z.ones 8).
  Z.bitblast; bits_done.
Qed.

Lemma pack16_hi (a b : Z) :
  0 <= a < 2 ^ 16 -> 0 <= b < 2 ^ 16 ->
  (Z.shiftr (Z.lor ((Z.shiftl a 16) mod 2 ^ 32) b) 16) mod 2 ^ 16 = a.
Proof.
  intros Ha Hb.
  rewrite <- !Z.land_ones by lia.
  Z.bitblast; bits_done.
Qed.

Lemma pack16_lo (a b : Z) :
  0 <= a < 2 ^ 16 -> 0 <= b < 2 ^ 16 ->
  (Z.land (Z.lor ((Z.shiftl a 16) mod 2 ^ 32) b) 0xFFFF) mod 2 ^ 16 = b.
Proof.
  intros Ha Hb. change 0xFFFF with (Z.ones 16).
  rewrite <- !Z.land_ones by lia.
  Z.bitblast; bits_done.
Qed.

Lemma pack16_range (a b : Z) :
  0 <= a < 2 ^ 16 -> 0 <= b < 2 ^ 16 ->
  0 <= Z.lor ((Z.shiftl a 16) mod 2 ^ 32) b < 2 ^ 32.
Proof.
  intros Ha Hb.
  assert (H0 : 0 <= Z.lor ((Z.shiftl a 16) mod 2 ^ 32) b).
  { apply Z.lor_nonneg. split; [apply Z.mod_pos_bound|]; lia. }
  split; [exact H0|].
  destruct (Z.eq_dec (Z.lor ((Z.shiftl a 16) mod 2 ^ 32) b) 0) as [->|Hne]; [lia|].
  apply Z.log2_lt_pow2; [lia|].
  rewrite Z.log2_lor by (try apply Z.mod_pos_bound; lia).
  apply Z.max_lub_lt.
  - destruct (Z.eq_dec ((Z.shiftl a 16) mod 2 ^ 32) 0) as [->|Hm]; [reflexivity|].
    apply Z.log2_lt_pow2; [|apply Z.mod_pos_bound; lia].
    pose proof (Z.mod_pos_bound (Z.shiftl a 16) (2 ^ 32)). lia.
  - destruct (Z.eq_dec b 0) as [->|Hb0]; [reflexivity|].
    apply Z.lt_trans with 16; [apply Z.log2_lt_pow2; lia | lia].
Qed.

(* ------------------------------------------------------------------ *)
(** ** SOME/IP message codec *)


(** Closed range goals [0 <= c < 2 ^ n], alone and under [Forall]. *)
Ltac in_range := vm_compute; split; [discriminate | reflexivity].

Ltac all_in_range :=
  repeat (apply Forall_cons_2; [in_range|]); apply Forall_nil_2.
Section MessageCodec.
Import Wire Message.

Lemma MessageId_roundtrip (i : MessageId) :
  is_uint16 (service_id i) -> is_uint16 (method_id i) ->
  MessageId_from_uint32 (MessageId_to_uint32 i) = i.
Proof.
  destruct i as [s m]; unfold is_uint16; simpl; intros Hs Hm.
  unfold MessageId_from_uint32, MessageId_to_uint32, to_uint16, to_uint32; simpl.
  now rewrite pack16_hi, pack16_lo.
Qed.

Lemma RequestId_roundtrip (i : RequestId) :
  is_uint16 (client_id i) -> is_uint16 (session_id i) ->
  RequestId_from_uint32 (RequestId_to_uint32 i) = i.
Proof.
  destruct i as [c s]; unfold is_uint16; simpl; intros Hc Hs.
  unfold RequestId_from_uint32, RequestId_to_uint32, to_uint16, to_uint32; simpl.
  now rewrite pack16_hi, pack16_lo.
Qed.

(** The serialized form is sixteen header bytes followed by the payload. *)
Lemma serialize_size (m : t) :
  vsize (serialize m) = HEADER_SIZE + vsize (payload_ m).
Proof.
  unfold serialize, vsize, htonl_bytes, HEADER_SIZE.
  rewrite !length_app. simpl length. lia.
Qed.

Lemma serialize_payload (m : t) :
  skipn 16 (serialize m) = payload_ m.
Proof. reflexivity. Qed.

Lemma serialize_message_id (m : t) :
  is_uint16 (service_id (message_id_ m)) -> is_uint16 (method_id (message_id_ m)) ->
  ntohl_at (serialize m) 0 = MessageId_to_uint32 (message_id_ m).
Proof.
  intros Hs Hm. unfold ntohl_at, at_, serialize, htonl_bytes. simpl.
  apply be32_decode_encode.
  unfold MessageId_to_uint32, to_uint32. apply pack16_range; assumption.
Qed.

Lemma serialize_length_field (m : t) :
  is_uint32 (length_ m) -> ntohl_at (serialize m) 4 = length_ m.
Proof.
  intros Hl. unfold ntohl_at, at_, serialize, htonl_bytes. simpl.
  apply be32_decode_encode. exact Hl.
Qed.

Lemma serialize_request_id (m : t) :
  is_uint16 (client_id (request_id_ m)) -> is_uint16 (session_id (request_id_ m)) ->
  ntohl_at (serialize m) 8 = RequestId_to_uint32 (request_id_ m).
Proof.
  intros Hc Hs. unfold ntohl_at, at_, serialize, htonl_bytes. simpl.
  apply be32_decode_encode.
  unfold RequestId_to_uint32, to_uint32. apply pack16_range; assumption.
Qed.

Lemma serialize_tail_bytes (m : t) :
  at_ (serialize m) 12 = protocol_version_ m
  /\ at_ (serialize m) 13 = interface_version_ m
  /\ at_ (serialize m) 14 = message_type_ m
  /\ at_ (serialize m) 15 = return_code_ m.
Proof. repeat split. Qed.

(** What [is_valid] checks, spelled out on the members. *)
Lemma is_valid_iff (m : t) :
  wf m ->
  is_valid m = true <->
  protocol_version_ m = 1 /\ interface_version_ m = 1
  /\ length_ m = 8 + vsize (payload_ m)
  /\ message_type_known (message_type_ m) = true
  /\ return_code_known (return_code_ m) = true
  /\ vsize (payload_ m) <= 65535.
Proof.
  intros [_ _ Hl _ _ _ _ _ _ _]. unfold is_uint32 in Hl.
  unfold is_valid, has_valid_header, has_valid_payload, to_uint32,
    SOMEIP_PROTOCOL_VERSION, SOMEIP_INTERFACE_VERSION, HEADER_SIZE, MAX_TCP_PAYLOAD_SIZE.
  assert (Hp : 0 <= vsize (payload_ m)) by (unfold vsize; lia).
  split.
  - intros H. apply andb_true_iff in H as [Hh Hpay]. apply Z.leb_le in Hpay.
    destruct (protocol_version_ m =? 1) eqn:E1; [|discriminate].
    destruct (interface_version_ m =? 1) eqn:E2; [|discriminate].
    destruct (_ =? _) eqn:E3 in Hh; [|discriminate].
    destruct (message_type_known _) eqn:E4; [|discriminate].
    destruct (return_code_known _) eqn:E5; [|discriminate].
    apply Z.eqb_eq in E1, E2, E3.
    rewrite (Z.mod_small (16 + _)) in E3 by lia.
    repeat split; try assumption.
    destruct (Z_lt_dec (8 + length_ m) (2 ^ 32)) as [Hlt|Hge].
    + rewrite Z.mod_small in E3 by lia. lia.
    + assert (E : (8 + length_ m) mod 2 ^ 32 = 8 + length_ m - 2 ^ 32).
      { symmetry. apply Z.mod_unique with 1; lia. }
      lia.
  - intros (E1 & E2 & E3 & E4 & E5 & Hpay).
    rewrite E1, E2, E3, E4, E5. simpl.
    replace (8 + (8 + vsize (payload_ m))) with (16 + vsize (payload_ m)) by lia.
    rewrite Z.eqb_refl. simpl. apply Z.leb_le. exact Hpay.
Qed.

Lemma gtb_false (a b : Z) : a <= b -> (a >? b) = false.
Proof. intros H. rewrite Z.gtb_ltb. apply Z.ltb_ge. exact H. Qed.

Lemma at_skipn_header (m : t) :
  skipn (Z.to_nat 16) (serialize m) = payload_ m.
Proof. reflexivity. Qed.

(** C1.  For every valid message [m] (the members within the ranges of their
    C++ types and [is_valid m], that is: length field equal to 8 + payload
    size, protocol and interface version 1, message type and return code in
    their enumerations, payload within the size limit), deserializing
    [serialize m] into any message object succeeds and leaves that object
    equal to [m] in every header field and in the payload. *)
Theorem deserialize_serialize_roundtrip (self m : t) :
  wf m -> is_valid m = true ->
  deserialize self (serialize m) = (true, m).
Proof.
  intros Hwf Hvalid.
  destruct (proj1 (is_valid_iff m Hwf) Hvalid) as (E1 & E2 & E3 & E4 & E5 & E6).
  destruct Hwf as [Hsid Hmid Hlen Hcid Hssid Hpv Hiv Hmt Hrc Hpay].
  assert (Hp : 0 <= vsize (payload_ m)) by (unfold vsize; lia).
  unfold deserialize.
  rewrite serialize_size.
  unfold MIN_MESSAGE_SIZE, HEADER_SIZE.
  rewrite (proj2 (Z.ltb_ge _ _)) by lia.
  cbv zeta.
  change (0 + 4) with 4. change (4 + 4) with 8. change (8 + 4) with 12.
  change (12 + 1) with 13. change (13 + 1) with 14. change (14 + 1) with 15.
  change (15 + 1) with 16.
  rewrite !gtb_false by lia.
  rewrite serialize_message_id, serialize_length_field, serialize_request_id
    by assumption.
  destruct (serialize_tail_bytes m) as (B12 & B13 & B14 & B15).
  rewrite B12, B13, B14, B15, at_skipn_header.
  rewrite MessageId_roundtrip, RequestId_roundtrip by assumption.
  cbn [length_ set_length set_message_id set_request_id set_protocol_version
       set_interface_version set_message_type set_return_code assign_payload
       message_id_ request_id_ protocol_version_
       interface_version_ message_type_ return_code_ payload_].
  rewrite (proj2 (Z.ltb_ge _ _)) by lia.
  replace (16 + vsize (payload_ m) - 16 =? length_ m - 8) with true
    by (symmetry; apply Z.eqb_eq; lia).
  cbn [negb].
  match goal with
  | |- (is_valid ?r, ?r) = _ =>
      replace r with m by (destruct m; reflexivity)
  end.
  rewrite Hvalid. reflexivity.
Qed.

(** The message of scenario S1 round-trips. *)
Lemma deserialize_serialize_roundtrip_witness :
  deserialize default (serialize hello_world) = (true, hello_world).
Proof.
  apply (deserialize_serialize_roundtrip default hello_world).
  - constructor; first [in_range | all_in_range].
  - reflexivity.
Defined.

(** The bytes of scenario S1. *)
Example hello_world_bytes :
  serialize hello_world =
  [ 0x10; 0x00; 0x00; 0x01; 0x00; 0x00; 0x00; 0x0D; 0x12; 0x34; 0x56; 0x78;
    0x01; 0x01; 0x00; 0x00; 0x48; 0x65; 0x6C; 0x6C; 0x6F ].
Proof. reflexivity. Qed.

(** *** The length field on the wire *)

(** C2, counterexample.  [serialize] is a [const] member that writes the
    stored [length_]: with a payload of 100 bytes and the length field set to
    99, bytes 4..8 are the big-endian encoding of 99, not of 108. *)
Lemma serialize_does_not_recompute_length :
  firstn 4 (skipn 4 (serialize stale_length)) = [0; 0; 0; 99]
  /\ htonl_bytes (8 + vsize (payload_ stale_length)) = [0; 0; 0; 108].
Proof. split; reflexivity. Qed.

(** C2, amended.  For every message, bytes 4..8 of [serialize] are the
    big-endian encoding of the stored length field: after [set_payload] that
    is 8 + the payload size (as a [uint32_t]), after [set_length] it is the
    value given, whatever the payload. *)
Theorem serialize_writes_stored_length (m : t) (payload : list Z) (length : Z) :
  firstn 4 (skipn 4 (serialize m)) = htonl_bytes (length_ m)
  /\ firstn 4 (skipn 4 (serialize (set_payload m payload)))
     = htonl_bytes (to_uint32 (8 + vsize payload))
  /\ firstn 4 (skipn 4 (serialize (set_length m length))) = htonl_bytes length.
Proof. repeat split. Qed.

(** *** The payload limit of [is_valid] *)

(** C9, counterexample.  [has_valid_payload] compares with
    [MAX_TCP_PAYLOAD_SIZE = 65535]: a message with valid header and a payload
    of 65 528 bytes is valid. *)
Lemma payload_of_65528_is_valid :
  has_valid_header large_message = true
  /\ vsize (payload_ large_message) = 65528
  /\ is_valid large_message = true.
Proof. vm_compute. repeat split. Qed.

(** C9, amended.  For every message whose header-level invariants hold
    ([has_valid_header]), [is_valid] returns true if and only if the payload
    size is at most 65 535 bytes. *)
Theorem is_valid_payload_limit (m : t) :
  has_valid_header m = true ->
  (is_valid m = true <-> vsize (payload_ m) <= 65535).
Proof.
  intros Hh. unfold is_valid, has_valid_payload, MAX_TCP_PAYLOAD_SIZE.
  rewrite Hh. cbn [andb]. apply Z.leb_le.
Qed.

(** The message with 65 528 payload bytes is within the limit. *)
Lemma is_valid_payload_limit_witness :
  is_valid large_message = true <-> vsize (payload_ large_message) <= 65535.
Proof.
  apply (is_valid_payload_limit large_message).
  vm_compute. reflexivity.
Defined.

End MessageCodec.

(* ------------------------------------------------------------------ *)
(** ** Payload reader: the cursor after a failed read *)

Section Reader.
Import Wire Deserializer.

Lemma read_scalar_failure (s : scalar) (d : t) :
  fst (read_scalar s d) = true -> snd (read_scalar s d) = d.
Proof.
  destruct s; unfold read_scalar, flag, deserialize_bool, deserialize_uint8,
    deserialize_uint16, deserialize_uint32, deserialize_uint64, deserialize_int8,
    deserialize_int16, deserialize_int32, deserialize_int64, deserialize_float,
    deserialize_double, deserialize_uint8, lift, read_be_uint16, read_be_uint32,
    read_be_uint64;
  destruct (_ >? _); cbn [fst snd is_error]; solve [discriminate | reflexivity].
Qed.

Lemma read_scalar_success (s : scalar) (d : t) :
  fst (read_scalar s d) = false ->
  buffer_ (snd (read_scalar s d)) = buffer_ d
  /\ position_ d < position_ (snd (read_scalar s d)) <= vsize (buffer_ d).
Proof.
  destruct s; unfold read_scalar, flag, deserialize_bool, deserialize_uint8,
    deserialize_uint16, deserialize_uint32, deserialize_uint64, deserialize_int8,
    deserialize_int16, deserialize_int32, deserialize_int64, deserialize_float,
    deserialize_double, deserialize_uint8, lift, read_be_uint16, read_be_uint32,
    read_be_uint64;
  destruct (_ >? _) eqn:E; cbn [fst snd is_error advance buffer_ position_];
  try discriminate; intros _; rewrite Z.gtb_ltb in E; apply Z.ltb_ge in E;
  (split; [reflexivity | lia]).
Qed.

(** C10, counterexample.  [deserialize_string] reads the 4-byte length prefix
    through [deserialize_uint32] before it checks that the characters are
    there: on a buffer that ends inside the string it fails with
    [MALFORMED_MESSAGE] and the cursor stands at 4, not at 0. *)
Lemma deserialize_string_failure_moves_cursor :
  get_position truncated_string = 0
  /\ deserialize_string truncated_string
     = (error MALFORMED_MESSAGE, mk [0; 0; 0; 5; 65] 4).
Proof. split; reflexivity. Qed.

(** C10, amended.  For every [Deserializer] state: a scalar read (bool, the
    unsigned and signed integers, float, double) that fails leaves the
    deserializer exactly as it was; [deserialize_string] that fails does so
    with [MALFORMED_MESSAGE], and leaves the cursor where it was when the
    4-byte length prefix could not be read, and 4 bytes further (after the
    prefix) when the prefix was read and the characters are missing. *)
Theorem failed_read_cursor (d : t) (s : scalar) :
  (fst (read_scalar s d) = true -> snd (read_scalar s d) = d)
  /\ (is_error (fst (deserialize_string d)) = true ->
      get_error (fst (deserialize_string d)) = MALFORMED_MESSAGE
      /\ buffer_ (snd (deserialize_string d)) = buffer_ d
      /\ get_position (snd (deserialize_string d))
         = if get_position d + 4 >? vsize (buffer_ d)
           then get_position d else get_position d + 4).
Proof.
  split; [apply read_scalar_failure|].
  unfold deserialize_string, deserialize_uint32, lift, read_be_uint32, get_position.
  destruct (position_ d + 4 >? vsize (buffer_ d)) eqn:E.
  - intros _. repeat split.
  - cbn [advance buffer_ position_].
    destruct (position_ d + 4 + _ >? _); cbn [fst snd is_error get_error buffer_ position_].
    + intros _. repeat split.
    + discriminate.
Qed.

(** A 32-bit read on two bytes, and the string read on the truncated buffer. *)
Lemma failed_read_cursor_witness :
  snd (read_scalar UInt32 (Deserializer.make [1; 2])) = Deserializer.make [1; 2]
  /\ get_position (snd (deserialize_string truncated_string)) = 4.
Proof.
  destruct (failed_read_cursor (Deserializer.make [1; 2]) UInt32) as [Hscalar _].
  destruct (failed_read_cursor truncated_string UInt32) as [_ Hstring].
  split.
  - apply Hscalar. reflexivity.
  - apply Hstring. reflexivity.
Defined.

(** An array read stops at the first element that fails; the elements read
    before it stay consumed. *)
Example deserialize_array_partial :
  deserialize_array deserialize_uint16 2 (Deserializer.make [0; 1; 2])
  = (error MALFORMED_MESSAGE, mk [0; 1; 2] 2).
Proof. reflexivity. Qed.

End Reader.

(* ------------------------------------------------------------------ *)
(** ** Service discovery codec *)

Section SdCodec.
Import Wire Sd.

Lemma ServiceEntry_deserialize_offset (self : ServiceEntry) (data : list Z) (offset : Z)
    (e : ServiceEntry) (offset' : Z) :
  ServiceEntry_deserialize self data offset = (true, e, offset') ->
  offset' = offset + 14.
Proof.
  unfold ServiceEntry_deserialize, SdEntry_deserialize.
  destruct (offset + 16 >? vsize data); [discriminate|].
  destruct (offset + 3 + 2 + 9 >? vsize data); [discriminate|].
  intros H. injection H as _ <-. lia.
Qed.

Lemma EventGroupEntry_deserialize_offset (self : EventGroupEntry) (data : list Z)
    (offset : Z) (e : EventGroupEntry) (offset' : Z) :
  EventGroupEntry_deserialize self data offset = (true, e, offset') ->
  offset' = offset + 16.
Proof.
  unfold EventGroupEntry_deserialize, SdEntry_deserialize.
  destruct (offset + 16 >? vsize data); [discriminate|].
  destruct (offset + 3 + 2 + 11 >? vsize data); [discriminate|].
  intros H. injection H as _ <-. lia.
Qed.

(** The entry loop always ends: every iteration that does not return moves
    [offset] forward, and the loop returns once [offset] has left the data. *)
Lemma deserialize_entries_total (data : list Z) (length : Z) (fuel : nat) :
  forall (self : SdMessage) (offset entries_options_length : Z),
  (1 <= fuel)%nat -> vsize data - offset < Z.of_nat fuel ->
  exists r, deserialize_entries fuel data length self offset entries_options_length = Some r.
Proof.
  induction fuel as [|fuel IH]; intros self offset eol Hfuel Hsize; [lia|].
  cbn [deserialize_entries].
  destruct (negb (eol >? 0)); [eauto|].
  destruct (offset + 1 >? vsize data) eqn:Hend; [eauto|].
  rewrite Z.gtb_ltb in Hend. apply Z.ltb_ge in Hend.
  destruct (_ || _).
  - destruct (ServiceEntry_deserialize _ _ _) as [[[|] e] offset'] eqn:E; [|eauto].
    apply ServiceEntry_deserialize_offset in E. subst offset'.
    apply IH; lia.
  - destruct (_ || _).
    + destruct (EventGroupEntry_deserialize _ _ _) as [[[|] e] offset'] eqn:E; [|eauto].
      apply EventGroupEntry_deserialize_offset in E. subst offset'.
      apply IH; lia.
    + apply IH; lia.
Qed.

Lemma Sd_deserialize_total (self : SdMessage) (data : list Z) :
  exists r, SdMessage_deserialize self data = Some r.
Proof.
  unfold SdMessage_deserialize.
  destruct (vsize data <? 8); [eauto|].
  cbv zeta. destruct (_ >? _); [eauto|].
  apply deserialize_entries_total; unfold vsize; lia.
Qed.

(** *** Entry sizes *)

(** C4.  [SdEntry::serialize] pushes fourteen bytes, [ServiceEntry::serialize]
    overwrites five of them and adds none: a service entry is 14 bytes long
    and ends in the four bytes of [ttl_]; [minor_version_] is not written.
    [EventGroupEntry::serialize] appends the two bytes of the event group id
    and is 16 bytes long. *)
Theorem entry_serialize_sizes (s : ServiceEntry) (g : EventGroupEntry) :
  length (ServiceEntry_serialize s) = 14%nat
  /\ skipn 10 (ServiceEntry_serialize s)
     = [ Z.land (Z.shiftr (ttl_ (se_base s)) 24) 0xFF;
         Z.land (Z.shiftr (ttl_ (se_base s)) 16) 0xFF;
         Z.land (Z.shiftr (ttl_ (se_base s)) 8) 0xFF;
         Z.land (ttl_ (se_base s)) 0xFF ]
  /\ length (EventGroupEntry_serialize g) = 16%nat.
Proof. repeat split. Qed.

Example find_service_bytes :
  ServiceEntry_serialize find_service
  = [0; 0; 0; 0; 0x12; 0x34; 0xFF; 0xFF; 0xFF; 0; 0; 0; 0; 3].
Proof. reflexivity. Qed.

(** The decoder asks for sixteen bytes per entry ([offset + 16 > data.size()]
    in [SdEntry::deserialize]), so the 14-byte entry written by the encoder is
    refused when it is the last thing in the message. *)
Example find_service_does_not_round_trip :
  SdMessage_deserialize SdMessage_default (SdMessage_serialize find_service_message)
  = Some (false, SdMessage_default).
Proof. reflexivity. Qed.

(** *** Unknown entry types *)

(** C8.  On an unknown type code the loop of [SdMessage::deserialize] moves
    the cursor one byte forward and goes on: here it neither fails nor skips
    the 16 bytes of the unknown entry.  It reads the zero bytes inside the
    unknown entry as FIND_SERVICE entries at offsets 9 and 23, returns true
    with those two entries, and never decodes the SUBSCRIBE_EVENTGROUP entry
    at offset 24. *)
Theorem unknown_entry_breaks_framing :
  vsize unknown_then_subscribe = 40
  /\ at_ unknown_then_subscribe 8 = 0x02
  /\ SdMessage_deserialize SdMessage_default unknown_then_subscribe
     = Some (true,
             mkSdMessage 0 0
               [ Service (mkServiceEntry (mkSdEntry 0 0 0 0) 0 0 0 0);
                 Service (mkServiceEntry (mkSdEntry 0 6 0 0) 0x1234 0x0001 1 0) ]
               []).
Proof. repeat split. Qed.

(** The step behind it: with an unknown type code at [offset], one iteration
    of the loop is the loop at [offset + 1] with the remaining length
    decremented by one. *)
Lemma unknown_entry_skips_one_byte (fuel : nat) (data : list Z) (length : Z)
    (self : SdMessage) (offset entries_options_length : Z) :
  0 < entries_options_length -> offset + 1 <= vsize data ->
  at_ data offset <> 0x00 -> at_ data offset <> 0x01 ->
  at_ data offset <> 0x06 -> at_ data offset <> 0x07 ->
  deserialize_entries (S fuel) data length self offset entries_options_length
  = deserialize_entries fuel data length self (offset + 1) (entries_options_length - 1).
Proof.
  intros Heol Hsize H0 H1 H6 H7. cbn [deserialize_entries].
  replace (entries_options_length >? 0) with true
    by (symmetry; rewrite Z.gtb_ltb; apply Z.ltb_lt; lia).
  rewrite gtb_false by lia. cbn [negb].
  apply Z.eqb_neq in H0, H1, H6, H7. rewrite H0, H1, H6, H7. reflexivity.
Qed.

End SdCodec.

(* ------------------------------------------------------------------ *)
(** ** Transport protocol: vectors, slices and the coverage bits *)

Section Vectors.
Import Wire Tp.

Lemma vsize_nonneg {A} (v : list A) : 0 <= vsize v.
Proof. unfold vsize. lia. Qed.

Lemma vsize_app {A} (u v : list A) : vsize (u ++ v) = vsize u + vsize v.
Proof. unfold vsize. rewrite length_app. lia. Qed.

Lemma to_uint16_small (x : Z) : 0 <= x < 65536 -> to_uint16 x = x.
Proof. intros H. unfold to_uint16. apply Z.mod_small. lia. Qed.

Lemma to_uint32_small (x : Z) : 0 <= x < 4294967296 -> to_uint32 x = x.
Proof. intros H. unfold to_uint32. apply Z.mod_small. lia. Qed.

Lemma slice_length (src : list Z) (first last : Z) :
  0 <= first <= last -> last <= vsize src ->
  vsize (slice src first last) = last - first.
Proof.
  intros H1 H2. unfold slice, vsize in *.
  rewrite length_take, length_drop. lia.
Qed.

Lemma slice_lookup (src : list Z) (first last : Z) (i : nat) :
  0 <= first <= last -> Z.of_nat i < last - first ->
  slice src first last !! i = src !! (Z.to_nat first + i)%nat.
Proof.
  intros H1 H2. unfold slice.
  rewrite lookup_take_lt by lia. apply lookup_drop.
Qed.

Lemma mark_loop_length (offset : Z) (n : nat) (bits : list bool) :
  length (mark_loop offset n bits) = length bits.
Proof.
  unfold mark_loop. induction n as [|n IH]; [reflexivity|].
  rewrite seq_S, fold_left_app. cbn [fold_left].
  rewrite length_insert. exact IH.
Qed.

Lemma mark_loop_lookup (offset : Z) (n : nat) (bits : list bool) (j : nat) :
  mark_loop offset n bits !! j
  = if decide (Z.to_nat offset <= j < Z.to_nat offset + n)%nat
    then (fun _ => true) <$> bits !! j else bits !! j.
Proof.
  unfold mark_loop. induction n as [|n IH].
  - cbn [seq fold_left]. case_decide; [lia|reflexivity].
  - rewrite seq_S, fold_left_app. cbn [fold_left].
    rewrite list_lookup_insert.
    pose proof (mark_loop_length offset n bits) as Hlen. unfold mark_loop in Hlen.
    rewrite Hlen, IH. cbn [Nat.add].
    repeat case_decide; try lia; try reflexivity.
    + destruct (bits !! j) eqn:E; [reflexivity|].
      apply lookup_ge_None in E. lia.
    + destruct (bits !! j) eqn:E; [|reflexivity].
      apply lookup_lt_Some in E. lia.
Qed.

Lemma received_range_spec (bits : list bool) (offset : Z) (n : nat) :
  forallb (fun i : nat => nth (Z.to_nat offset + i) bits false) (seq 0 n) = true
  <-> forall i : nat, (i < n)%nat -> bits !! (Z.to_nat offset + i)%nat = Some true.
Proof.
  rewrite forallb_forall. split.
  - intros H i Hi. specialize (H i). rewrite in_seq in H.
    specialize (H ltac:(lia)). rewrite nth_lookup in H.
    destruct (bits !! _) as [[|]|]; cbn in H; congruence.
  - intros H i Hi. apply in_seq in Hi. rewrite nth_lookup, H by lia. reflexivity.
Qed.

Lemma all_received_spec (bits : list bool) :
  forallb (fun received : bool => received) bits = true
  <-> forall j : nat, (j < length bits)%nat -> bits !! j = Some true.
Proof.
  rewrite forallb_forall. split.
  - intros H j Hj. destruct (lookup_lt_is_Some_2 bits j Hj) as [b Hb].
    rewrite Hb. f_equal. apply H. apply list_elem_of_In.
    eapply list_elem_of_lookup_2. exact Hb.
  - intros H b Hb. apply list_elem_of_In, list_elem_of_lookup_1 in Hb as [j Hj].
    rewrite H in Hj by (eapply lookup_lt_Some; exact Hj). congruence.
Qed.

Lemma copy_at_length (src dst : list Z) (offset : Z) :
  0 <= offset -> offset + vsize src <= vsize dst ->
  length (copy_at src dst offset) = length dst.
Proof.
  unfold copy_at, vsize. intros H1 H2.
  rewrite !length_app, length_take, length_drop. lia.
Qed.

Lemma copy_at_lookup (src dst : list Z) (offset : Z) (j : nat) :
  0 <= offset -> offset + vsize src <= vsize dst ->
  copy_at src dst offset !! j
  = if decide (Z.to_nat offset <= j < Z.to_nat offset + length src)%nat
    then src !! (j - Z.to_nat offset)%nat else dst !! j.
Proof.
  unfold copy_at, vsize. intros H1 H2.
  case_decide as Hj.
  - rewrite lookup_app_r by (rewrite length_take; lia).
    rewrite length_take. rewrite lookup_app_l by lia. f_equal. lia.
  - destruct (decide (j < Z.to_nat offset)%nat).
    + rewrite lookup_app_l by (rewrite length_take; lia).
      apply lookup_take_lt. lia.
    + rewrite lookup_app_r by (rewrite length_take; lia).
      rewrite length_take.
      rewrite lookup_app_r by lia.
      rewrite lookup_drop. f_equal. lia.
Qed.

End Vectors.

(* ------------------------------------------------------------------ *)
(** ** Transport protocol: the segmenter *)

Section Segmenter.
Import Wire Tp.

Lemma tail_segments_nonempty (mss : Z) (P : list Z) (seq po : Z) (l : list TpSegment) :
  tail_segments mss P seq po l -> l <> [].
Proof. destruct 1; discriminate. Qed.

(** The loop of [create_multi_segments] when the 16-bit [payload_offset] can
    reach the end of the payload: it ends within [vsize payload -
    payload_offset + 1] iterations and appends the tail segments. *)
Lemma subsequent_segments_spec (config : TpConfig) (payload : list Z) (seq : Z)
    (fuel : nat) :
  forall (payload_offset : Z) (acc : list TpSegment),
  1 <= max_segment_size config ->
  vsize payload <= 65535 ->
  0 <= payload_offset <= vsize payload ->
  vsize payload - payload_offset < Z.of_nat fuel ->
  exists tail,
    subsequent_segments fuel config payload (vsize payload) seq payload_offset acc
    = Some (acc ++ tail)
    /\ (payload_offset = vsize payload -> tail = [])
    /\ (payload_offset < vsize payload ->
        tail_segments (max_segment_size config) payload seq payload_offset tail).
Proof.
  induction fuel as [|fuel IH]; intros po acc Hmss HN Hpo Hfuel; [lia|].
  cbn [subsequent_segments].
  destruct (po <? vsize payload) eqn:Hlt; cbn [negb].
  - apply Z.ltb_lt in Hlt.
    rewrite (to_uint32_small (vsize payload - po)) by lia.
    destruct (vsize payload - po <=? max_segment_size config) eqn:Hlast.
    + apply Z.leb_le in Hlast.
      rewrite Z.min_r by lia.
      rewrite (to_uint16_small (vsize payload - po)) by lia.
      replace (po + (vsize payload - po)) with (vsize payload) by lia.
      rewrite (to_uint16_small (vsize payload)) by (pose proof (vsize_nonneg payload); lia).
      destruct (IH (vsize payload)
                  (acc ++ [mkTpSegment
                             (mkTpSegmentHeader (vsize payload) po (vsize payload - po)
                                seq LAST_SEGMENT)
                             (slice payload po (vsize payload))]))
        as (tail & Heq & Hnil & _); try lia.
      rewrite Heq, (Hnil eq_refl), app_nil_r.
      eexists. split; [reflexivity|]. split; [lia|].
      intros _. apply tail_last; lia.
    + apply Z.leb_gt in Hlast.
      rewrite Z.min_l by lia.
      rewrite (to_uint16_small (max_segment_size config)) by lia.
      rewrite (to_uint16_small (po + max_segment_size config)) by lia.
      destruct (IH (po + max_segment_size config)
                  (acc ++ [mkTpSegment
                             (mkTpSegmentHeader (vsize payload) po (max_segment_size config)
                                seq CONSECUTIVE_SEGMENT)
                             (slice payload po (po + max_segment_size config))]))
        as (tail & Heq & _ & Htail); try lia.
      rewrite Heq, <- app_assoc. cbn [app].
      eexists. split; [reflexivity|]. split; [lia|].
      intros _. apply tail_consecutive; [lia|]. apply Htail. lia.
  - apply Z.ltb_ge in Hlt. exists []. rewrite app_nil_r.
    split; [reflexivity|]. split; [reflexivity|]. lia.
Qed.

(** With a payload of 65 536 bytes or more the 16-bit [payload_offset] stays
    below [total_length] whatever is added to it: the loop never ends. *)
Lemma subsequent_segments_diverges (config : TpConfig) (payload : list Z)
    (total_length seq : Z) (fuel : nat) :
  forall (payload_offset : Z) (acc : list TpSegment),
  65536 <= total_length ->
  0 <= payload_offset < 65536 ->
  subsequent_segments fuel config payload total_length seq payload_offset acc = None.
Proof.
  induction fuel as [|fuel IH]; intros po acc HN Hpo; [reflexivity|].
  cbn [subsequent_segments].
  replace (po <? total_length) with true by (symmetry; apply Z.ltb_lt; lia).
  cbn [negb]. apply IH; [exact HN|].
  unfold to_uint16. apply Z.mod_pos_bound. lia.
Qed.

Lemma create_multi_segments_diverges (fuel : nat) (self : TpSegmenter)
    (message : Message.t) (payload : list Z) (segments : list TpSegment) :
  65536 <= vsize payload < 4294967296 ->
  create_multi_segments fuel self message payload segments = None.
Proof.
  intros HN. unfold create_multi_segments. cbv zeta.
  rewrite subsequent_segments_diverges; [reflexivity| |].
  - rewrite to_uint32_small; lia.
  - unfold to_uint16. apply Z.mod_pos_bound. lia.
Qed.

Lemma segment_message_diverges (fuel : nat) (self : TpSegmenter)
    (message : Message.t) (segments : list TpSegment) :
  65536 <= vsize (Message.payload_ message) < 4294967296 ->
  vsize (Message.payload_ message) <= max_message_size (config_ self) ->
  max_segment_size (config_ self) < vsize (Message.payload_ message) ->
  segment_message fuel self message segments = None.
Proof.
  intros HN Hmax Hmss. unfold segment_message. cbv zeta.
  rewrite gtb_false by lia.
  replace (_ <=? _) with false by (symmetry; apply Z.leb_gt; lia).
  apply create_multi_segments_diverges. exact HN.
Qed.

(** [create_multi_segments] on a payload that 16-bit offsets can address, with
    room for the header in the first segment. *)
Lemma create_multi_segments_spec (fuel : nat) (self : TpSegmenter)
    (message : Message.t) (segments : list TpSegment) :
  let P := Message.payload_ message in
  let mss := max_segment_size (config_ self) in
  let seq := next_sequence_number_ self in
  16 <= mss -> mss < vsize P <= 65535 -> vsize P < Z.of_nat fuel ->
  exists tail,
    create_multi_segments fuel self message P segments
    = Some (SUCCESS,
            mkTpSegmenter (config_ self) (to_uint8 ((to_uint8 (seq + 1) + 1) mod 256)),
            segments ++ first_segment mss message seq :: tail)
    /\ tail_segments mss P seq (mss - 16) tail.
Proof.
  intros P mss seq Hmss HN Hfuel.
  unfold create_multi_segments. cbv zeta.
  cbn [config_ next_sequence_number_]. fold P mss seq.
  rewrite (to_uint32_small (vsize P)) by lia.
  rewrite (to_uint32_small (mss - 16)) by lia.
  rewrite Z.min_l by lia.
  rewrite (to_uint16_small (mss - 16)) by lia.
  assert (Hser : vsize (Message.serialize message) = 16 + vsize P)
    by apply serialize_size.
  rewrite resize_le by (unfold vsize in Hser; lia).
  assert (Hhdr : vsize (firstn 16 (Message.serialize message)
                        ++ firstn (Z.to_nat (mss - 16)) P) = mss).
  { unfold vsize in *. rewrite length_app, !length_take. lia. }
  rewrite Hhdr, (to_uint16_small mss) by lia.
  destruct (subsequent_segments_spec (config_ self) P seq fuel (mss - 16)
              (segments ++ [first_segment mss message seq]))
    as (tail & Heq & _ & Htail); try (fold mss; lia).
  unfold first_segment in Heq. fold P in Heq. rewrite Heq.
  exists tail. split.
  - rewrite <- app_assoc. reflexivity.
  - apply Htail. lia.
Qed.

(** What [segment_message] returns on a message it splits. *)
Lemma segment_message_split (fuel : nat) (self : TpSegmenter)
    (message : Message.t) (segments : list TpSegment) :
  let P := Message.payload_ message in
  let mss := max_segment_size (config_ self) in
  let seq := next_sequence_number_ self in
  16 <= mss -> mss < vsize P <= 65535 ->
  vsize P <= max_message_size (config_ self) ->
  vsize P < Z.of_nat fuel ->
  exists tail,
    segment_message fuel self message segments
    = Some (SUCCESS,
            mkTpSegmenter (config_ self) (to_uint8 ((to_uint8 (seq + 1) + 1) mod 256)),
            segments ++ first_segment mss message seq :: tail)
    /\ tail_segments mss P seq (mss - 16) tail.
Proof.
  intros P mss seq Hmss HN Hmax Hfuel.
  unfold segment_message. cbv zeta. fold P mss.
  rewrite gtb_false by lia.
  replace (vsize P <=? mss) with false by (symmetry; apply Z.leb_gt; lia).
  apply create_multi_segments_spec; assumption.
Qed.

(** What [segment_message] returns on a message it does not split: the test
    is on the payload size, not on the size of the serialized message. *)
Lemma segment_message_single (fuel : nat) (self : TpSegmenter)
    (message : Message.t) (segments : list TpSegment) :
  let P := Message.payload_ message in
  vsize P <= max_message_size (config_ self) ->
  vsize P <= max_segment_size (config_ self) ->
  segment_message fuel self message segments
  = Some (SUCCESS,
          mkTpSegmenter (config_ self) (to_uint8 (next_sequence_number_ self + 1)),
          segments ++ [single_segment message (next_sequence_number_ self)]).
Proof.
  intros P Hmax Hmss. unfold segment_message. cbv zeta. fold P.
  rewrite gtb_false by lia.
  replace (vsize P <=? _) with true by (symmetry; apply Z.leb_le; lia).
  reflexivity.
Qed.

(** C6.  With [max_segment_size = 100] and a payload of 90 bytes the
    serialized message has 106 bytes, more than one segment may carry, and
    [TpManager::needs_segmentation] says so; [segment_message] compares the
    payload size with [max_segment_size] and emits one SINGLE_MESSAGE segment
    of 106 bytes. *)
Theorem single_segment_larger_than_max_segment_size (fuel : nat) :
  vsize (Message.serialize message_90) = 106
  /\ needs_segmentation (TpManager_make config_100) message_90 = true
  /\ segment_message fuel (mkTpSegmenter config_100 0) message_90 []
     = Some (SUCCESS, mkTpSegmenter config_100 1,
             [ mkTpSegment (mkTpSegmentHeader 90 0 106 0 SINGLE_MESSAGE)
                           (Message.serialize message_90) ]).
Proof. repeat split. Qed.

(** C7.  With the default configuration and a payload of 70 000 bytes
    [segment_message] enters [create_multi_segments], whose 16-bit
    [payload_offset] wraps around before it reaches [total_length]: no
    number of loop iterations ends the call, so no LAST_SEGMENT closes the
    output. *)
Theorem segment_message_70000_never_returns (fuel : nat) :
  segment_message fuel (mkTpSegmenter TpConfig_default 0) message_70000 [] = None.
Proof.
  assert (HN : vsize (Message.payload_ message_70000) = 70000)
    by (vm_compute; reflexivity).
  apply segment_message_diverges; rewrite HN; cbn; lia.
Qed.

(** The output of [segment_message] for a message that is split, when the
    payload is short enough for 16-bit offsets: with [max_segment_size] at
    least 16 and less than the payload size N <= 65 535 (N within
    [max_message_size]), any number of loop iterations above N ends the call
    with SUCCESS; appended to [segments] are one FIRST_SEGMENT (header and
    first [max_segment_size - 16] payload bytes, offset 0, message length N),
    then CONSECUTIVE segments of [max_segment_size] bytes at the offset of the
    bytes already sent while more than that remain, then one LAST_SEGMENT
    with the remaining 1..[max_segment_size] bytes, all under one sequence
    number; the counter moves on by two. *)
Theorem split_message_structure (fuel : nat) (self : TpSegmenter)
    (message : Message.t) (segments : list TpSegment) :
  16 <= max_segment_size (config_ self) ->
  max_segment_size (config_ self) < vsize (Message.payload_ message) <= 65535 ->
  vsize (Message.payload_ message) <= max_message_size (config_ self) ->
  vsize (Message.payload_ message) < Z.of_nat fuel ->
  exists tail,
    segment_message fuel self message segments
    = Some (SUCCESS,
            mkTpSegmenter (config_ self)
              (to_uint8 ((to_uint8 (next_sequence_number_ self + 1) + 1) mod 256)),
            segments
            ++ first_segment (max_segment_size (config_ self)) message
                             (next_sequence_number_ self)
               :: tail)
    /\ tail_segments (max_segment_size (config_ self)) (Message.payload_ message)
         (next_sequence_number_ self) (max_segment_size (config_ self) - 16) tail.
Proof. exact (segment_message_split fuel self message segments). Qed.

(** Scenario S3: [max_segment_size = 100] and 350 payload bytes. *)
Lemma split_message_structure_witness :
  exists tail,
    segment_message 400 (mkTpSegmenter config_100 0) message_350 []
    = Some (SUCCESS, mkTpSegmenter config_100 2,
            [] ++ first_segment 100 message_350 0 :: tail)
    /\ tail_segments 100 (Message.payload_ message_350) 0 (100 - 16) tail.
Proof.
  apply (split_message_structure 400 (mkTpSegmenter config_100 0) message_350 []).
  - vm_compute. discriminate.
  - vm_compute. split; [reflexivity | discriminate].
  - vm_compute. discriminate.
  - vm_compute. reflexivity.
Defined.

Example segments_350_shape :
  map (fun s => (message_type (header s), segment_offset (header s), vsize (carried s)))
      segments_350
  = [ (FIRST_SEGMENT, 0, 84); (CONSECUTIVE_SEGMENT, 84, 100);
      (CONSECUTIVE_SEGMENT, 184, 100); (LAST_SEGMENT, 284, 66) ].
Proof. reflexivity. Qed.

(** The bound [max_concurrent_transfers] is checked where outgoing transfers
    are registered: [TpManager::segment_message]. *)
Lemma manager_segment_message_capacity (fuel : nat) (self : TpManager)
    (message : Message.t) (transfer_id : Z) :
  max_concurrent_transfers (m_config_ self) <= Z.of_nat (size (active_transfers_ self)) ->
  manager_segment_message fuel self message transfer_id
  = Some (RESOURCE_EXHAUSTED, self, transfer_id).
Proof.
  intros H. unfold manager_segment_message.
  replace (_ >=? _) with true by (symmetry; apply Z.geb_le; lia).
  reflexivity.
Qed.

End Segmenter.

(* ------------------------------------------------------------------ *)
(** ** Transport protocol: the reassembler *)

Section Reassembler.
Import Wire Tp.

(** *** A first segment with a new sequence number *)

Lemma forallb_received_false (bits : list bool) (j : nat) :
  bits !! j = Some false -> forallb (fun received : bool => received) bits = false.
Proof.
  intros Hj. destruct (forallb _ bits) eqn:E; [|reflexivity].
  rewrite all_received_spec in E.
  rewrite E in Hj by (eapply lookup_lt_Some; exact Hj). discriminate.
Qed.

Lemma forallb_received_witness (bits : list bool) :
  forallb (fun received : bool => received) bits = false ->
  exists j : nat, bits !! j = Some false.
Proof.
  induction bits as [|b bits IH]; cbn [forallb]; [discriminate|].
  destruct b; cbn [andb].
  - intros H. destruct (IH H) as [j Hj]. exists (S j). exact Hj.
  - intros _. exists 0%nat. reflexivity.
Qed.

Lemma is_segment_received_empty (b : TpReassemblyBuffer) (offset length : Z) :
  received_segments b = [] -> 0 < length ->
  is_segment_received b offset length = false.
Proof.
  intros Hb Hl. unfold is_segment_received. rewrite Hb.
  destruct (Z.to_nat length) as [|n] eqn:E; [lia|].
  cbn [seq forallb]. rewrite nth_lookup. reflexivity.
Qed.

Lemma buffer_after_first_incomplete (s : TpSegment) :
  0 <= segment_offset (header s) ->
  0 < segment_length (header s) ->
  segment_length (header s) = vsize (payload s) ->
  segment_offset (header s) + segment_length (header s) <= message_length (header s) ->
  is_complete (buffer_after_first s) = false.
Proof.
  intros Hoff Hlen Hsl Hbound. unfold is_complete, buffer_after_first.
  cbn [complete received_segments].
  apply forallb_received_false with (j := Z.to_nat (message_length (header s) - 1)).
  rewrite mark_loop_lookup.
  destruct (vsize (payload s) >? 16) eqn:Hbig.
  - rewrite Z.gtb_ltb in Hbig. apply Z.ltb_lt in Hbig.
    case_decide; [lia|]. apply lookup_replicate_2. lia.
  - case_decide; [lia|]. apply lookup_replicate_2. lia.
Qed.

Lemma validate_segment_true (self : TpReassembler) (s : TpSegment) :
  validate_segment self s = true ->
  segment_length (header s) = vsize (payload s)
  /\ message_length (header s) <= max_message_size (r_config_ self)
  /\ segment_offset (header s) + segment_length (header s) <= message_length (header s).
Proof.
  unfold validate_segment.
  destruct (segment_length (header s) =? vsize (payload s)) eqn:E1;
    cbn [negb]; [|discriminate].
  destruct (message_length (header s) >? max_message_size (r_config_ self)) eqn:E2;
    [discriminate|].
  destruct (segment_offset (header s) + segment_length (header s)
            >? message_length (header s)) eqn:E3; [discriminate|].
  intros _. apply Z.eqb_eq in E1.
  rewrite Z.gtb_ltb in E2. rewrite Z.gtb_ltb in E3.
  apply Z.ltb_ge in E2. apply Z.ltb_ge in E3. auto.
Qed.

Lemma process_first_segment_new (self : TpReassembler) (s : TpSegment)
    (complete_message : list Z) :
  validate_segment self s = true ->
  message_type (header s) = FIRST_SEGMENT ->
  reassembly_buffers_ self !! sequence_number (header s) = None ->
  0 <= segment_offset (header s) ->
  0 < segment_length (header s) < 65536 ->
  process_segment self s complete_message
  = (true,
     mkTpReassembler (r_config_ self)
       (<[sequence_number (header s) := buffer_after_first s]> (reassembly_buffers_ self)),
     complete_message).
Proof.
  intros Hvalid Hty Hnew Hoff Hlen.
  destruct (validate_segment_true _ _ Hvalid) as (Hsl & Hmax & Hbound).
  unfold process_segment. rewrite Hvalid. cbn [negb].
  unfold find_or_create_buffer. rewrite Hnew, Hty.
  cbn [reassembly_buffers_ r_config_]. rewrite lookup_insert_eq.
  unfold add_segment_to_buffer.
  rewrite is_segment_received_empty by (reflexivity || lia).
  cbn [TpReassemblyBuffer_make total_length].
  rewrite gtb_false by lia. rewrite Hty.
  assert (Hbits : (if vsize (@nil bool) <? message_length (header s)
                   then resize (Z.to_nat (message_length (header s))) false []
                   else [])
                  = replicate (Z.to_nat (message_length (header s))) false).
  { replace (vsize (@nil bool) <? message_length (header s)) with true
      by (symmetry; apply Z.ltb_lt; unfold vsize; cbn; lia).
    apply resize_nil. }
  pose proof (buffer_after_first_incomplete s Hoff (proj1 Hlen) Hsl Hbound) as Hinc.
  unfold buffer_after_first in *. cbv zeta in Hinc.
  destruct (vsize (payload s) >? 16) eqn:Hbig;
    unfold mark_segment_received, set_received_data, TpReassemblyBuffer_make;
    cbn [received_segments total_length message_id received_data
         last_sequence_number complete];
    rewrite Hbits, to_uint16_small by
      (try (rewrite Z.gtb_ltb in Hbig; apply Z.ltb_lt in Hbig); lia);
    change (Z.to_nat 16) with 16%nat;
    rewrite Hinc; cbn [andb]; rewrite insert_insert_eq; reflexivity.
Qed.


(** *** The keys of the buffer table *)

(** A segment that is not valid, or has no buffer and does not open one,
    leaves the table alone; any other call changes the entry of its own
    sequence number only. *)
Lemma process_segment_keys (self : TpReassembler) (s : TpSegment)
    (complete_message : list Z) (key : Z) :
  is_reassembling (snd (fst (process_segment self s complete_message))) key = true ->
  key = sequence_number (header s) \/ is_reassembling self key = true.
Proof.
  unfold is_reassembling. rewrite !bool_decide_eq_true.
  unfold process_segment.
  destruct (negb (validate_segment self s)); [now right|].
  unfold find_or_create_buffer.
  destruct (decide (key = sequence_number (header s))) as [->|Hne]; [now left|].
  intros H. right. revert H.
  destruct (reassembly_buffers_ self !! sequence_number (header s)) as [b0|] eqn:E.
  - cbn [reassembly_buffers_ r_config_]. rewrite E.
    destruct (add_segment_to_buffer b0 s) as [added b].
    destruct (added && is_complete b); cbn [fst snd reassembly_buffers_].
    + intros [x Hx]. apply lookup_delete_Some in Hx as [_ Hx].
      rewrite lookup_insert_ne in Hx by congruence.
      rewrite lookup_insert_ne in Hx by congruence. eauto.
    + rewrite lookup_insert_ne by congruence. auto.
  - destruct (message_type (header s)); cbn [fst snd reassembly_buffers_ r_config_];
      try (intros H; exact H);
      rewrite lookup_insert_eq;
      destruct (add_segment_to_buffer _ s) as [added b];
      (destruct (added && is_complete b); cbn [fst snd reassembly_buffers_]);
      [ intros [x Hx]; apply lookup_delete_Some in Hx as [_ Hx];
        rewrite !lookup_insert_ne in Hx by congruence; eauto
      | rewrite !lookup_insert_ne by congruence; auto
      | intros [x Hx]; apply lookup_delete_Some in Hx as [_ Hx];
        rewrite !lookup_insert_ne in Hx by congruence; eauto
      | rewrite !lookup_insert_ne by congruence; auto ].
Qed.

(** A table whose keys are values of [uint8_t] has at most 256 entries. *)
Lemma uint8_keys_bound (self : TpReassembler) :
  (forall key : Z, is_reassembling self key = true -> is_uint8 key) ->
  get_active_reassemblies self <= 256.
Proof.
  intros Hkeys. unfold get_active_reassemblies.
  assert (Hsub : dom (reassembly_buffers_ self) ⊆ (list_to_set (seqZ 0 256) : gset Z)).
  { intros key Hk. apply elem_of_dom in Hk.
    apply elem_of_list_to_set, elem_of_seqZ.
    assert (Hr : is_uint8 key)
      by (apply Hkeys; unfold is_reassembling; now apply bool_decide_eq_true).
    unfold is_uint8 in Hr. lia. }
  apply subseteq_size in Hsub. rewrite size_dom in Hsub.
  rewrite size_list_to_set in Hsub by apply NoDup_seqZ.
  rewrite length_seqZ in Hsub. lia.
Qed.

(** C5, amended.  For every reassembler state, whatever the number of
    buffers it holds and whatever [max_concurrent_transfers] is, a call to
    [process_segment] with a valid FIRST_SEGMENT (non-empty, offset and
    length within their 16-bit types) of a sequence number that has no buffer
    succeeds, leaves [complete_message] alone and creates one more buffer,
    kept under that sequence number.  What bounds the number of buffers is
    the type of the sequence number: buffers are kept under the sequence
    number of their segments, a [uint8_t], so whatever segment is processed,
    a table whose keys are such values stays one, and it never holds more
    than 256 buffers. *)
Theorem first_segment_creates_buffer (self : TpReassembler) (s : TpSegment)
    (complete_message : list Z) :
  validate_segment self s = true ->
  message_type (header s) = FIRST_SEGMENT ->
  is_reassembling self (sequence_number (header s)) = false ->
  0 <= segment_offset (header s) ->
  0 < segment_length (header s) < 65536 ->
  (exists self',
     process_segment self s complete_message = (true, self', complete_message)
     /\ get_active_reassemblies self' = get_active_reassemblies self + 1
     /\ is_reassembling self' (sequence_number (header s)) = true)
  /\ forall (r : TpReassembler) (segment : TpSegment) (out : list Z),
       (forall key : Z, is_reassembling r key = true -> is_uint8 key) ->
       is_uint8 (sequence_number (header segment)) ->
       let r' := snd (fst (process_segment r segment out)) in
       (forall key : Z, is_reassembling r' key = true -> is_uint8 key)
       /\ get_active_reassemblies r' <= 256.
Proof.
  intros Hvalid Hty Hnew Hoff Hlen. split.
  - assert (Hnone : reassembly_buffers_ self !! sequence_number (header s) = None).
    { unfold is_reassembling in Hnew. apply bool_decide_eq_false in Hnew.
      destruct (reassembly_buffers_ self !! _) eqn:E; [|reflexivity].
      exfalso. apply Hnew. eauto. }
    eexists. split; [apply process_first_segment_new; assumption|].
    unfold get_active_reassemblies, is_reassembling. cbn [reassembly_buffers_].
    split.
    + rewrite map_size_insert_None by exact Hnone. lia.
    + apply bool_decide_eq_true. rewrite lookup_insert_eq. eauto.
  - intros r segment out Hkeys Hseq r'.
    assert (Hkeys' : forall key : Z, is_reassembling r' key = true -> is_uint8 key).
    { intros key Hk. apply process_segment_keys in Hk as [-> | Hk];
        [exact Hseq | now apply Hkeys]. }
    split; [exact Hkeys' | now apply uint8_keys_bound].
Qed.

(** The reassembler with ten buffers in flight takes an eleventh. *)
Lemma first_segment_creates_buffer_witness :
  (exists self',
     process_segment ten_in_flight (first_of 10) [] = (true, self', [])
     /\ get_active_reassemblies self' = get_active_reassemblies ten_in_flight + 1
     /\ is_reassembling self' 10 = true)
  /\ forall (r : TpReassembler) (segment : TpSegment) (out : list Z),
       (forall key : Z, is_reassembling r key = true -> is_uint8 key) ->
       is_uint8 (sequence_number (header segment)) ->
       let r' := snd (fst (process_segment r segment out)) in
       (forall key : Z, is_reassembling r' key = true -> is_uint8 key)
       /\ get_active_reassemblies r' <= 256.
Proof.
  apply (first_segment_creates_buffer ten_in_flight (first_of 10) []).
  - vm_compute. reflexivity.
  - reflexivity.
  - vm_compute. reflexivity.
  - cbn. lia.
  - cbn. lia.
Defined.

(** The bound is reached: the first segments of 256 messages, one for each
    sequence number, leave 256 buffers. *)
Lemma all_sequence_numbers_in_flight :
  get_active_reassemblies
    (snd (fst (feed (TpReassembler_make TpConfig_default)
                    (map first_of (seqZ 0 256)) [])))
  = 256.
Proof. vm_compute. reflexivity. Qed.

(** C5, counterexample.  With ten buffers in flight and
    [max_concurrent_transfers = 10], the FIRST_SEGMENT of an eleventh
    sequence number is accepted and an eleventh buffer is created:
    [find_or_create_buffer] does not look at the configuration, and
    [process_segment] returns a [bool], not a [TpResult]. *)
Lemma eleventh_buffer_is_created :
  get_active_reassemblies ten_in_flight = 10
  /\ max_concurrent_transfers (r_config_ ten_in_flight) = 10
  /\ is_reassembling ten_in_flight 10 = false
  /\ fst (fst (process_segment ten_in_flight (first_of 10) [])) = true
  /\ get_active_reassemblies (snd (fst (process_segment ten_in_flight (first_of 10) []))) = 11.
Proof. vm_compute. repeat split. Qed.

(** *** Segments of a message that is being reassembled *)

Lemma covered_cons (s : TpSegment) (l : list TpSegment) (j : nat) :
  covered (s :: l) j <-> covers s j \/ covered l j.
Proof.
  unfold covered. split.
  - intros (s0 & Hin & Hc). apply elem_of_cons in Hin as [->|Hin]; eauto.
  - intros [Hc|(s0 & Hin & Hc)].
    + exists s. split; [apply elem_of_cons; auto | exact Hc].
    + exists s0. split; [apply elem_of_cons; auto | exact Hc].
Qed.

Lemma covered_app (l1 l2 : list TpSegment) (j : nat) :
  covered (l1 ++ l2) j <-> covered l1 j \/ covered l2 j.
Proof.
  unfold covered. split.
  - intros (s0 & Hin & Hc). apply elem_of_app in Hin as [Hin|Hin]; eauto.
  - intros [(s0 & Hin & Hc)|(s0 & Hin & Hc)];
      exists s0; (split; [apply elem_of_app; auto | exact Hc]).
Qed.

Lemma tail_segment_covers (P : list Z) (seq : Z) (s : TpSegment) (j : nat) :
  tail_segment_of P seq s ->
  covers s j
  <-> (Z.to_nat (segment_offset (header s)) <= j
       < Z.to_nat (segment_offset (header s)) + Z.to_nat (segment_length (header s)))%nat.
Proof.
  intros (_ & _ & Hty & _ & Hsl & _ & _ & _).
  unfold covers, carried.
  assert (Hc : length (payload s) = Z.to_nat (segment_length (header s)))
    by (rewrite Hsl; unfold vsize; lia).
  destruct Hty as [-> | ->]; rewrite Hc; reflexivity.
Qed.

(** [add_segment_to_buffer] with a CONSECUTIVE or LAST segment keeps the
    buffer in step with the payload. *)
Lemma add_tail_segment (P : list Z) (seq : Z) (done : list TpSegment)
    (b : TpReassemblyBuffer) (s : TpSegment) :
  buffer_tracks P seq done b -> tail_segment_of P seq s ->
  exists b',
    add_segment_to_buffer b s = (true, b') /\ buffer_tracks P seq (s :: done) b'.
Proof.
  intros Hb Hs.
  pose proof (tail_segment_covers P seq s) as Hcov.
  specialize (fun j => Hcov j Hs).
  destruct Hb as (Hid & Htot & Hdata & Hbits & Hcomplete & Hmark & Hagree).
  destruct Hs as (Hseq & Hml & Hty & Hoff & Hsl & Hlen & Hbound & Hpay).
  unfold add_segment_to_buffer. cbv zeta.
  destruct (is_segment_received b _ _) eqn:Hdup.
  - (* every byte of the segment is marked already *)
    exists b. split; [reflexivity|].
    unfold is_segment_received in Hdup. rewrite received_range_spec in Hdup.
    do 5 (split; [assumption|]). split; [|exact Hagree].
    intros j. split.
    + intros Hj. apply Hmark in Hj as [Hj Hc]. split; [exact Hj|].
      apply covered_cons. right. exact Hc.
    + intros [Hj Hc]. apply covered_cons in Hc as [Hc|Hc].
      * apply Hcov in Hc.
        replace j with (Z.to_nat (segment_offset (header s))
                        + (j - Z.to_nat (segment_offset (header s))))%nat by lia.
        apply Hdup. lia.
      * apply Hmark. auto.
  - rewrite gtb_false by lia.
    assert (Hcopy : 0 <= segment_offset (header s)
                    /\ segment_offset (header s) + vsize (payload s)
                       <= vsize (received_data b)).
    { unfold vsize in *. lia. }
    assert (Hres : (vsize (received_segments b) <? total_length b) = false).
    { apply Z.ltb_ge. unfold vsize in *. lia. }
    assert (Hbranch :
      match message_type (header s) with
      | FIRST_SEGMENT =>
          if vsize (payload s) >? 16 then
            (vsize (payload s) - 16,
             set_received_data b
               (copy_at (skipn (Z.to_nat 16) (payload s)) (received_data b)
                        (segment_offset (header s))))
          else (0, b)
      | SINGLE_MESSAGE =>
          if vsize (payload s) >? 16 then
            (vsize (payload s) - 16,
             set_received_data b
               (copy_at (skipn (Z.to_nat 16) (payload s)) (received_data b) 0))
          else (0, b)
      | _ =>
          (vsize (payload s),
           set_received_data b
             (copy_at (payload s) (received_data b) (segment_offset (header s))))
      end
      = (vsize (payload s),
         set_received_data b
           (copy_at (payload s) (received_data b) (segment_offset (header s))))).
    { destruct Hty as [Hty|Hty]; rewrite Hty; reflexivity. }
    rewrite Hbranch. clear Hbranch.
    eexists. split; [reflexivity|].
    unfold mark_segment_received, set_received_data.
      cbn [message_id total_length received_data received_segments
           last_sequence_number complete].
      rewrite Hres, to_uint16_small by lia.
      assert (Hn : Z.to_nat (vsize (payload s)) = length (payload s))
        by (unfold vsize; lia).
      unfold buffer_tracks.
      cbn [message_id total_length received_data received_segments
           last_sequence_number complete].
      split; [assumption|]. split; [assumption|].
      split; [rewrite copy_at_length by lia; exact Hdata|].
      split; [rewrite mark_loop_length; exact Hbits|].
      split; [assumption|]. split.
      * intros j. rewrite mark_loop_lookup. split.
        -- intros H. assert (Hj : (j < length P)%nat).
           { case_decide as Hr.
             - destruct (received_segments b !! j) eqn:E; [|discriminate].
               apply lookup_lt_Some in E. lia.
             - apply Hmark in H. tauto. }
           split; [exact Hj|]. apply covered_cons. case_decide as Hr.
           ++ left. apply Hcov. lia.
           ++ right. apply Hmark. exact H.
        -- intros [Hj Hc]. apply covered_cons in Hc as [Hc|Hc].
           ++ apply Hcov in Hc. rewrite decide_True by lia.
              destruct (lookup_lt_is_Some_2 (received_segments b) j) as [x ->]; [lia|].
              reflexivity.
           ++ assert (Hold : received_segments b !! j = Some true) by (apply Hmark; auto).
              rewrite Hold. case_decide; reflexivity.
      * intros j. rewrite mark_loop_lookup, copy_at_lookup by lia.
        rewrite Hn. case_decide as Hr.
        -- intros _. rewrite Hpay. rewrite slice_lookup by lia.
           f_equal. lia.
        -- apply Hagree.
Qed.

(** One [process_segment] call with a CONSECUTIVE or LAST segment of a
    message under reassembly: either some byte is still missing and the
    reassembly goes on, or every byte is covered and the call hands out the
    payload and removes the buffer. *)
Lemma process_tail_segment (config : TpConfig) (others : gmap Z TpReassemblyBuffer)
    (P : list Z) (seq : Z) (done : list TpSegment) (self : TpReassembler)
    (s : TpSegment) (complete_message : list Z) :
  reassembling config others P seq done self ->
  tail_segment_of P seq s ->
  vsize P <= max_message_size config ->
  ((exists j : nat, (j < length P)%nat /\ ~ covered (s :: done) j)
   /\ exists self',
        process_segment self s complete_message = (true, self', complete_message)
        /\ reassembling config others P seq (s :: done) self')
  \/ ((forall j : nat, (j < length P)%nat -> covered (s :: done) j)
      /\ process_segment self s complete_message
         = (true, mkTpReassembler config others, P)).
Proof.
  intros (Hcfg & Hothers & b & Hb & Htracks) Hs Hmax.
  destruct (add_tail_segment P seq done b s Htracks Hs)
    as (b' & Hadd & (Hid & Htot & Hdata & Hbits & Hcomplete & Hmark & Hagree)).
  destruct Hs as (Hseq & Hml & Hty & Hoff & Hsl & Hlen & Hbound & Hpay).
  assert (Hvalid : validate_segment self s = true).
  { unfold validate_segment. rewrite Hsl, Z.eqb_refl. cbn [negb].
    rewrite Hml, Hcfg, <- Hsl. rewrite !gtb_false by lia. reflexivity. }
  unfold process_segment. rewrite Hvalid. cbn [negb].
  unfold find_or_create_buffer. rewrite Hseq, Hb, Hb, Hadd.
  cbn [andb reassembly_buffers_ r_config_].
  destruct (is_complete b') eqn:Hc.
  - right.
    unfold is_complete in Hc. rewrite Hcomplete in Hc.
    rewrite all_received_spec, Hbits in Hc.
    split.
    + intros j Hj. apply Hmark. apply Hc. exact Hj.
    + unfold get_complete_message, is_complete. cbn [complete negb received_data message_id].
      rewrite Hid, Hcfg. rewrite !delete_insert_eq, Hothers.
      f_equal. apply list_eq. intros j.
      destruct (decide (j < length P)%nat) as [Hj|Hj].
      * apply Hagree. apply Hc. exact Hj.
      * rewrite !lookup_ge_None_2 by lia. reflexivity.
  - left.
    unfold is_complete in Hc. rewrite Hcomplete in Hc.
    apply forallb_received_witness in Hc as [j Hj].
    split.
    + exists j. split.
      * apply lookup_lt_Some in Hj. lia.
      * intros Hcov. assert (Ht : received_segments b' !! j = Some true).
        { apply Hmark. split; [apply lookup_lt_Some in Hj; lia | exact Hcov]. }
        congruence.
    + eexists. split; [reflexivity|].
      unfold reassembling. cbn [r_config_ reassembly_buffers_].
      split; [exact Hcfg|]. split; [rewrite delete_insert_eq; exact Hothers|].
      exists b'. split; [apply lookup_insert_eq|].
      repeat split; try assumption; apply Hmark; assumption.
Qed.

(** The first segment of a split message opens the reassembly; [hdr] are the
    16 header bytes it starts with. *)
Lemma process_first_segment (self : TpReassembler) (hdr P : list Z)
    (mss seq : Z) (complete_message : list Z) :
  length hdr = 16%nat ->
  16 <= mss -> mss < vsize P -> mss < 65536 ->
  vsize P <= max_message_size (r_config_ self) ->
  reassembly_buffers_ self !! seq = None ->
  let s := mkTpSegment (mkTpSegmentHeader (vsize P) 0 mss seq FIRST_SEGMENT)
                       (hdr ++ firstn (Z.to_nat (mss - 16)) P) in
  exists self',
    process_segment self s complete_message = (true, self', complete_message)
    /\ reassembling (r_config_ self) (reassembly_buffers_ self) P seq [s] self'.
Proof.
  intros Hhead Hmss HN H16 Hmax Hnew s.
  assert (Hpl : vsize (payload s) = mss).
  { unfold vsize in *. cbn [s payload]. rewrite length_app, Hhead, length_take. lia. }
  assert (Hcar : carried s = firstn (Z.to_nat (mss - 16)) P).
  { unfold carried. cbn [s message_type header payload].
    rewrite <- Hhead. apply drop_app_length. }
  assert (Hvalid : validate_segment self s = true).
  { unfold validate_segment. rewrite Hpl.
    cbn [s header segment_length message_length segment_offset].
    rewrite Z.eqb_refl. cbn [negb]. rewrite !gtb_false by lia. reflexivity. }
  assert (Hcover : forall j : nat, covered [s] j <-> (j < Z.to_nat (mss - 16))%nat).
  { intros j. rewrite covered_cons. unfold covers. rewrite Hcar, length_take.
    cbn [s header segment_offset]. unfold covered, vsize in *.
    split.
    - intros [H|(s0 & Hin & _)]; [lia | inversion Hin].
    - intros H. left. lia. }
  assert (Hn : Z.to_nat (if mss >? 16 then mss - 16 else 0) = Z.to_nat (mss - 16)).
  { destruct (mss >? 16) eqn:E; [reflexivity|].
    rewrite Z.gtb_ltb in E. apply Z.ltb_ge in E. lia. }
  assert (Hbits : forall j : nat,
            mark_loop 0 (Z.to_nat (mss - 16))
              (replicate (Z.to_nat (vsize P)) false) !! j = Some true
            <-> (j < length P)%nat /\ (j < Z.to_nat (mss - 16))%nat).
  { intros j. rewrite mark_loop_lookup. unfold vsize in *.
    case_decide as Hr.
    - destruct (decide (j < length P)%nat) as [Hj|Hj].
      + rewrite lookup_replicate_2 by lia. cbn. split; [lia|reflexivity].
      + rewrite (proj2 (lookup_ge_None _ _)) by (rewrite length_replicate; lia).
        cbn. split; [discriminate|lia].
    - split; [|lia]. intros H. apply lookup_replicate in H as [H _]. discriminate. }
  eexists. split.
  { apply process_first_segment_new;
      cbn [s header message_type sequence_number segment_offset segment_length];
      try assumption; try reflexivity; lia. }
  unfold reassembling. cbn [r_config_ reassembly_buffers_ s header sequence_number].
  split; [reflexivity|].
  split; [rewrite delete_insert_eq; apply delete_id; exact Hnew|].
  eexists. split; [apply lookup_insert_eq|].
  assert (Hdrop : drop 16 (hdr ++ firstn (Z.to_nat (mss - 16)) P)
                  = firstn (Z.to_nat (mss - 16)) P).
  { rewrite <- Hhead. apply drop_app_length. }
  unfold buffer_after_first, buffer_tracks. cbv zeta. rewrite Hpl, Hn.
  subst s.
  cbn [header payload message_id total_length received_data received_segments
       complete sequence_number message_length segment_offset].
  rewrite Hdrop.
  split; [reflexivity|]. split; [reflexivity|].
  assert (Hfit : 0 + vsize (firstn (Z.to_nat (mss - 16)) P)
                 <= vsize (replicate (Z.to_nat (vsize P)) 0)).
  { unfold vsize in *. rewrite length_take, length_replicate. lia. }
  split.
  { destruct (mss >? 16).
    - rewrite copy_at_length by (exact Hfit || lia).
      rewrite length_replicate. unfold vsize. lia.
    - rewrite length_replicate. unfold vsize. lia. }
  split; [rewrite mark_loop_length, length_replicate; unfold vsize; lia|].
  split; [reflexivity|]. split.
  - intros j. rewrite Hbits, Hcover. reflexivity.
  - intros j Hj. apply Hbits in Hj as [Hj1 Hj2].
    destruct (mss >? 16) eqn:E.
    + rewrite copy_at_lookup by (exact Hfit || lia).
      rewrite length_take. rewrite decide_True by (unfold vsize in *; lia).
      rewrite lookup_take_lt by lia. f_equal. lia.
    + rewrite Z.gtb_ltb in E. apply Z.ltb_ge in E. lia.
Qed.

(** *** The segments the segmenter cuts *)

Lemma tail_segments_facts (mss : Z) (P : list Z) (seq po : Z) (l : list TpSegment) :
  tail_segments mss P seq po l ->
  1 <= mss -> 0 <= po -> vsize P <= 65535 ->
  Forall (fun s => tail_segment_of P seq s /\ po <= segment_offset (header s)) l
  /\ (forall j : nat, (Z.to_nat po <= j < length P)%nat -> covered l j)
  /\ NoDup l
  /\ (forall r s', r ∈ l -> s' ∈ l ->
        covers s' (Z.to_nat (segment_offset (header r))) -> s' = r).
Proof.
  intros Htail Hmss. induction Htail as [po Hlt Hle | po rest Hgt Hrest IH];
    intros Hpo HN.
  - set (s := mkTpSegment _ _).
    assert (Hs : tail_segment_of P seq s).
    { unfold tail_segment_of. cbn [s header payload sequence_number message_length
        message_type segment_offset segment_length].
      rewrite slice_length by lia.
      replace (po + (vsize P - po)) with (vsize P) by lia.
      repeat split; auto; lia. }
    split; [apply Forall_cons_2; [split; [exact Hs | cbn; lia] | apply Forall_nil_2]|].
    split.
    { intros j Hj. apply covered_cons. left. apply (tail_segment_covers P seq s j Hs).
      cbn [s header segment_offset segment_length]. unfold vsize in *. lia. }
    split; [apply NoDup_singleton|].
    intros r s' Hr Hs' _. apply list_elem_of_singleton in Hr, Hs'. congruence.
  - destruct IH as (Hall & Hcov & Hnodup & Hpriv); [lia | lia |].
    set (s := mkTpSegment _ _).
    assert (Hs : tail_segment_of P seq s).
    { unfold tail_segment_of. cbn [s header payload sequence_number message_length
        message_type segment_offset segment_length].
      rewrite slice_length by lia.
      repeat split; auto; lia. }
    assert (Hfar : forall x, x ∈ rest ->
              tail_segment_of P seq x /\ po + mss <= segment_offset (header x)).
    { intros x Hx. rewrite Forall_forall in Hall. apply Hall. exact Hx. }
    split.
    { apply Forall_cons_2; [split; [exact Hs | cbn; lia]|].
      eapply Forall_impl; [exact Hall|]. cbn. intros x [Hx Hoff]. split; [exact Hx | lia]. }
    split.
    { intros j Hj. apply covered_cons.
      destruct (decide (j < Z.to_nat (po + mss))%nat) as [Hin|Hout].
      - left. apply (tail_segment_covers P seq s j Hs).
        cbn [s header segment_offset segment_length]. lia.
      - right. apply Hcov. lia. }
    split.
    { apply NoDup_cons. split; [|exact Hnodup].
      intros Hin. destruct (Hfar s Hin) as [_ Hoff]. cbn in Hoff. lia. }
    intros r s' Hr Hs'. apply elem_of_cons in Hr, Hs'.
    destruct Hr as [->|Hr], Hs' as [->|Hs']; try reflexivity.
    + intros Hc. destruct (Hfar s' Hs') as [Hs'ok Hoff].
      apply (tail_segment_covers P seq s' _ Hs'ok) in Hc.
      cbn [s header segment_offset] in Hc. lia.
    + intros Hc. destruct (Hfar r Hr) as [Hrok Hoff].
      apply (tail_segment_covers P seq s _ Hs) in Hc.
      cbn [s header segment_offset segment_length] in Hc. lia.
    + apply Hpriv; assumption.
Qed.

(** *** Feeding the remaining segments in any order *)

Lemma feed_cons (self : TpReassembler) (s : TpSegment) (rest : list TpSegment)
    (complete_message : list Z) :
  feed self (s :: rest) complete_message
  = let '(ok, self, complete_message) := process_segment self s complete_message in
    let '(oks, self, complete_message) := feed self rest complete_message in
    (ok && oks, self, complete_message).
Proof. reflexivity. Qed.

Lemma feed_tail (config : TpConfig) (others : gmap Z TpReassemblyBuffer)
    (P : list Z) (seq : Z) (total : list TpSegment) (l : list TpSegment) :
  forall (done : list TpSegment) (self : TpReassembler) (complete_message : list Z),
  reassembling config others P seq done self ->
  vsize P <= max_message_size config ->
  Forall (tail_segment_of P seq) l ->
  l <> [] -> NoDup l ->
  (forall x, x ∈ l -> x ∉ done) ->
  (forall x, x ∈ total <-> x ∈ done \/ x ∈ l) ->
  (forall j : nat, (j < length P)%nat -> covered total j) ->
  (forall r, r ∈ l ->
     exists j : nat, covers r j /\ forall s', s' ∈ total -> covers s' j -> s' = r) ->
  feed self l complete_message = (true, mkTpReassembler config others, P)
  /\ exists mid,
       feed self (removelast l) complete_message = (true, mid, complete_message)
       /\ is_reassembling mid seq = true.
Proof.
  induction l as [|s l IH]; intros done self cm Hre Hmax Hok Hne Hnodup Hfresh
    Hsplit Hall Hpriv; [congruence|].
  apply Forall_cons in Hok as [Hs Hok].
  apply NoDup_cons in Hnodup as [Hsl Hnodup].
  assert (Hcovered : forall j, covered total j <-> covered (s :: done) j \/ covered l j).
  { intros j. rewrite covered_cons. unfold covered. split.
    - intros (x & Hx & Hc). apply Hsplit in Hx as [Hx|Hx].
      + left. right. eauto.
      + apply elem_of_cons in Hx as [->|Hx]; [left; left; exact Hc | right; eauto].
    - intros [[Hc|(x & Hx & Hc)]|(x & Hx & Hc)].
      + exists s. split; [apply Hsplit; right; apply elem_of_cons; auto | exact Hc].
      + exists x. split; [apply Hsplit; auto | exact Hc].
      + exists x. split; [apply Hsplit; right; apply elem_of_cons; auto | exact Hc]. }
  destruct (process_tail_segment config others P seq done self s cm Hre Hs Hmax)
    as [[(j & Hj & Hmiss) (self' & Hstep & Hre')] | [Hfull Hstep]].
  - (* some byte is still missing after [s] *)
    destruct l as [|r l'].
    + (* but [s] is the last segment and everything is covered *)
      exfalso. apply Hmiss. apply Hall in Hj.
      apply Hcovered in Hj as [Hj|(x & Hx & _)]; [exact Hj | inversion Hx].
    + destruct (IH (s :: done) self' cm) as (Hfeed & mid & Hmid & Hact); try assumption.
      * discriminate.
      * intros x Hx Hin. apply elem_of_cons in Hin as [->|Hin].
        -- apply Hsl. exact Hx.
        -- apply (Hfresh x); [apply elem_of_cons; auto | exact Hin].
      * intros x. rewrite Hsplit, !elem_of_cons. tauto.
      * intros x Hx. apply Hpriv. apply elem_of_cons. auto.
      * split.
        -- rewrite feed_cons, Hstep, Hfeed. reflexivity.
        -- exists mid. split; [|exact Hact].
           change (removelast (s :: r :: l')) with (s :: removelast (r :: l')).
           rewrite feed_cons, Hstep, Hmid. reflexivity.
  - (* every byte is covered after [s]: it must be the last segment *)
    destruct l as [|r l'].
    + split.
      * rewrite feed_cons, Hstep. reflexivity.
      * exists self. split; [reflexivity|].
        destruct Hre as (_ & _ & b & Hb & _).
        unfold is_reassembling. apply bool_decide_eq_true. eauto.
    + exfalso.
      destruct (Hpriv r) as (j & Hrj & Hone); [apply elem_of_cons; right; apply elem_of_cons; auto|].
      assert (Hj : (j < length P)%nat).
      { apply Forall_cons in Hok as [Hr _].
        apply (tail_segment_covers P seq r j Hr) in Hrj.
        destruct Hr as (_ & _ & _ & Hoff & _ & Hlen & Hbound & _).
        unfold vsize in Hbound. lia. }
      destruct (Hfull j Hj) as (x & Hx & Hxj).
      assert (x = r).
      { apply Hone; [|exact Hxj]. apply Hsplit.
        apply elem_of_cons in Hx as [->|Hx]; [right; apply elem_of_cons; auto | auto]. }
      subst x. apply elem_of_cons in Hx as [->|Hx].
      * apply Hsl. apply elem_of_cons. auto.
      * apply (Hfresh r); [apply elem_of_cons; right; apply elem_of_cons; auto | exact Hx].
Qed.

(** *** Segmenting, then reassembling *)

Lemma first_segment_covers (hdr P : list Z) (mss seq : Z) (j : nat) :
  length hdr = 16%nat -> 16 <= mss -> mss - 16 <= vsize P ->
  covers (mkTpSegment (mkTpSegmentHeader (vsize P) 0 mss seq FIRST_SEGMENT)
                      (hdr ++ firstn (Z.to_nat (mss - 16)) P)) j
  <-> (j < Z.to_nat (mss - 16))%nat.
Proof.
  intros Hhead Hmss HN. unfold covers, carried.
  cbn [header payload message_type segment_offset].
  rewrite <- Hhead, drop_app_length, length_take. unfold vsize in HN. lia.
Qed.

(** The segment of a message that is not split never passes
    [validate_segment]: its [segment_length] counts the 16 header bytes, its
    [message_length] does not.  ([TpManager::handle_received_segment] hands
    SINGLE_MESSAGE segments out itself and does not call [process_segment].) *)
Theorem single_segment_is_rejected (self : TpReassembler) (message : Message.t)
    (seq : Z) (complete_message : list Z) :
  process_segment self (single_segment message seq) complete_message
  = (false, self, complete_message).
Proof.
  assert (Hvalid : validate_segment self (single_segment message seq) = false).
  { unfold validate_segment, single_segment.
    cbn [header payload segment_length message_length segment_offset].
    pose proof (serialize_size message) as Hser. unfold Message.HEADER_SIZE in Hser.
    pose proof (vsize_nonneg (Message.payload_ message)) as Hp.
    rewrite Hser.
    destruct (Z_lt_dec (16 + vsize (Message.payload_ message)) 65536) as [Hs|Hl].
    - rewrite to_uint16_small, Z.eqb_refl by lia. cbn [negb].
      rewrite to_uint32_small by lia.
      destruct (_ >? _); [reflexivity|].
      replace (0 + (16 + vsize (Message.payload_ message))
               >? vsize (Message.payload_ message)) with true
        by (symmetry; rewrite Z.gtb_ltb; apply Z.ltb_lt; lia).
      reflexivity.
    - replace (to_uint16 (16 + vsize (Message.payload_ message))
               =? 16 + vsize (Message.payload_ message)) with false; [reflexivity|].
      symmetry. apply Z.eqb_neq. unfold to_uint16.
      pose proof (Z.mod_pos_bound (16 + vsize (Message.payload_ message)) (2 ^ 16)).
      lia. }
  unfold process_segment. rewrite Hvalid. reflexivity.
Qed.

(** C3, counterexample (scenario S4).  The four segments of the 350-byte
    message, fed in the order LAST, CONSECUTIVE#2, FIRST, CONSECUTIVE#1:
    [find_or_create_buffer] returns [nullptr] for the LAST and the
    CONSECUTIVE segment that arrive before the FIRST one, so
    [process_segment] returns false for them and drops them; after the final
    feed nothing has been handed out and the buffer is still waiting. *)
Lemma last_first_order_does_not_complete :
  Permutation segments_350 (last_first_order segments_350)
  /\ map (fun s => message_type (header s)) (last_first_order segments_350)
     = [LAST_SEGMENT; CONSECUTIVE_SEGMENT; FIRST_SEGMENT; CONSECUTIVE_SEGMENT]
  /\ fst (fst (feed (TpReassembler_make config_100) (last_first_order segments_350) []))
     = false
  /\ snd (feed (TpReassembler_make config_100) (last_first_order segments_350) []) = []
  /\ is_reassembling
       (snd (fst (feed (TpReassembler_make config_100)
                       (last_first_order segments_350) []))) 0 = true.
Proof.
  split.
  - assert (H : exists f c1 c2 l, segments_350 = [f; c1; c2; l])
      by (vm_compute; eauto).
    destruct H as (f & c1 & c2 & l & ->). cbn [last_first_order].
    rewrite (Permutation_app_comm [f; c1] [c2; l]). cbn [app].
    apply perm_trans with (l' := [l; c2; f; c1]); [apply perm_swap|reflexivity].
  - vm_compute. repeat split.
Qed.

(** *** A later segment without its first segment *)

Lemma segment_without_first_is_dropped (self : TpReassembler) (s : TpSegment)
    (complete_message : list Z) :
  message_type (header s) = CONSECUTIVE_SEGMENT
  \/ message_type (header s) = LAST_SEGMENT ->
  is_reassembling self (sequence_number (header s)) = false ->
  process_segment self s complete_message = (false, self, complete_message).
Proof.
  intros Hty Hnew.
  assert (Hnone : reassembly_buffers_ self !! sequence_number (header s) = None).
  { unfold is_reassembling in Hnew. apply bool_decide_eq_false in Hnew.
    destruct (reassembly_buffers_ self !! _) eqn:E; [|reflexivity].
    exfalso. apply Hnew. eauto. }
  unfold process_segment.
  destruct (negb (validate_segment self s)); [reflexivity|].
  unfold find_or_create_buffer. rewrite Hnone.
  destruct Hty as [-> | ->]; reflexivity.
Qed.

(** C3, amended.  For every message whose payload of size N is split
    ([max_segment_size] at least 16, [max_segment_size] < N <= 65 535, N
    within [max_message_size] on both sides), with enough loop iterations the
    segmenter returns a FIRST segment followed by the rest; feeding the FIRST
    segment and then the rest in any order to a reassembler that has no
    buffer for the sequence number succeeds at every call, hands out nothing
    before the final feed, and on the final feed hands out exactly the
    payload and leaves the reassembler as it was before the first feed.
    Each of the other segments, when it arrives before the FIRST segment, is
    dropped: [process_segment] returns false and changes nothing.  That
    holds for every reassembler and every CONSECUTIVE or LAST segment whose
    sequence number has no buffer. *)
Theorem reassembly_first_then_any_order (fuel : nat) (segmenter : TpSegmenter)
    (message : Message.t) (self : TpReassembler) (complete_message : list Z) :
  16 <= max_segment_size (config_ segmenter) ->
  max_segment_size (config_ segmenter) < vsize (Message.payload_ message) <= 65535 ->
  vsize (Message.payload_ message) <= max_message_size (config_ segmenter) ->
  vsize (Message.payload_ message) <= max_message_size (r_config_ self) ->
  vsize (Message.payload_ message) < Z.of_nat fuel ->
  is_reassembling self (next_sequence_number_ segmenter) = false ->
  (exists segmenter' first rest,
     segment_message fuel segmenter message [] = Some (SUCCESS, segmenter', first :: rest)
     /\ message_type (header first) = FIRST_SEGMENT
     /\ (forall rest', Permutation rest rest' ->
           feed self (first :: rest') complete_message
           = (true, self, Message.payload_ message)
           /\ exists mid,
                feed self (removelast (first :: rest')) complete_message
                = (true, mid, complete_message)
                /\ is_reassembling mid (next_sequence_number_ segmenter) = true)
     /\ Forall (fun s => process_segment self s complete_message
                         = (false, self, complete_message)) rest)
  /\ forall (r : TpReassembler) (s : TpSegment) (out : list Z),
       message_type (header s) = CONSECUTIVE_SEGMENT
       \/ message_type (header s) = LAST_SEGMENT ->
       is_reassembling r (sequence_number (header s)) = false ->
       process_segment r s out = (false, r, out).
Proof.
  intros Hmss HN Hmax Hrmax Hfuel Hnew.
  split; [|intros r s out; apply segment_without_first_is_dropped].
  set (P := Message.payload_ message) in *.
  set (mss := max_segment_size (config_ segmenter)) in *.
  set (seq := next_sequence_number_ segmenter) in *.
  destruct (segment_message_split fuel segmenter message [])
    as (tail & Hsegs & Htail); try assumption.
  fold P mss seq in Hsegs, Htail. cbn [app] in Hsegs.
  set (hdr := firstn 16 (Message.serialize message)).
  assert (Hhead : length hdr = 16%nat).
  { subst hdr. rewrite length_take.
    pose proof (serialize_size message) as Hser. unfold vsize, Message.HEADER_SIZE in Hser.
    lia. }
  set (first := first_segment mss message seq) in *.
  assert (Hfirst : first = mkTpSegment (mkTpSegmentHeader (vsize P) 0 mss seq FIRST_SEGMENT)
                                       (hdr ++ firstn (Z.to_nat (mss - 16)) P))
    by reflexivity.
  destruct (tail_segments_facts mss P seq (mss - 16) tail Htail)
    as (Hall & Hcov & Hnodup & Hpriv); try lia.
  assert (Hnone : reassembly_buffers_ self !! seq = None).
  { unfold is_reassembling in Hnew. apply bool_decide_eq_false in Hnew.
    destruct (reassembly_buffers_ self !! seq) eqn:E; [|reflexivity].
    exfalso. apply Hnew. eauto. }
  destruct (process_first_segment self hdr P mss seq complete_message)
    as (self1 & Hstep & Hre); try assumption; try lia.
  rewrite <- Hfirst in Hstep, Hre.
  exists (mkTpSegmenter (config_ segmenter) (to_uint8 ((to_uint8 (seq + 1) + 1) mod 256))),
    first, tail.
  split; [exact Hsegs|]. split; [reflexivity|].
  assert (Hok : forall x, x ∈ tail ->
            tail_segment_of P seq x /\ mss - 16 <= segment_offset (header x)).
  { intros x Hx. rewrite Forall_forall in Hall. apply Hall. exact Hx. }
  split; [|apply Forall_forall; intros x Hx;
           destruct (Hok x Hx) as [(Hxseq & _ & Hxty & _) _];
           apply segment_without_first_is_dropped;
           [exact Hxty | rewrite Hxseq; exact Hnew]].
  intros rest' Hperm.
  assert (Hin : forall x, x ∈ rest' <-> x ∈ tail).
  { intros x. rewrite Hperm. reflexivity. }
  assert (Hne : rest' <> []).
  { intros ->. apply Permutation_nil_r in Hperm.
    apply (tail_segments_nonempty _ _ _ _ _ Htail). exact Hperm. }
  destruct (feed_tail (r_config_ self) (reassembly_buffers_ self) P seq
              (first :: tail) rest' [first] self1 complete_message)
    as (Hfeed & mid & Hmid & Hact); try assumption.
  - apply Forall_forall. intros x Hx. apply Hin in Hx. apply Hok. exact Hx.
  - rewrite <- Hperm. exact Hnodup.
  - intros x Hx Hxf. apply list_elem_of_singleton in Hxf. subst x.
    apply Hin, Hok in Hx as [(_ & _ & [Hty|Hty] & _) _]; discriminate Hty.
  - intros x. rewrite elem_of_cons, list_elem_of_singleton, Hin. reflexivity.
  - intros j Hj. apply covered_cons.
    destruct (decide (j < Z.to_nat (mss - 16))%nat) as [Hlow|Hhigh].
    + left. rewrite Hfirst. apply first_segment_covers; (assumption || lia).
    + right. apply Hcov. lia.
  - intros r Hr. apply Hin in Hr. destruct (Hok r Hr) as [Hrok Hroff].
    exists (Z.to_nat (segment_offset (header r))). split.
    + apply (tail_segment_covers P seq r _ Hrok).
      destruct Hrok as (_ & _ & _ & _ & _ & Hlen & _). lia.
    + intros s' Hs' Hc. apply elem_of_cons in Hs' as [->|Hs'].
      * rewrite Hfirst in Hc. apply first_segment_covers in Hc; (assumption || lia).
      * apply Hpriv; assumption.
  - split.
    + rewrite feed_cons, Hstep, Hfeed. destruct self; reflexivity.
    + exists mid. split; [|exact Hact].
      destruct rest' as [|r rest'']; [congruence|].
      change (removelast (first :: r :: rest'')) with (first :: removelast (r :: rest'')).
      rewrite feed_cons, Hstep, Hmid. reflexivity.
Qed.

(** Scenario S3 again: the 350-byte message, [max_segment_size = 100]. *)
Lemma reassembly_first_then_any_order_witness :
  (exists segmenter' first rest,
     segment_message 400 (mkTpSegmenter config_100 0) message_350 []
     = Some (SUCCESS, segmenter', first :: rest)
     /\ message_type (header first) = FIRST_SEGMENT
     /\ (forall rest', Permutation rest rest' ->
           feed (TpReassembler_make config_100) (first :: rest') []
           = (true, TpReassembler_make config_100, Message.payload_ message_350)
           /\ exists mid,
                feed (TpReassembler_make config_100) (removelast (first :: rest')) []
                = (true, mid, [])
                /\ is_reassembling mid 0 = true)
     /\ Forall (fun s => process_segment (TpReassembler_make config_100) s []
                         = (false, TpReassembler_make config_100, [])) rest)
  /\ forall (r : TpReassembler) (s : TpSegment) (out : list Z),
       message_type (header s) = CONSECUTIVE_SEGMENT
       \/ message_type (header s) = LAST_SEGMENT ->
       is_reassembling r (sequence_number (header s)) = false ->
       process_segment r s out = (false, r, out).
Proof.
  apply (reassembly_first_then_any_order 400 (mkTpSegmenter config_100 0) message_350
           (TpReassembler_make config_100) []).
  - vm_compute. discriminate.
  - vm_compute. split; [reflexivity | discriminate].
  - vm_compute. discriminate.
  - vm_compute. discriminate.
  - vm_compute. reflexivity.
  - vm_compute. reflexivity.
Defined.

End Reassembler.

(* ------------------------------------------------------------------ *)
(** ** Payload writer and reader together *)

Section WriterReader.
Import Wire Deserializer Element.

Lemma at_app (pre l : list Z) (k : Z) :
  0 <= k -> at_ (pre ++ l) (vsize pre + k) = nth (Z.to_nat k) l 0.
Proof.
  intros Hk. unfold at_, vsize.
  replace (Z.to_nat (Z.of_nat (length pre) + k)) with (length pre + Z.to_nat k)%nat by lia.
  rewrite app_nth2 by lia. f_equal. lia.
Qed.

Lemma at_app_0 (pre l : list Z) : at_ (pre ++ l) (vsize pre) = nth 0 l 0.
Proof. rewrite <- (Z.add_0_r (vsize pre)). now rewrite at_app. Qed.

Lemma be16_decode_encode (v : Z) :
  0 <= v < 2 ^ 16 ->
  Z.lor (Z.shiftl (Z.land (Z.shiftr v 8) 0xFF) 8) (Z.land v 0xFF) = v.
Proof.
  intros Hv. change 0xFF with (Z.ones 8).
  Z.bitblast; bits_done.
Qed.

Lemma low_byte (v k : Z) :
  0 <= k <= 24 ->
  Z.land (Z.shiftr v k) 0xFF = Z.land (Z.shiftr (Z.land v (Z.ones 32)) k) 0xFF.
Proof. intros Hk. change 0xFF with (Z.ones 8). Z.bitblast. Qed.

Lemma low_byte_0 (v : Z) :
  Z.land v 0xFF = Z.land (Z.land v (Z.ones 32)) 0xFF.
Proof. change 0xFF with (Z.ones 8). Z.bitblast. Qed.

Lemma high_byte (v k : Z) :
  0 <= k ->
  Z.land (Z.shiftr v (32 + k)) 0xFF = Z.land (Z.shiftr (Z.shiftr v 32) k) 0xFF.
Proof. intros Hk. now rewrite Z.shiftr_shiftr by lia. Qed.

(** The big-endian reading of the eight bytes of [v] is [v]: the two
    halves are read as in [be32_decode_encode]. *)
Lemma be64_decode_encode (v : Z) :
  0 <= v < 2 ^ 64 ->
  Z.lor
    (Z.shiftl
       (Z.lor (Z.lor (Z.lor (Z.shiftl (Z.land (Z.shiftr v 56) 0xFF) 24)
                            (Z.shiftl (Z.land (Z.shiftr v 48) 0xFF) 16))
                     (Z.shiftl (Z.land (Z.shiftr v 40) 0xFF) 8))
              (Z.land (Z.shiftr v 32) 0xFF)) 32)
    (Z.lor (Z.lor (Z.lor (Z.shiftl (Z.land (Z.shiftr v 24) 0xFF) 24)
                         (Z.shiftl (Z.land (Z.shiftr v 16) 0xFF) 16))
                  (Z.shiftl (Z.land (Z.shiftr v 8) 0xFF) 8))
           (Z.land v 0xFF)) = v.
Proof.
  intros Hv.
  assert (Hhi : 0 <= Z.shiftr v 32 < 2 ^ 32).
  { rewrite Z.shiftr_div_pow2 by lia. split; [apply Z.div_pos; lia|].
    apply Z.div_lt_upper_bound; lia. }
  assert (Hlo : 0 <= Z.land v (Z.ones 32) < 2 ^ 32).
  { rewrite Z.land_ones by lia. apply Z.mod_pos_bound. lia. }
  change 56 with (32 + 24). change 48 with (32 + 16). change 40 with (32 + 8).
  rewrite (high_byte v 24), (high_byte v 16), (high_byte v 8) by lia.
  rewrite (low_byte v 24), (low_byte v 16), (low_byte v 8), (low_byte_0 v) by lia.
  rewrite (be32_decode_encode _ Hhi), (be32_decode_encode _ Hlo).
  Z.bitblast.
Qed.

(** One masked byte of the swap, as the byte of [v] moved to its place. *)
Lemma mask_shiftr (v m s : Z) :
  0 <= s <= m ->
  Z.shiftr (Z.land v (Z.shiftl (Z.ones 8) m)) s
  = Z.shiftl (Z.land (Z.shiftr v m) (Z.ones 8)) (m - s).
Proof. intros Hm. Z.bitblast. Qed.

Lemma mask_shiftl (v m s : Z) :
  0 <= m -> 0 <= s ->
  Z.shiftl (Z.land v (Z.shiftl (Z.ones 8) m)) s
  = Z.shiftl (Z.land (Z.shiftr v m) (Z.ones 8)) (m + s).
Proof. intros Hm Hs. Z.bitblast. Qed.

Lemma land_ones_range (x : Z) : 0 <= Z.land x (Z.ones 8) < 2 ^ 8.
Proof. rewrite Z.land_ones by lia. apply Z.mod_pos_bound. lia. Qed.

Lemma memory_bytes64_packed (c0 c1 c2 c3 c4 c5 c6 c7 : Z) :
  0 <= c0 < 2 ^ 8 -> 0 <= c1 < 2 ^ 8 -> 0 <= c2 < 2 ^ 8 -> 0 <= c3 < 2 ^ 8 ->
  0 <= c4 < 2 ^ 8 -> 0 <= c5 < 2 ^ 8 -> 0 <= c6 < 2 ^ 8 -> 0 <= c7 < 2 ^ 8 ->
  Serializer.memory_bytes64
    (Z.lor (Z.lor (Z.lor (Z.lor (Z.lor (Z.lor (Z.lor
       (Z.shiftl c0 0) (Z.shiftl c1 8)) (Z.shiftl c2 16)) (Z.shiftl c3 24))
       (Z.shiftl c4 32)) (Z.shiftl c5 40)) (Z.shiftl c6 48)) (Z.shiftl c7 56))
  = [c0; c1; c2; c3; c4; c5; c6; c7].
Proof.
  intros. unfold Serializer.memory_bytes64. change 0xFF with (Z.ones 8).
  repeat (apply (f_equal2 (@cons Z)); [Z.bitblast; bits_done|]).
  reflexivity.
Qed.

(** [append_be_uint64] writes the eight bytes of [value], most significant
    first. *)
Lemma swap_bytes64_memory (v : Z) :
  Serializer.memory_bytes64 (Serializer.swap_bytes64 v)
  = [ Z.land (Z.shiftr v 56) 0xFF; Z.land (Z.shiftr v 48) 0xFF;
      Z.land (Z.shiftr v 40) 0xFF; Z.land (Z.shiftr v 32) 0xFF;
      Z.land (Z.shiftr v 24) 0xFF; Z.land (Z.shiftr v 16) 0xFF;
      Z.land (Z.shiftr v 8) 0xFF; Z.land v 0xFF ].
Proof.
  unfold Serializer.swap_bytes64.
  change 0xFF00000000000000 with (Z.shiftl (Z.ones 8) 56).
  change 0x00FF000000000000 with (Z.shiftl (Z.ones 8) 48).
  change 0x0000FF0000000000 with (Z.shiftl (Z.ones 8) 40).
  change 0x000000FF00000000 with (Z.shiftl (Z.ones 8) 32).
  change 0x00000000FF000000 with (Z.shiftl (Z.ones 8) 24).
  change 0x0000000000FF0000 with (Z.shiftl (Z.ones 8) 16).
  change 0x000000000000FF00 with (Z.shiftl (Z.ones 8) 8).
  change 0x00000000000000FF with (Z.shiftl (Z.ones 8) 0).
  rewrite !mask_shiftr, !mask_shiftl by lia.
  change (56 - 56) with 0. change (48 - 40) with 8. change (40 - 24) with 16.
  change (32 - 8) with 24. change (24 + 8) with 32. change (16 + 24) with 40.
  change (8 + 40) with 48. change (0 + 56) with 56.
  rewrite memory_bytes64_packed by apply land_ones_range.
  rewrite (Z.shiftr_0_r v). reflexivity.
Qed.

Lemma to_signed_of_unsigned (bits v : Z) :
  0 < bits -> - 2 ^ (bits - 1) <= v < 2 ^ (bits - 1) ->
  to_signed bits (v mod 2 ^ bits) = v.
Proof.
  intros Hb Hv. unfold to_signed.
  assert (E : 2 ^ bits = 2 * 2 ^ (bits - 1)).
  { rewrite <- Z.pow_succ_r by lia. f_equal. lia. }
  destruct (Z_lt_dec v 0) as [Hneg|Hpos].
  - assert (Em : v mod 2 ^ bits = v + 2 ^ bits).
    { symmetry. apply Z.mod_unique with (-1); lia. }
    rewrite Em. destruct (_ <? _) eqn:C; [apply Z.ltb_lt in C; lia | lia].
  - rewrite Z.mod_small by lia.
    destruct (_ <? _) eqn:C; [reflexivity | apply Z.ltb_ge in C; lia].
Qed.

Lemma fits (pre bytes rest : list Z) (n : Z) :
  n <= vsize bytes -> (vsize pre + n >? vsize (pre ++ bytes ++ rest)) = false.
Proof.
  intros Hn. rewrite !vsize_app. apply gtb_false.
  pose proof (vsize_nonneg rest). lia.
Qed.

Lemma read_written (T : int_type) (v : Z) (pre rest : list Z) :
  in_range T v ->
  Element.deserialize T
    (Deserializer.mk
       (Serializer.buffer_ (Element.serialize T (Serializer.mk pre) v) ++ rest)
       (vsize pre))
  = (success v,
     Deserializer.mk
       (Serializer.buffer_ (Element.serialize T (Serializer.mk pre) v) ++ rest)
       (vsize pre + sizeof T)).
Proof.
  intros Hv.
  destruct T; cbn [in_range] in Hv;
    unfold Element.deserialize, Element.serialize, sizeof,
      deserialize_uint8, deserialize_uint16, deserialize_uint32, deserialize_uint64,
      deserialize_int8, deserialize_int16, deserialize_int32, deserialize_int64,
      deserialize_uint8, lift, read_be_uint16, read_be_uint32, read_be_uint64,
      Serializer.serialize_uint8, Serializer.serialize_uint16,
      Serializer.serialize_uint32, Serializer.serialize_uint64,
      Serializer.serialize_int8, Serializer.serialize_int16,
      Serializer.serialize_int32, Serializer.serialize_int64,
      Serializer.append_be_int16, Serializer.append_be_int32, Serializer.append_be_int64,
      Serializer.append_be_uint16, Serializer.append_be_uint32,
      Serializer.append_be_uint64, Serializer.push_back, Serializer.insert_end,
      advance;
    cbn [Serializer.buffer_ buffer_ position_];
    rewrite ?swap_bytes64_memory; unfold htons_bytes, htonl_bytes;
    rewrite <- app_assoc, fits by (unfold vsize; simpl; lia);
    unfold ntohs_at, ntohl_at;
    repeat match goal with
    | |- context [vsize pre + ?a + ?b] =>
        let c := eval cbv in (a + b) in
        replace (vsize pre + a + b) with (vsize pre + c) by lia
    end;
    rewrite ?at_app_0, ?at_app by lia; cbn [app nth Z.to_nat Pos.to_nat Pos.iter_op Nat.add].
  - reflexivity.
  - rewrite be16_decode_encode by lia. reflexivity.
  - rewrite be32_decode_encode by lia. reflexivity.
  - rewrite be64_decode_encode by lia. reflexivity.
  - unfold to_uint8. rewrite (to_signed_of_unsigned 8) by lia. reflexivity.
  - unfold to_uint16.
    rewrite be16_decode_encode by (apply Z.mod_pos_bound; lia).
    rewrite (to_signed_of_unsigned 16) by lia. reflexivity.
  - unfold to_uint32.
    rewrite be32_decode_encode by (apply Z.mod_pos_bound; lia).
    rewrite (to_signed_of_unsigned 32) by lia. reflexivity.
  - rewrite be64_decode_encode by (apply Z.mod_pos_bound; lia).
    rewrite (to_signed_of_unsigned 64) by lia. reflexivity.
Qed.
Lemma read_uint32_at (pre rest : list Z) (v : Z) :
  0 <= v < 2 ^ 32 ->
  deserialize_uint32 (Deserializer.mk (pre ++ htonl_bytes v ++ rest) (vsize pre))
  = (success v, Deserializer.mk (pre ++ htonl_bytes v ++ rest) (vsize pre + 4)).
Proof.
  intros Hv. pose proof (read_written uint32_t v pre rest Hv) as H.
  cbn [Element.deserialize Element.serialize sizeof] in H.
  unfold Serializer.serialize_uint32, Serializer.append_be_uint32,
    Serializer.insert_end in H.
  cbn [Serializer.buffer_] in H. rewrite <- app_assoc in H. exact H.
Qed.

Lemma padding_range (n : Z) : 0 <= (4 - n mod 4) mod 4 < 4.
Proof. apply Z.mod_pos_bound. lia. Qed.

Lemma string_read_written (value pre rest : list Z) :
  vsize value < 2 ^ 32 ->
  deserialize_string
    (Deserializer.mk
       (Serializer.buffer_ (Serializer.serialize_string (Serializer.mk pre) value) ++ rest)
       (vsize pre))
  = (success value,
     Deserializer.mk
       (Serializer.buffer_ (Serializer.serialize_string (Serializer.mk pre) value) ++ rest)
       (vsize (Serializer.buffer_ (Serializer.serialize_string (Serializer.mk pre) value)))).
Proof.
  intros Hlen. pose proof (vsize_nonneg value) as Hnn.
  unfold Serializer.serialize_string, Serializer.align_to, Serializer.serialize_uint32,
    Serializer.append_be_uint32, Serializer.insert_end.
  cbn [Serializer.buffer_].
  rewrite to_uint32_small by lia.
  assert (Hcur : vsize ((pre ++ htonl_bytes (vsize value)) ++ value)
                 = vsize pre + 4 + vsize value).
  { rewrite !vsize_app. unfold htonl_bytes, vsize at 2. simpl length. lia. }
  rewrite Hcur.
  set (pad := replicate _ 0).
  replace (((pre ++ htonl_bytes (vsize value)) ++ value) ++ pad)
    with (pre ++ htonl_bytes (vsize value) ++ value ++ pad)
    by (now rewrite !app_assoc).
  rewrite <- !app_assoc.
  unfold deserialize_string.
  rewrite read_uint32_at by lia.
  cbn [position_ buffer_].
  assert (Hsz : vsize (pre ++ htonl_bytes (vsize value) ++ value ++ pad ++ rest)
                = vsize pre + 4 + vsize value + vsize pad + vsize rest).
  { rewrite !vsize_app. unfold htonl_bytes, vsize at 2. simpl length. lia. }
  rewrite Hsz.
  pose proof (vsize_nonneg pad) as Hpad. pose proof (vsize_nonneg rest) as Hrest.
  pose proof (vsize_nonneg pre) as Hpre.
  rewrite gtb_false by lia.
  f_equal.
  - f_equal.
    replace (Z.to_nat (vsize pre + 4)) with (length (pre ++ htonl_bytes (vsize value)))
      by (rewrite length_app; unfold vsize, htonl_bytes; simpl length; lia).
    rewrite (app_assoc pre), drop_app_length.
    replace (Z.to_nat (vsize value)) with (length value) by (unfold vsize; lia).
    apply take_app_length.
  - unfold align_to, skip, advance. cbn [position_ buffer_]. cbv zeta.
    rewrite Hsz.
    assert (Epad : vsize pad
                   = (4 - (vsize pre + 4 + vsize value) mod 4) mod 4).
    { subst pad. unfold vsize at 1. rewrite length_replicate.
      apply Z2Nat.id, padding_range. }
    rewrite <- Epad.
    rewrite (proj2 (Z.leb_le _ _)) by lia.
    f_equal.
    rewrite !vsize_app. change (vsize (htonl_bytes (vsize value))) with 4. lia.
Qed.
Lemma element_app (T : int_type) (v : Z) (s : Serializer.t) :
  Serializer.buffer_ (Element.serialize T s v)
  = Serializer.buffer_ s ++ Serializer.buffer_ (Element.serialize T Serializer.make v).
Proof. destruct T; reflexivity. Qed.

Lemma element_size (T : int_type) (v : Z) :
  vsize (Serializer.buffer_ (Element.serialize T Serializer.make v)) = sizeof T.
Proof. destruct T; reflexivity. Qed.

Lemma elements_app (T : int_type) (l : list Z) :
  forall s : Serializer.t,
  Serializer.buffer_ (fold_left (Element.serialize T) l s)
  = Serializer.buffer_ s
    ++ Serializer.buffer_ (fold_left (Element.serialize T) l Serializer.make).
Proof.
  induction l as [|a l IH]; intros s; cbn [fold_left].
  - cbn. now rewrite app_nil_r.
  - rewrite IH, (IH (Element.serialize T Serializer.make a)), element_app.
    now rewrite app_assoc.
Qed.

Lemma read_all_written (T : int_type) (l : list Z) :
  forall (pre rest acc : list Z),
  Forall (in_range T) l ->
  deserialize_array_loop (Element.deserialize T) (length l) acc
    (Deserializer.mk
       (pre ++ Serializer.buffer_ (fold_left (Element.serialize T) l Serializer.make)
        ++ rest)
       (vsize pre))
  = (success (acc ++ l),
     Deserializer.mk
       (pre ++ Serializer.buffer_ (fold_left (Element.serialize T) l Serializer.make)
        ++ rest)
       (vsize pre
        + vsize (Serializer.buffer_ (fold_left (Element.serialize T) l Serializer.make)))).
Proof.
  induction l as [|a l IH]; intros pre rest acc Hl.
  - cbn. rewrite app_nil_r. f_equal. f_equal. unfold vsize. simpl. lia.
  - apply Forall_cons_1 in Hl as [Ha Hl].
    cbn [length deserialize_array_loop fold_left].
    rewrite (elements_app T l (Element.serialize T Serializer.make a)).
    set (b := Serializer.buffer_ (Element.serialize T Serializer.make a)).
    set (B := Serializer.buffer_ (fold_left (Element.serialize T) l Serializer.make)).
    pose proof (read_written T a pre (B ++ rest) Ha) as Hr.
    rewrite (element_app T a (Serializer.mk pre)) in Hr.
    cbn [Serializer.buffer_] in Hr. fold b in Hr.
    rewrite <- !app_assoc in Hr |- *. rewrite Hr.
    replace (vsize pre + sizeof T) with (vsize (pre ++ b))
      by (rewrite vsize_app; subst b; now rewrite element_size).
    rewrite (app_assoc pre b).
    subst B.
    rewrite (IH (pre ++ b) rest (acc ++ [a]) Hl).
    rewrite <- !app_assoc. cbn [app]. f_equal. f_equal.
    rewrite !vsize_app. lia.
Qed.
(** X4.  Every value of an integer element type that is written with the
    writer of its type is read back by the reader of that type: placed at
    the position where the value was written, the reader returns the value
    and moves the cursor forward by the size of the type, whatever was
    written before and whatever follows. *)
Theorem integer_round_trip (T : int_type) (v : Z) (s : Serializer.t) (rest : list Z) :
  in_range T v ->
  Element.deserialize T (written (Element.serialize T s v) rest (Serializer.get_size s))
  = (success v,
     written (Element.serialize T s v) rest (Serializer.get_size s + sizeof T)).
Proof. intros Hv. destruct s as [pre]. exact (read_written T v pre rest Hv). Qed.

Lemma integer_round_trip_witness :
  Element.deserialize int16_t
    (written (Element.serialize int16_t (Serializer.mk [7]) (-2)) [9] 1)
  = (success (-2), written (Element.serialize int16_t (Serializer.mk [7]) (-2)) [9] 3).
Proof.
  apply (integer_round_trip int16_t (-2) (Serializer.mk [7]) [9]).
  cbn. lia.
Defined.

Lemma bool_round_trip (value : bool) (s : Serializer.t) (rest : list Z) :
  deserialize_bool (written (Serializer.serialize_bool s value) rest (Serializer.get_size s))
  = (success value,
     written (Serializer.serialize_bool s value) rest (Serializer.get_size s + 1)).
Proof.
  destruct s as [pre].
  unfold deserialize_bool, written, Serializer.serialize_bool, Serializer.push_back,
    Serializer.get_size, advance.
  cbn [Serializer.buffer_ buffer_ position_].
  rewrite <- app_assoc, fits by (unfold vsize; simpl; lia).
  rewrite at_app_0. destruct value; reflexivity.
Qed.

(** X5.  A string of fewer than 2^32 characters that is written with
    [serialize_string] is read back by [deserialize_string]: the reader
    returns the characters and stops exactly at the end of what the writer
    appended, padding included; that end is a multiple of four bytes from
    the start of the buffer. *)
Theorem string_round_trip (value : list Z) (s : Serializer.t) (rest : list Z) :
  vsize value < 2 ^ 32 ->
  deserialize_string (written (Serializer.serialize_string s value) rest (Serializer.get_size s))
  = (success value,
     written (Serializer.serialize_string s value) rest
       (Serializer.get_size (Serializer.serialize_string s value)))
  /\ Serializer.get_size (Serializer.serialize_string s value) mod 4 = 0.
Proof.
  intros Hlen. destruct s as [pre]. split.
  - exact (string_read_written value pre rest Hlen).
  - unfold Serializer.get_size, Serializer.serialize_string, Serializer.align_to,
      Serializer.insert_end.
    cbn [Serializer.buffer_]. rewrite vsize_app.
    set (n := vsize _). unfold vsize. rewrite length_replicate.
    rewrite Z2Nat.id by apply padding_range.
    pose proof (Z.mod_pos_bound n 4 ltac:(lia)) as Hn.
    pose proof (Z.div_mod n 4 ltac:(lia)) as Hd.
    destruct (Z.eq_dec (n mod 4) 0) as [E|E].
    + rewrite E. change ((4 - 0) mod 4) with 0. rewrite Z.add_0_r. exact E.
    + rewrite (Z.mod_small (4 - n mod 4)) by lia.
      replace (n + (4 - n mod 4)) with (4 * (n / 4 + 1)) by lia.
      rewrite Z.mul_comm. apply Z.mod_mul. lia.
Qed.

Lemma string_round_trip_witness :
  deserialize_string
    (written (Serializer.serialize_string (Serializer.mk [1]) [72; 105]) [9]
             (Serializer.get_size (Serializer.mk [1])))
  = (success [72; 105],
     written (Serializer.serialize_string (Serializer.mk [1]) [72; 105]) [9]
       (Serializer.get_size (Serializer.serialize_string (Serializer.mk [1]) [72; 105])))
  /\ Serializer.get_size (Serializer.serialize_string (Serializer.mk [1]) [72; 105]) mod 4
     = 0.
Proof.
  apply (string_round_trip [72; 105] (Serializer.mk [1]) [9]).
  vm_compute. reflexivity.
Defined.


Lemma read_scalar_in_bounds (s : scalar) (d : Deserializer.t) :
  Element.is_valid d = true -> Element.is_valid (snd (read_scalar s d)) = true.
Proof.
  intros Hd. destruct (fst (read_scalar s d)) eqn:E.
  - now rewrite read_scalar_failure.
  - destruct (read_scalar_success s d E) as [Hb Hp].
    unfold Element.is_valid. rewrite Hb. apply Z.leb_le. lia.
Qed.

Lemma element_in_bounds (T : int_type) (d : Deserializer.t) :
  Element.is_valid d = true -> Element.is_valid (snd (Element.deserialize T d)) = true.
Proof.
  intros Hd.
  destruct T;
    [ apply (read_scalar_in_bounds UInt8 d Hd) | apply (read_scalar_in_bounds UInt16 d Hd)
    | apply (read_scalar_in_bounds UInt32 d Hd) | apply (read_scalar_in_bounds UInt64 d Hd)
    | apply (read_scalar_in_bounds Int8 d Hd) | apply (read_scalar_in_bounds Int16 d Hd)
    | apply (read_scalar_in_bounds Int32 d Hd) | apply (read_scalar_in_bounds Int64 d Hd) ].
Qed.

Lemma array_loop_in_bounds {T : Type}
    (element : Deserializer.t -> DeserializationResult T * Deserializer.t) (n : nat) :
  (forall d : Deserializer.t,
     Element.is_valid d = true -> Element.is_valid (snd (element d)) = true) ->
  forall (acc : list T) (d : Deserializer.t),
  Element.is_valid d = true ->
  Element.is_valid (snd (deserialize_array_loop element n acc d)) = true.
Proof.
  intros Helement.
  induction n as [|n IH]; intros acc d Hd; cbn [deserialize_array_loop].
  - exact Hd.
  - pose proof (Helement d Hd) as He.
    destruct (element d) as [[v|e] d']; cbn [snd] in *.
    + now apply IH.
    + exact He.
Qed.

Lemma skip_in_bounds (d : Deserializer.t) (bytes : Z) :
  Element.is_valid (skip d bytes) = true.
Proof.
  unfold Element.is_valid, skip. cbv zeta. cbn [position_ buffer_].
  apply Z.leb_le. apply Z.le_min_r.
Qed.

(** On a buffer whose size is a [size_t] value, [skip] is
    [std::min(position_ + bytes, buffer_.size())] with the sum taken modulo
    2^64: a large [bytes] moves the cursor backwards. *)
Lemma skip_size_t (d : Deserializer.t) (bytes : Z) :
  vsize (buffer_ d) < 2 ^ 64 -> 0 <= position_ d + bytes ->
  skip d bytes
  = Deserializer.mk (buffer_ d)
      (Z.min (to_size_t (position_ d + bytes)) (vsize (buffer_ d))).
Proof.
  intros Hsize Hsum. unfold skip. cbv zeta.
  destruct (Z.leb_spec (position_ d + bytes) (vsize (buffer_ d))); [|reflexivity].
  unfold to_size_t. rewrite Z.mod_small by lia. reflexivity.
Qed.

Example skip_wraps :
  position_ (skip (Deserializer.mk [1; 2; 3; 4; 5; 6; 7; 8; 9; 10] 8) (2 ^ 64 - 4)) = 4.
Proof. reflexivity. Qed.

Lemma string_in_bounds (d : Deserializer.t) :
  Element.is_valid d = true -> Element.is_valid (snd (deserialize_string d)) = true.
Proof.
  intros Hd. unfold deserialize_string.
  pose proof (read_scalar_in_bounds UInt32 d Hd) as H32.
  cbn [read_scalar flag snd] in H32.
  destruct (deserialize_uint32 d) as [[len|e] d']; cbn [snd] in *.
  - destruct (_ >? _); cbn [snd]; [exact H32 | apply skip_in_bounds].
  - exact H32.
Qed.


End WriterReader.

(* ------------------------------------------------------------------ *)
(** ** SOME/IP message: what [deserialize] accepts, copies and moves *)

Section MessageMore.
Import Wire Message MessageObject.

Lemma deserialize_shape (self : t) (data : list Z) :
  16 <= vsize data ->
  let header_of :=
    set_return_code
      (set_message_type
         (set_interface_version
            (set_protocol_version
               (set_request_id
                  (set_length
                     (set_message_id self (MessageId_from_uint32 (ntohl_at data 0)))
                     (ntohl_at data 4))
                  (RequestId_from_uint32 (ntohl_at data 8)))
               (at_ data 12))
            (at_ data 13))
         (at_ data 14))
      (at_ data 15) in
  deserialize self data
  = if ntohl_at data 4 <? 8 then (false, header_of)
    else if negb (vsize data - 16 =? ntohl_at data 4 - 8) then (false, header_of)
    else (is_valid (assign_payload header_of (skipn 16 data)),
          assign_payload header_of (skipn 16 data)).
Proof.
  intros Hsz. cbv zeta. unfold deserialize, MIN_MESSAGE_SIZE, HEADER_SIZE.
  rewrite (proj2 (Z.ltb_ge _ _)) by lia.
  cbv zeta.
  change (0 + 4) with 4. change (4 + 4) with 8. change (8 + 4) with 12.
  change (12 + 1) with 13. change (13 + 1) with 14. change (14 + 1) with 15.
  change (15 + 1) with 16.
  rewrite !gtb_false by lia.
  cbn [length_ set_length set_message_id set_request_id set_protocol_version
       set_interface_version set_message_type set_return_code].
  change (Z.to_nat 16) with 16%nat.
  reflexivity.
Qed.

Lemma be32_encode_decode (a b c d : Z) :
  0 <= a < 2 ^ 8 -> 0 <= b < 2 ^ 8 -> 0 <= c < 2 ^ 8 -> 0 <= d < 2 ^ 8 ->
  htonl_bytes (Z.lor (Z.lor (Z.lor (Z.shiftl a 24) (Z.shiftl b 16)) (Z.shiftl c 8)) d)
  = [a; b; c; d].
Proof.
  intros Ha Hb Hc Hd. unfold htonl_bytes. change 0xFF with (Z.ones 8).
  repeat (apply (f_equal2 (@cons Z)); [Z.bitblast; bits_done|]).
  reflexivity.
Qed.

Lemma be32_range (a b c d : Z) :
  0 <= a < 2 ^ 8 -> 0 <= b < 2 ^ 8 -> 0 <= c < 2 ^ 8 -> 0 <= d < 2 ^ 8 ->
  0 <= Z.lor (Z.lor (Z.lor (Z.shiftl a 24) (Z.shiftl b 16)) (Z.shiftl c 8)) d < 2 ^ 32.
Proof.
  intros Ha Hb Hc Hd.
  set (x := Z.lor _ d).
  assert (E : x = Z.land x (Z.ones 32)).
  { subst x. Z.bitblast; bits_done. }
  rewrite E, Z.land_ones by lia. apply Z.mod_pos_bound. lia.
Qed.

Lemma unpack16 (v : Z) :
  0 <= v < 2 ^ 32 ->
  Z.lor ((Z.shiftl ((Z.shiftr v 16) mod 2 ^ 16) 16) mod 2 ^ 32)
        ((Z.land v 0xFFFF) mod 2 ^ 16) = v.
Proof.
  intros Hv. change 0xFFFF with (Z.ones 16).
  rewrite <- !Z.land_ones by lia.
  Z.bitblast; bits_done.
Qed.

Lemma at_range (data : list Z) (i : Z) :
  Forall is_uint8 data -> is_uint8 (at_ data i).
Proof.
  intros H. unfold at_.
  destruct (nth_in_or_default (Z.to_nat i) data 0) as [Hin | ->].
  - rewrite Forall_forall in H. apply H. now apply list_elem_of_In.
  - unfold is_uint8. lia.
Qed.

Lemma header_bytes (data : list Z) :
  16 <= vsize data ->
  data = [ at_ data 0; at_ data 1; at_ data 2; at_ data 3; at_ data 4; at_ data 5;
           at_ data 6; at_ data 7; at_ data 8; at_ data 9; at_ data 10; at_ data 11;
           at_ data 12; at_ data 13; at_ data 14; at_ data 15 ] ++ skipn 16 data.
Proof.
  unfold vsize. intros H.
  do 16 (destruct data as [|? data]; [simpl in H; lia|]).
  reflexivity.
Qed.

Lemma MessageId_unpack (v : Z) :
  0 <= v < 2 ^ 32 -> MessageId_to_uint32 (MessageId_from_uint32 v) = v.
Proof.
  intros Hv. unfold MessageId_to_uint32, MessageId_from_uint32, to_uint16, to_uint32.
  cbn [service_id method_id]. now apply unpack16.
Qed.

Lemma RequestId_unpack (v : Z) :
  0 <= v < 2 ^ 32 -> RequestId_to_uint32 (RequestId_from_uint32 v) = v.
Proof.
  intros Hv. unfold RequestId_to_uint32, RequestId_from_uint32, to_uint16, to_uint32.
  cbn [client_id session_id]. now apply unpack16.
Qed.

Lemma ntohl_at_range (data : list Z) (i : Z) :
  Forall is_uint8 data -> 0 <= ntohl_at data i < 2 ^ 32.
Proof.
  intros H. unfold ntohl_at. apply be32_range; apply at_range; assumption.
Qed.

Lemma htonl_ntohl (data : list Z) (i : Z) :
  Forall is_uint8 data ->
  htonl_bytes (ntohl_at data i)
  = [at_ data i; at_ data (i + 1); at_ data (i + 2); at_ data (i + 3)].
Proof.
  intros H. unfold ntohl_at. apply be32_encode_decode; apply at_range; assumption.
Qed.

Lemma deserialize_sound_aux (self m : t) (data : list Z) :
  Forall is_uint8 data ->
  deserialize self data = (true, m) ->
  serialize m = data /\ is_valid m = true /\ wf m.
Proof.
  intros Hbytes Hd.
  destruct (Z_lt_dec (vsize data) 16) as [Hshort|Hlong].
  { unfold deserialize, MIN_MESSAGE_SIZE, HEADER_SIZE in Hd.
    rewrite (proj2 (Z.ltb_lt _ _)) in Hd by lia. discriminate. }
  rewrite deserialize_shape in Hd by lia. cbv zeta in Hd.
  destruct (_ <? 8) eqn:E8; [discriminate|].
  destruct (_ =? _) eqn:Esz; cbn [negb] in Hd; [|discriminate].
  injection Hd as Hvalid <-.
  split; [|split; [exact Hvalid|]].
  - unfold serialize.
    cbn [message_id_ length_ request_id_ protocol_version_ interface_version_
         message_type_ return_code_ payload_ assign_payload set_return_code
         set_message_type set_interface_version set_protocol_version set_request_id
         set_length set_message_id].
    rewrite MessageId_unpack, RequestId_unpack by now apply ntohl_at_range.
    rewrite !htonl_ntohl by assumption.
    symmetry. etransitivity; [apply header_bytes; lia | reflexivity].
  - constructor;
      cbn [message_id_ length_ request_id_ protocol_version_ interface_version_
           message_type_ return_code_ payload_ assign_payload set_return_code
           set_message_type set_interface_version set_protocol_version set_request_id
           set_length set_message_id MessageId_from_uint32 RequestId_from_uint32
           service_id method_id client_id session_id];
      try (now apply at_range);
      try (apply Z.mod_pos_bound; lia).
    + now apply ntohl_at_range.
    + now apply Forall_drop.
Qed.

(** The round trip of C1 without the validity of [m]: with a consistent
    length field the members are restored and the result is [is_valid m]. *)
Lemma deserialize_serialize_consistent (self m : t) :
  wf m -> length_ m = 8 + vsize (payload_ m) ->
  deserialize self (serialize m) = (is_valid m, m).
Proof.
  intros [Hsid Hmid Hlen Hcid Hssid Hpv Hiv Hmt Hrc Hpay] El.
  assert (Hp : 0 <= vsize (payload_ m)) by apply vsize_nonneg.
  rewrite deserialize_shape by (rewrite serialize_size; unfold HEADER_SIZE; lia).
  cbv zeta.
  rewrite serialize_message_id, serialize_length_field, serialize_request_id
    by assumption.
  destruct (serialize_tail_bytes m) as (B12 & B13 & B14 & B15).
  rewrite B12, B13, B14, B15, serialize_size, serialize_payload.
  rewrite MessageId_roundtrip, RequestId_roundtrip by assumption.
  unfold HEADER_SIZE.
  rewrite (proj2 (Z.ltb_ge _ _)) by lia.
  replace (16 + vsize (payload_ m) - 16 =? length_ m - 8) with true
    by (symmetry; apply Z.eqb_eq; lia).
  cbn [negb].
  match goal with
  | |- (is_valid ?r, ?r) = _ => replace r with m by (destruct m; reflexivity)
  end.
  reflexivity.
Qed.

(** X8.  [deserialize] accepts nothing but serialized valid messages: when
    it returns true on a buffer of bytes, the object it filled is valid, its
    members are within the ranges of their types, and [serialize] of it gives
    back exactly the bytes that were read. *)
Theorem deserialize_accepts_only_serialized (self m : t) (data : list Z) :
  Forall is_uint8 data ->
  deserialize self data = (true, m) ->
  serialize m = data /\ is_valid m = true /\ wf m.
Proof. apply deserialize_sound_aux. Qed.

Lemma deserialize_accepts_only_serialized_witness :
  serialize hello_world = serialize hello_world
  /\ is_valid hello_world = true /\ wf hello_world.
Proof.
  apply (deserialize_accepts_only_serialized default hello_world (serialize hello_world)).
  - all_in_range.
  - reflexivity.
Defined.

(** X9.  [deserialize] is not atomic.  On fewer than 16 bytes it returns
    false and leaves the object as it was.  On 16 bytes or more it
    overwrites all seven header fields with what the first 16 bytes hold,
    whatever it returns; when the length field is not the buffer size minus
    8 it returns false and the object keeps its old payload under the new
    header. *)
Theorem deserialize_overwrites_header (self : t) (data : list Z) :
  (vsize data < 16 -> deserialize self data = (false, self))
  /\ (16 <= vsize data ->
      let r := snd (deserialize self data) in
      message_id_ r = MessageId_from_uint32 (ntohl_at data 0)
      /\ length_ r = ntohl_at data 4
      /\ request_id_ r = RequestId_from_uint32 (ntohl_at data 8)
      /\ protocol_version_ r = at_ data 12
      /\ interface_version_ r = at_ data 13
      /\ message_type_ r = at_ data 14
      /\ return_code_ r = at_ data 15
      /\ (ntohl_at data 4 <> vsize data - 8 ->
          fst (deserialize self data) = false /\ payload_ r = payload_ self)).
Proof.
  split.
  - intros Hshort. unfold deserialize, MIN_MESSAGE_SIZE, HEADER_SIZE.
    now rewrite (proj2 (Z.ltb_lt _ _)) by lia.
  - intros Hlong. cbv zeta. rewrite deserialize_shape by lia. cbv zeta.
    destruct (_ <? 8) eqn:E8.
    + cbn. repeat split; reflexivity.
    + destruct (_ =? _) eqn:Esz; cbn [negb].
      * cbn. repeat split; try reflexivity; apply Z.eqb_eq in Esz; lia.
      * cbn. repeat split; reflexivity.
Qed.

Lemma moved_from_invalid (other : t) (left : list Z) :
  is_valid (moved_from other left) = false.
Proof.
  unfold is_valid, has_valid_header, moved_from.
  cbn [protocol_version_ interface_version_ set_length set_interface_version assign_payload].
  destruct (negb (protocol_version_ other =? _)); reflexivity.
Qed.

Lemma wf_relength (m : t) (l : Z) :
  wf m -> is_uint32 l -> wf (set_length m l).
Proof. intros [] Hl. constructor; assumption. Qed.

(** X10.  Moving a valid message, by the move constructor or by move
    assignment, gives a message equal to it and leaves the source invalid:
    [is_valid] of the moved-from object is false, whatever its payload
    vector holds afterwards. *)
Theorem moved_from_message_is_invalid (self other : t) :
  wf other -> is_valid other = true ->
  fst (move_construct other) = other
  /\ move_assign self other = other
  /\ is_valid (snd (move_construct other)) = false
  /\ forall left : list Z, is_valid (moved_from other left) = false.
Proof.
  intros Hwf Hvalid.
  destruct (proj1 (is_valid_iff other Hwf) Hvalid) as (E1 & E2 & E3 & E4 & E5 & E6).
  pose proof (vsize_nonneg (payload_ other)) as Hp.
  assert (El : to_uint32 (8 + vsize (payload_ other)) = length_ other)
    by (rewrite to_uint32_small by lia; lia).
  repeat split.
  - unfold move_construct. cbn [fst]. rewrite El. destruct other; reflexivity.
  - unfold move_assign. rewrite El. unfold SOMEIP_INTERFACE_VERSION.
    rewrite <- E2. destruct other; reflexivity.
  - apply moved_from_invalid.
  - intros left. apply moved_from_invalid.
Qed.

Lemma moved_from_message_is_invalid_witness :
  fst (move_construct hello_world) = hello_world
  /\ move_assign default hello_world = hello_world
  /\ is_valid (snd (move_construct hello_world)) = false
  /\ forall left : list Z, is_valid (moved_from hello_world left) = false.
Proof.
  apply (moved_from_message_is_invalid default hello_world).
  - constructor; first [in_range | all_in_range].
  - reflexivity.
Defined.

(** X11.  The moved-to object gets a recomputed length field, and move
    assignment also resets the interface version.  So the target of a move
    assignment is valid exactly when protocol version, message type, return
    code and payload size of the source are, also when the source was
    invalid because of a stale length or a wrong interface version; the
    object built by the move constructor needs, in addition, the interface
    version of the source to be right. *)
Theorem move_recomputes_length (self other : t) :
  wf other ->
  length_ (move_assign self other) = to_uint32 (8 + vsize (payload_ other))
  /\ length_ (fst (move_construct other)) = to_uint32 (8 + vsize (payload_ other))
  /\ (is_valid (move_assign self other) = true
      <-> protocol_version_ other = 1
          /\ message_type_known (message_type_ other) = true
          /\ return_code_known (return_code_ other) = true
          /\ vsize (payload_ other) <= 65535)
  /\ (is_valid (fst (move_construct other)) = true
      <-> interface_version_ other = 1
          /\ protocol_version_ other = 1
          /\ message_type_known (message_type_ other) = true
          /\ return_code_known (return_code_ other) = true
          /\ vsize (payload_ other) <= 65535).
Proof.
  intros Hwf. pose proof (vsize_nonneg (payload_ other)) as Hp.
  assert (Hr : is_uint32 (to_uint32 (8 + vsize (payload_ other))))
    by (apply Z.mod_pos_bound; lia).
  split; [reflexivity|]. split; [reflexivity|]. split.
  - assert (Hwf' : wf (move_assign self other)).
    { destruct Hwf. constructor; try assumption. in_range. }
    rewrite (is_valid_iff _ Hwf').
    cbn [move_assign protocol_version_ interface_version_ length_ payload_
         message_type_ return_code_].
    unfold SOMEIP_INTERFACE_VERSION. split.
    + intros (E1 & _ & E3 & E4 & E5 & E6). auto.
    + intros (E1 & E4 & E5 & E6). repeat split; try assumption.
      apply to_uint32_small. lia.
  - assert (Hwf' : wf (fst (move_construct other))).
    { destruct Hwf. constructor; assumption. }
    rewrite (is_valid_iff _ Hwf').
    cbn [move_construct fst protocol_version_ interface_version_ length_ payload_
         message_type_ return_code_].
    split.
    + intros (E1 & E2 & E3 & E4 & E5 & E6). auto.
    + intros (E2 & E1 & E4 & E5 & E6). repeat split; try assumption.
      apply to_uint32_small. lia.
Qed.

Lemma move_recomputes_length_witness :
  length_ (move_assign default stale_length)
  = to_uint32 (8 + vsize (payload_ stale_length))
  /\ length_ (fst (move_construct stale_length))
     = to_uint32 (8 + vsize (payload_ stale_length))
  /\ (is_valid (move_assign default stale_length) = true
      <-> protocol_version_ stale_length = 1
          /\ message_type_known (message_type_ stale_length) = true
          /\ return_code_known (return_code_ stale_length) = true
          /\ vsize (payload_ stale_length) <= 65535)
  /\ (is_valid (fst (move_construct stale_length)) = true
      <-> interface_version_ stale_length = 1
          /\ protocol_version_ stale_length = 1
          /\ message_type_known (message_type_ stale_length) = true
          /\ return_code_known (return_code_ stale_length) = true
          /\ vsize (payload_ stale_length) <= 65535).
Proof.
  apply (move_recomputes_length default stale_length).
  constructor; first [in_range | all_in_range].
Defined.
End MessageMore.

Section MessageTypes.
Import Message Types.

(** X12.  The helpers on message types agree with each other and with
    [has_valid_header]: no type is both a request and a response; a TP type
    is never a response; [get_ack_type] is idempotent; its result is a
    message type that [has_valid_header] accepts exactly when its argument
    is one, and a response exactly when its argument is one.  Its result is
    a request exactly when its argument is a request other than REQUEST:
    REQUEST becomes REQUEST_ACK, which is no request, while
    REQUEST_NO_RETURN, TP_REQUEST and TP_REQUEST_NO_RETURN have no
    acknowledgement type, come back unchanged and stay requests. *)
Theorem message_type_helpers (type : Z) :
  is_request type && is_response type = false
  /\ uses_tp type && is_response type = false
  /\ get_ack_type (get_ack_type type) = get_ack_type type
  /\ message_type_known (get_ack_type type) = message_type_known type
  /\ is_response (get_ack_type type) = is_response type
  /\ is_request (get_ack_type type) = is_request type && negb (type =? REQUEST)
  /\ get_ack_type REQUEST = REQUEST_ACK
  /\ is_request REQUEST_ACK = false
  /\ map get_ack_type [REQUEST_NO_RETURN; TP_REQUEST; TP_REQUEST_NO_RETURN]
     = [REQUEST_NO_RETURN; TP_REQUEST; TP_REQUEST_NO_RETURN]
  /\ forallb is_request [REQUEST_NO_RETURN; TP_REQUEST; TP_REQUEST_NO_RETURN] = true.
Proof.
  assert (Hany : is_request type && is_response type = false
                 /\ uses_tp type && is_response type = false
                 /\ get_ack_type (get_ack_type type) = get_ack_type type
                 /\ message_type_known (get_ack_type type) = message_type_known type
                 /\ is_response (get_ack_type type) = is_response type
                 /\ is_request (get_ack_type type)
                    = is_request type && negb (type =? REQUEST)).
  { unfold is_request, is_response, uses_tp, get_ack_type, message_type_known,
      REQUEST, REQUEST_NO_RETURN, NOTIFICATION, REQUEST_ACK, RESPONSE, ERROR,
      RESPONSE_ACK, ERROR_ACK, TP_REQUEST, TP_REQUEST_NO_RETURN, TP_NOTIFICATION.
    cbn [existsb].
    destruct (Z.eqb_spec type 0) as [->|?]; [repeat split|].
    destruct (Z.eqb_spec type 128) as [->|?]; [repeat split|].
    destruct (Z.eqb_spec type 129) as [->|?]; [repeat split|].
    destruct (Z.eqb_spec type 1) as [->|?]; [repeat split|].
    destruct (Z.eqb_spec type 2) as [->|?]; [repeat split|].
    destruct (Z.eqb_spec type 64) as [->|?]; [repeat split|].
    destruct (Z.eqb_spec type 192) as [->|?]; [repeat split|].
    destruct (Z.eqb_spec type 193) as [->|?]; [repeat split|].
    destruct (Z.eqb_spec type 32) as [->|?]; [repeat split|].
    destruct (Z.eqb_spec type 33) as [->|?]; [repeat split|].
    destruct (Z.eqb_spec type 34) as [->|?]; [repeat split|].
    repeat split;
      repeat match goal with
      | H : type <> ?c |- context [type =? ?c] =>
          rewrite (proj2 (Z.eqb_neq type c) H)
      end; reflexivity. }
  destruct Hany as (H1 & H2 & H3 & H4 & H5 & H6).
  split; [exact H1|]. split; [exact H2|]. split; [exact H3|].
  split; [exact H4|]. split; [exact H5|]. split; [exact H6|].
  repeat split.
Qed.
End MessageTypes.


(* ------------------------------------------------------------------ *)
(** ** Service discovery: entries, options and flags on the wire *)

Section SdMore.
Import Wire Sd.

Lemma pack_bytes (a b : Z) :
  0 <= a < 2 ^ 8 -> 0 <= b < 2 ^ 8 ->
  to_uint16 (Z.lor (Z.shiftl a 8) b) = a * 256 + b.
Proof.
  intros Ha Hb.
  assert (Hland : Z.land (Z.shiftl a 8) b = 0) .
  { Z.bitblast.
    match goal with H : _ = ?i - 8 |- _ => destruct (Z_lt_dec i 8) end; bits_done. }
  assert (E : Z.lor (Z.shiftl a 8) b = a * 256 + b).
  { rewrite <- (Z.lxor_lor _ _ Hland), <- (Z.add_nocarry_lxor _ _ Hland).
    rewrite Z.shiftl_mul_pow2 by lia. reflexivity. }
  rewrite E. apply to_uint16_small. lia.
Qed.

(** Sums of constants after [vsize pre], as the decoders build them. *)
Ltac offsets pre :=
  repeat match goal with
  | |- context [vsize pre + Zpos ?a + Zpos ?b] =>
      let c := eval cbv in (Zpos a + Zpos b) in
      replace (vsize pre + Zpos a + Zpos b) with (vsize pre + c) by lia
  end.

Ltac nat_offsets :=
  repeat match goal with
  | |- context [Z.to_nat (Zpos ?p)] =>
      let n := eval cbv in (Z.to_nat (Zpos p)) in change (Z.to_nat (Zpos p)) with n
  end.

Lemma low_byte_mod (x : Z) : Z.land x 0xFF = x mod 256.
Proof. change 0xFF with (Z.ones 8). now rewrite Z.land_ones by lia. Qed.

Lemma high_byte_div (x : Z) : 0 <= x < 2 ^ 16 -> Z.land (Z.shiftr x 8) 0xFF = x / 256.
Proof.
  intros Hx. rewrite low_byte_mod, Z.shiftr_div_pow2 by lia.
  change (2 ^ 8) with 256. apply Z.mod_small.
  split; [apply Z.div_pos; lia | apply Z.div_lt_upper_bound; lia].
Qed.

Lemma EventGroupEntry_bytes (e : EventGroupEntry) :
  EventGroupEntry_serialize e
  = [ type_ (eg_base e); index1_ (eg_base e); index2_ (eg_base e); 0;
      Z.land (Z.shiftr (eg_service_id_ e) 8) 0xFF; Z.land (eg_service_id_ e) 0xFF;
      Z.land (Z.shiftr (eg_instance_id_ e) 8) 0xFF; Z.land (eg_instance_id_ e) 0xFF;
      eg_major_version_ e; 0;
      Z.land (Z.shiftr (ttl_ (eg_base e)) 24) 0xFF;
      Z.land (Z.shiftr (ttl_ (eg_base e)) 16) 0xFF;
      Z.land (Z.shiftr (ttl_ (eg_base e)) 8) 0xFF; Z.land (ttl_ (eg_base e)) 0xFF;
      Z.land (Z.shiftr (eg_eventgroup_id_ e) 8) 0xFF; Z.land (eg_eventgroup_id_ e) 0xFF ].
Proof. reflexivity. Qed.

Lemma EventGroupEntry_read_back (self e : EventGroupEntry) (pre rest : list Z) :
  eventgroup_entry_ok e ->
  EventGroupEntry_deserialize self (pre ++ EventGroupEntry_serialize e ++ rest) (vsize pre)
  = (true, read_back e, vsize pre + 16).
Proof.
  intros (Hty & Hi1 & Hi2 & Httl & Hsid & Hiid & Heg & Hmaj).
  unfold is_uint8, is_uint16, is_uint32 in *.
  rewrite EventGroupEntry_bytes.
  unfold EventGroupEntry_deserialize, SdEntry_deserialize.
  rewrite fits by (unfold vsize; simpl; lia).
  offsets pre.
  rewrite fits by (unfold vsize; simpl; lia).
  unfold be16_at, be32_at. offsets pre.
  rewrite ?at_app_0, ?at_app by lia.
  nat_offsets. cbn [app nth].
  cbn [type_ index1_ index2_ ttl_].
  rewrite !pack_bytes
    by first [ apply land_ones_range | lia
             | change 0xFF with (Z.ones 8); apply land_ones_range ].
  rewrite be32_decode_encode by lia.
  rewrite to_uint32_small by lia.
  rewrite !low_byte_mod.
  rewrite <- !low_byte_mod.
  rewrite (high_byte_div (eg_instance_id_ e)), (high_byte_div (eg_eventgroup_id_ e)) by lia.
  rewrite !low_byte_mod.
  unfold read_back. destruct e as [[ty i1 i2 ttl] sid iid egid maj].
  cbn [eg_base type_ index1_ index2_ ttl_ eg_service_id_ eg_instance_id_
       eg_eventgroup_id_ eg_major_version_] in *.
  repeat f_equal.
  pose proof (Z.div_mod egid 256 ltac:(lia)). lia.
Qed.

Lemma deserialize_entries_appends (data : list Z) (length : Z) (fuel : nat) :
  forall (self : SdMessage) (offset entries_options_length : Z) (r : bool)
         (m : SdMessage),
  deserialize_entries fuel data length self offset entries_options_length = Some (r, m) ->
  flags_ m = flags_ self /\ reserved_ m = reserved_ self
  /\ options_ m = options_ self
  /\ exists new, entries_ m = entries_ self ++ new.
Proof.
  induction fuel as [|fuel IH]; intros self offset rem r m H; [discriminate|].
  cbn [deserialize_entries] in H.
  assert (Hself : flags_ self = flags_ self /\ reserved_ self = reserved_ self
                  /\ options_ self = options_ self
                  /\ exists new, entries_ self = entries_ self ++ new).
  { repeat split. exists []. now rewrite app_nil_r. }
  destruct (negb (rem >? 0)); [injection H as <- <-; exact Hself|].
  destruct (offset + 1 >? vsize data); [injection H as <- <-; exact Hself|].
  destruct ((at_ data offset =? 0) || (at_ data offset =? 1)).
  - destruct (ServiceEntry_deserialize _ data offset) as [[[] e] offset'].
    + apply IH in H as (Hf & Hr & Ho & new & Hn). cbn in Hf, Hr, Ho, Hn.
      repeat split; try assumption. exists ([Service e] ++ new).
      now rewrite Hn, app_assoc.
    + injection H as <- <-; exact Hself.
  - destruct ((at_ data offset =? 6) || (at_ data offset =? 7)).
    + destruct (EventGroupEntry_deserialize _ data offset) as [[[] e] offset'].
      * apply IH in H as (Hf & Hr & Ho & new & Hn). cbn in Hf, Hr, Ho, Hn.
        repeat split; try assumption. exists ([EventGroup e] ++ new).
        now rewrite Hn, app_assoc.
      * injection H as <- <-; exact Hself.
    + now apply IH in H.
Qed.

Lemma eventgroup_entries_size (es : list EventGroupEntry) :
  vsize (concat (map EventGroupEntry_serialize es)) = 16 * vsize es.
Proof.
  induction es as [|e es IH]; [reflexivity|].
  cbn [map concat]. rewrite vsize_app, IH.
  change (vsize (EventGroupEntry_serialize e)) with 16.
  unfold vsize. cbn [Datatypes.length]. lia.
Qed.

Lemma deserialize_eventgroup_entries (es : list EventGroupEntry) :
  forall (pre : list Z) (self : SdMessage) (length : Z) (fuel : nat),
  Forall eventgroup_entry_ok es ->
  8 <= vsize pre -> length = vsize pre - 8 + 16 * vsize es ->
  (Datatypes.length es < fuel)%nat ->
  deserialize_entries fuel (pre ++ concat (map EventGroupEntry_serialize es)) length
    self (vsize pre) (16 * vsize es)
  = Some (true,
          mkSdMessage (flags_ self) (reserved_ self)
            (entries_ self ++ map (fun e => EventGroup (read_back e)) es)
            (options_ self)).
Proof.
  induction es as [|e es IH]; intros pre self length fuel Hok Hpre Hlen Hfuel.
  - destruct fuel as [|fuel]; [simpl in Hfuel; lia|].
    cbn. rewrite !app_nil_r. destruct self; reflexivity.
  - apply Forall_cons_1 in Hok as [He Hes].
    destruct fuel as [|fuel]; [simpl in Hfuel; lia|].
    cbn [deserialize_entries map concat].
    assert (Hn : vsize (e :: es) = 1 + vsize es) by (unfold vsize; cbn [Datatypes.length]; lia).
    pose proof (vsize_nonneg es) as Hnn.
    rewrite (proj2 (Z.gtb_lt _ _)) by lia. cbn [negb].
    assert (Hfit : (vsize pre + 1
                    >? vsize (pre ++ EventGroupEntry_serialize e
                              ++ concat (map EventGroupEntry_serialize es))) = false)
      by (apply fits; unfold vsize; simpl; lia).
    rewrite Hfit.
    assert (Hat : at_ (pre ++ EventGroupEntry_serialize e
                       ++ concat (map EventGroupEntry_serialize es)) (vsize pre)
                  = type_ (eg_base e))
      by (rewrite at_app_0; reflexivity).
    rewrite Hat.
    destruct He as (Hty & Hrest).
    assert (Hraw : ((type_ (eg_base e) =? 0) || (type_ (eg_base e) =? 1)) = false
                   /\ ((type_ (eg_base e) =? 6) || (type_ (eg_base e) =? 7)) = true).
    { destruct Hty as [-> | ->]; split; reflexivity. }
    destruct Hraw as [-> ->].
    rewrite EventGroupEntry_read_back by (split; assumption).
    rewrite (proj2 (Z.geb_le _ _)) by lia.
    rewrite (proj2 (Z.leb_le _ _)) by lia.
    replace (length - (vsize pre + 16 - 8)) with (16 * vsize es) by lia.
    replace (vsize pre + 16) with (vsize (pre ++ EventGroupEntry_serialize e))
      by (rewrite vsize_app; reflexivity).
    rewrite app_assoc.
    rewrite (IH (pre ++ EventGroupEntry_serialize e) _ length fuel Hes).
    + unfold add_entry. cbn [flags_ reserved_ entries_ options_ map].
      now rewrite <- app_assoc.
    + rewrite vsize_app. pose proof (vsize_nonneg (EventGroupEntry_serialize e)). lia.
    + rewrite vsize_app. change (vsize (EventGroupEntry_serialize e)) with 16. lia.
    + simpl in Hfuel. lia.
Qed.
Lemma reserved_decode_encode (v : Z) :
  0 <= v < 2 ^ 24 ->
  to_uint32 (Z.lor (Z.lor (Z.shiftl (Z.land (Z.shiftr v 16) 0xFF) 16)
                          (Z.shiftl (Z.land (Z.shiftr v 8) 0xFF) 8))
                   (Z.land v 0xFF)) = v.
Proof.
  intros Hv.
  assert (E : Z.lor (Z.lor (Z.shiftl (Z.land (Z.shiftr v 16) 0xFF) 16)
                          (Z.shiftl (Z.land (Z.shiftr v 8) 0xFF) 8))
                   (Z.land v 0xFF) = v).
  { change 0xFF with (Z.ones 8). Z.bitblast; bits_done. }
  rewrite E. apply to_uint32_small. lia.
Qed.

Lemma eventgroup_message_bytes (m : SdMessage) (es : list EventGroupEntry) :
  entries_ m = map EventGroup es -> options_ m = [] ->
  16 * vsize es < 2 ^ 32 ->
  SdMessage_serialize m
  = [ flags_ m; Z.land (Z.shiftr (reserved_ m) 16) 0xFF;
      Z.land (Z.shiftr (reserved_ m) 8) 0xFF; Z.land (reserved_ m) 0xFF ]
    ++ htonl_bytes (16 * vsize es)
    ++ concat (map EventGroupEntry_serialize es).
Proof.
  intros He Ho Hn. unfold SdMessage_serialize. rewrite He, Ho.
  rewrite map_map. cbn [map concat serialize_entry].
  rewrite app_nil_r.
  replace (map (fun x => serialize_entry (EventGroup x)) es)
    with (map EventGroupEntry_serialize es) by reflexivity.
  rewrite vsize_app, eventgroup_entries_size.
  change (vsize [flags_ m; _; _; _; 0; 0; 0; 0]) with 8.
  replace (8 + 16 * vsize es - 8) with (16 * vsize es) by lia.
  pose proof (vsize_nonneg es).
  rewrite to_uint32_small by lia.
  reflexivity.
Qed.

Lemma eventgroup_message_read (self m : SdMessage) (es : list EventGroupEntry) :
  entries_ m = map EventGroup es -> options_ m = [] ->
  Forall eventgroup_entry_ok es ->
  is_uint8 (flags_ m) -> 0 <= reserved_ m < 2 ^ 24 -> 16 * vsize es < 2 ^ 32 ->
  SdMessage_deserialize self (SdMessage_serialize m)
  = Some (true,
          mkSdMessage (flags_ m) (reserved_ m)
            (entries_ self ++ map (fun e => EventGroup (read_back e)) es)
            (options_ self)).
Proof.
  intros He Ho Hok Hf Hr Hn. pose proof (vsize_nonneg es) as Hnn.
  rewrite (eventgroup_message_bytes m es He Ho Hn).
  set (data := _ ++ _ ++ _).
  assert (Hsz : vsize data = 8 + 16 * vsize es).
  { subst data. rewrite !vsize_app, eventgroup_entries_size.
    change (vsize (htonl_bytes (16 * vsize es))) with 4.
    change (vsize [flags_ m; _; _; _]) with 4. lia. }
  unfold SdMessage_deserialize. rewrite Hsz.
  rewrite (proj2 (Z.ltb_ge _ _)) by lia.
  cbv zeta.
  assert (Hflags : at_ data 0 = flags_ m) by reflexivity.
  assert (Hres : to_uint32 (Z.lor (Z.lor (Z.shiftl (at_ data (0 + 1)) 16)
                                         (Z.shiftl (at_ data (0 + 1 + 1)) 8))
                                  (at_ data (0 + 1 + 2))) = reserved_ m)
    by (apply reserved_decode_encode; exact Hr).
  assert (Hlen : be32_at data (0 + 1 + 3) = 16 * vsize es).
  { unfold be32_at, at_. change (0 + 1 + 3) with 4. change (4 + 1) with 5.
    change (4 + 2) with 6. change (4 + 3) with 7.
    nat_offsets. subst data. unfold htonl_bytes. cbn [app nth].
    rewrite be32_decode_encode by lia. apply to_uint32_small. lia. }
  rewrite Hflags, Hres, Hlen.
  rewrite gtb_false by lia.
  change (0 + 1 + 3 + 4) with (vsize [ flags_ m; Z.land (Z.shiftr (reserved_ m) 16) 0xFF;
      Z.land (Z.shiftr (reserved_ m) 8) 0xFF; Z.land (reserved_ m) 0xFF;
      Z.land (Z.shiftr (16 * vsize es) 24) 0xFF; Z.land (Z.shiftr (16 * vsize es) 16) 0xFF;
      Z.land (Z.shiftr (16 * vsize es) 8) 0xFF; Z.land (16 * vsize es) 0xFF ]).
  subst data.
  change ([flags_ m; Z.land (Z.shiftr (reserved_ m) 16) 0xFF;
           Z.land (Z.shiftr (reserved_ m) 8) 0xFF; Z.land (reserved_ m) 0xFF]
          ++ htonl_bytes (16 * vsize es) ++ concat (map EventGroupEntry_serialize es))
    with ([ flags_ m; Z.land (Z.shiftr (reserved_ m) 16) 0xFF;
      Z.land (Z.shiftr (reserved_ m) 8) 0xFF; Z.land (reserved_ m) 0xFF;
      Z.land (Z.shiftr (16 * vsize es) 24) 0xFF; Z.land (Z.shiftr (16 * vsize es) 16) 0xFF;
      Z.land (Z.shiftr (16 * vsize es) 8) 0xFF; Z.land (16 * vsize es) 0xFF ]
          ++ concat (map EventGroupEntry_serialize es)).
  rewrite deserialize_eventgroup_entries; try assumption.
  - reflexivity.
  - change (vsize [_; _; _; _; _; _; _; _]) with 8. lia.
  - change (vsize [_; _; _; _; _; _; _; _]) with 8. lia.
  - pose proof (eventgroup_entries_size es) as Hc. unfold vsize in Hc.
    rewrite length_app. cbn [Datatypes.length]. lia.
Qed.
(** X13.  An eventgroup entry does not survive its own codec unchanged.
    [EventGroupEntry::deserialize] accepts the sixteen bytes that
    [EventGroupEntry::serialize] wrote and consumes all of them; type, both
    indexes, TTL and eventgroup id come back as written, but the service id
    and the instance id come back shifted by one byte (the writer puts them
    at bytes 4-7, the reader takes them from bytes 5-8) and the major
    version comes back as 0. *)
Theorem eventgroup_entry_read_back (self e : EventGroupEntry) (pre rest : list Z) :
  eventgroup_entry_ok e ->
  EventGroupEntry_deserialize self (pre ++ EventGroupEntry_serialize e ++ rest) (vsize pre)
  = (true, read_back e, vsize pre + 16).
Proof. apply EventGroupEntry_read_back. Qed.

Lemma eventgroup_entry_read_back_witness :
  EventGroupEntry_deserialize EventGroupEntry_default
    ([] ++ EventGroupEntry_serialize subscribe ++ []) (vsize (@nil Z))
  = (true, read_back subscribe, vsize (@nil Z) + 16).
Proof.
  apply (eventgroup_entry_read_back EventGroupEntry_default subscribe [] []).
  unfold eventgroup_entry_ok. cbn. repeat split; lia.
Defined.



(** X15.  [SdMessage::deserialize] never clears or creates anything but
    entries at the end: on every input it returns, the flags and the
    reserved field apart, an object whose options are those it held before
    and whose entries are those it held before followed by the entries it
    parsed; it never builds an option.  On fewer than 8 bytes it returns
    false and leaves the object as it was. *)
Theorem sd_deserialize_only_appends (self : SdMessage) (data : list Z) :
  exists (r : bool) (m : SdMessage) (new : list entry),
    SdMessage_deserialize self data = Some (r, m)
    /\ options_ m = options_ self
    /\ entries_ m = entries_ self ++ new
    /\ (vsize data < 8 -> r = false /\ m = self).
Proof.
  unfold SdMessage_deserialize.
  destruct (vsize data <? 8) eqn:E8.
  - exists false, self, []. rewrite app_nil_r. repeat split.
  - apply Z.ltb_ge in E8. cbv zeta.
    destruct (_ >? vsize data).
    + eexists false, _, []. rewrite app_nil_r. split; [reflexivity|].
      repeat split; lia.
    + match goal with
      | |- context [deserialize_entries ?f ?d ?l ?s ?o ?r] =>
          destruct (deserialize_entries_total d l f s o r) as [[r' m'] Hr];
            [lia | unfold vsize; lia | ]
      end.
      rewrite Hr.
      apply deserialize_entries_appends in Hr as (_ & _ & Ho & new & Hn).
      exists r', m', new. repeat split; try assumption; lia.
Qed.
End SdMore.

Section SdOptionCodec.
Import Wire SdOptions.

Ltac nat_offsets :=
  repeat match goal with
  | |- context [Z.to_nat (Zpos ?p)] =>
      let n := eval cbv in (Z.to_nat (Zpos p)) in change (Z.to_nat (Zpos p)) with n
  end.
Ltac offsets pre :=
  repeat match goal with
  | |- context [vsize pre + Zpos ?a + Zpos ?b] =>
      let c := eval cbv in (Zpos a + Zpos b) in
      replace (vsize pre + Zpos a + Zpos b) with (vsize pre + c) by lia
  end.

Lemma IPv4MulticastOption_bytes (o : IPv4MulticastOption) :
  IPv4MulticastOption_serialize o
  = [ type_ (mc_base o); 0; 0; 7;
      Z.land (Z.shiftr (mc_ipv4_address_ o) 24) 0xFF;
      Z.land (Z.shiftr (mc_ipv4_address_ o) 16) 0xFF;
      Z.land (Z.shiftr (mc_ipv4_address_ o) 8) 0xFF;
      Z.land (mc_ipv4_address_ o) 0xFF;
      0;
      Z.land (Z.shiftr (mc_port_ o) 8) 0xFF; Z.land (mc_port_ o) 0xFF ].
Proof. reflexivity. Qed.

Lemma IPv4EndpointOption_bytes (o : IPv4EndpointOption) :
  IPv4EndpointOption_serialize o
  = [ type_ (ep_base o); 0; 0; 9;
      Z.land (Z.shiftr (ep_ipv4_address_ o) 24) 0xFF;
      Z.land (Z.shiftr (ep_ipv4_address_ o) 16) 0xFF;
      Z.land (Z.shiftr (ep_ipv4_address_ o) 8) 0xFF;
      Z.land (ep_ipv4_address_ o) 0xFF;
      0; ep_protocol_ o;
      Z.land (Z.shiftr (ep_port_ o) 8) 0xFF; Z.land (ep_port_ o) 0xFF ].
Proof. reflexivity. Qed.

Lemma be16_bytes (v : Z) :
  0 <= v < 2 ^ 16 ->
  to_uint16 (Z.lor (Z.shiftl (Z.land (Z.shiftr v 8) 0xFF) 8) (Z.land v 0xFF)) = v.
Proof. intros Hv. rewrite be16_decode_encode by lia. apply to_uint16_small. lia. Qed.

Lemma be32_bytes (v : Z) :
  0 <= v < 2 ^ 32 ->
  to_uint32 (Z.lor (Z.lor (Z.lor (Z.shiftl (Z.land (Z.shiftr v 24) 0xFF) 24)
                                 (Z.shiftl (Z.land (Z.shiftr v 16) 0xFF) 16))
                          (Z.shiftl (Z.land (Z.shiftr v 8) 0xFF) 8))
                   (Z.land v 0xFF)) = v.
Proof. intros Hv. rewrite be32_decode_encode by lia. apply to_uint32_small. lia. Qed.

(** X16.  A multicast option survives its codec: whatever precedes and
    follows it in the buffer, [IPv4MulticastOption::deserialize] accepts
    the eleven bytes that [serialize] wrote, restores type, address and
    port, sets the length member to the 7 that [serialize] always writes,
    and consumes exactly those eleven bytes. *)
Theorem multicast_option_round_trip (self o : IPv4MulticastOption)
    (pre rest : list Z) :
  is_uint32 (mc_ipv4_address_ o) -> is_uint16 (mc_port_ o) ->
  IPv4MulticastOption_deserialize self
    (pre ++ IPv4MulticastOption_serialize o ++ rest) (vsize pre)
  = (true,
     mkIPv4MulticastOption (mkSdOption (type_ (mc_base o)) 7)
       (mc_ipv4_address_ o) (mc_port_ o),
     vsize pre + 11).
Proof.
  unfold is_uint32, is_uint16. intros Ha Hp.
  rewrite IPv4MulticastOption_bytes.
  unfold IPv4MulticastOption_deserialize, SdOption_deserialize.
  rewrite fits by (unfold vsize; simpl; lia).
  unfold Sd.be16_at, Sd.be32_at. offsets pre.
  rewrite ?at_app_0, ?at_app by lia. nat_offsets. cbn [app nth].
  change (to_uint16 (Z.lor (Z.shiftl 0 8) 7)) with 7.
  cbn [length_]. offsets pre.
  rewrite gtb_false by (unfold vsize; rewrite length_app; simpl length; lia).
  rewrite be32_bytes, be16_bytes by lia.
  reflexivity.
Qed.

Lemma multicast_option_round_trip_witness :
  IPv4MulticastOption_deserialize IPv4MulticastOption_default
    ([1; 2] ++ IPv4MulticastOption_serialize multicast_option ++ []) (vsize [1; 2])
  = (true,
     mkIPv4MulticastOption (mkSdOption (type_ (mc_base multicast_option)) 7)
       (mc_ipv4_address_ multicast_option) (mc_port_ multicast_option),
     vsize [1; 2] + 11).
Proof.
  apply (multicast_option_round_trip IPv4MulticastOption_default multicast_option
           [1; 2] []); in_range.
Defined.

(** X17.  An endpoint option survives its codec only when at least one
    more byte follows it.  [IPv4EndpointOption::serialize] writes twelve
    bytes and the length 9; [deserialize] wants 4 + 9 bytes to be there.
    Followed by a byte, the option is accepted, type, address, protocol and
    port are restored, the length member is 9 and twelve bytes are
    consumed; at the very end of the buffer it is rejected, after the four
    header bytes have been consumed and type and length overwritten. *)
Theorem endpoint_option_needs_a_following_byte (self o : IPv4EndpointOption)
    (pre rest : list Z) :
  is_uint32 (ep_ipv4_address_ o) -> is_uint16 (ep_port_ o) ->
  (rest <> [] ->
   IPv4EndpointOption_deserialize self
     (pre ++ IPv4EndpointOption_serialize o ++ rest) (vsize pre)
   = (true,
      mkIPv4EndpointOption (mkSdOption (type_ (ep_base o)) 9)
        (ep_protocol_ o) (ep_ipv4_address_ o) (ep_port_ o),
      vsize pre + 12))
  /\ IPv4EndpointOption_deserialize self
       (pre ++ IPv4EndpointOption_serialize o) (vsize pre)
     = (false,
        mkIPv4EndpointOption (mkSdOption (type_ (ep_base o)) 9)
          (ep_protocol_ self) (ep_ipv4_address_ self) (ep_port_ self),
        vsize pre + 4).
Proof.
  unfold is_uint32, is_uint16. intros Ha Hp. split.
  - intros Hrest.
    assert (Hr : 1 <= vsize rest).
    { destruct rest; [congruence|]. unfold vsize. simpl. lia. }
    rewrite IPv4EndpointOption_bytes.
    unfold IPv4EndpointOption_deserialize, SdOption_deserialize.
    rewrite fits by (unfold vsize; simpl; lia).
    unfold Sd.be16_at, Sd.be32_at. offsets pre.
    rewrite ?at_app_0, ?at_app by lia. nat_offsets. cbn [app nth].
    change (to_uint16 (Z.lor (Z.shiftl 0 8) 9)) with 9.
    cbn [length_]. offsets pre.
    rewrite gtb_false by (unfold vsize in *; rewrite length_app; simpl length; lia).
    rewrite be32_bytes, be16_bytes by lia.
    reflexivity.
  - rewrite <- (app_nil_r (IPv4EndpointOption_serialize o)).
    rewrite IPv4EndpointOption_bytes.
    unfold IPv4EndpointOption_deserialize, SdOption_deserialize.
    rewrite fits by (unfold vsize; simpl; lia).
    unfold Sd.be16_at. offsets pre.
    rewrite ?at_app_0, ?at_app by lia. nat_offsets. cbn [app nth].
    change (to_uint16 (Z.lor (Z.shiftl 0 8) 9)) with 9.
    cbn [length_]. offsets pre.
    rewrite (proj2 (Z.gtb_lt _ _))
      by (unfold vsize; rewrite length_app; simpl length; lia).
    reflexivity.
Qed.

Lemma endpoint_option_needs_a_following_byte_witness :
  ([0] <> [] ->
   IPv4EndpointOption_deserialize IPv4EndpointOption_default
     ([] ++ IPv4EndpointOption_serialize endpoint_option ++ [0]) (vsize (@nil Z))
   = (true,
      mkIPv4EndpointOption (mkSdOption (type_ (ep_base endpoint_option)) 9)
        (ep_protocol_ endpoint_option) (ep_ipv4_address_ endpoint_option)
        (ep_port_ endpoint_option),
      vsize (@nil Z) + 12))
  /\ IPv4EndpointOption_deserialize IPv4EndpointOption_default
       ([] ++ IPv4EndpointOption_serialize endpoint_option) (vsize (@nil Z))
     = (false,
        mkIPv4EndpointOption (mkSdOption (type_ (ep_base endpoint_option)) 9)
          (ep_protocol_ IPv4EndpointOption_default)
          (ep_ipv4_address_ IPv4EndpointOption_default)
          (ep_port_ IPv4EndpointOption_default),
        vsize (@nil Z) + 4).
Proof.
  apply (endpoint_option_needs_a_following_byte IPv4EndpointOption_default
           endpoint_option [] [0]); in_range.
Defined.
End SdOptionCodec.


Section SdFlagBits.
Import Wire Sd SdFlags.

Lemma flag_bit (f k : Z) :
  0 <= k -> negb (Z.land f (2 ^ k) =? 0) = Z.testbit f k.
Proof.
  intros Hk. destruct (Z.testbit f k) eqn:E.
  - apply negb_true_iff, Z.eqb_neq. intros H0.
    assert (Hb : Z.testbit (Z.land f (2 ^ k)) k = true)
      by (rewrite Z.land_spec, E, Z.pow2_bits_true by lia; reflexivity).
    rewrite H0, Z.bits_0 in Hb. discriminate.
  - apply negb_false_iff, Z.eqb_eq. apply Z.bits_inj'. intros n Hn.
    rewrite Z.land_spec, Z.bits_0, Z.pow2_bits_eqb by lia.
    destruct (Z.eqb_spec k n) as [->|]; [now rewrite E | apply andb_false_r].
Qed.

Lemma to_uint8_bit (x n : Z) :
  0 <= n -> Z.testbit (to_uint8 x) n = Z.testbit x n && (n <? 8).
Proof.
  intros Hn. unfold to_uint8. rewrite <- Z.land_ones by lia.
  rewrite Z.land_spec. f_equal. rewrite Z.testbit_ones by lia.
  destruct (Z.leb_spec 0 n); [reflexivity | lia].
Qed.

(** X18.  The flag helpers of an SD message are independent of each other:
    [set_reboot] sets or clears bit 7 of the flags, which is what
    [is_reboot] reads, and leaves every other bit, the unicast bit among
    them, as it was; [set_unicast] does the same for bit 6. *)
Theorem reboot_and_unicast_flags (m : SdMessage) (value : bool) :
  is_uint8 (flags_ m) ->
  is_reboot (set_reboot m value) = value
  /\ is_unicast (set_unicast m value) = value
  /\ (forall n : Z, n <> 7 ->
        Z.testbit (flags_ (set_reboot m value)) n = Z.testbit (flags_ m) n)
  /\ (forall n : Z, n <> 6 ->
        Z.testbit (flags_ (set_unicast m value)) n = Z.testbit (flags_ m) n)
  /\ is_unicast (set_reboot m value) = is_unicast m
  /\ is_reboot (set_unicast m value) = is_reboot m.
Proof.
  unfold is_uint8. intros Hf.
  assert (Hbit : forall (k : Z) (value : bool) (j : Z),
            0 <= k < 8 -> 0 <= j ->
            Z.testbit (to_uint8 (if value then Z.lor (flags_ m) (2 ^ k)
                                 else Z.land (flags_ m) (Z.lnot (2 ^ k)))) j
            = if j =? k then value else Z.testbit (flags_ m) j).
  { intros k v j Hk Hj. rewrite to_uint8_bit by lia.
    destruct v.
    - rewrite Z.lor_spec, Z.pow2_bits_eqb by lia.
      rewrite (Z.eqb_sym k j).
      destruct (Z.eqb_spec j k) as [->|Hne].
      + rewrite orb_true_r. cbn. apply Z.ltb_lt. lia.
      + rewrite orb_false_r. destruct (Z.ltb_spec j 8); [apply andb_true_r|].
        rewrite (testbit_above (flags_ m) 8 j) by lia. reflexivity.
    - rewrite Z.land_spec, Z.lnot_spec, Z.pow2_bits_eqb by lia.
      rewrite (Z.eqb_sym k j).
      destruct (Z.eqb_spec j k) as [->|Hne].
      + cbn. now rewrite andb_false_r.
      + cbn. rewrite andb_true_r. destruct (Z.ltb_spec j 8); [apply andb_true_r|].
        rewrite (testbit_above (flags_ m) 8 j) by lia. reflexivity. }
  assert (Hreboot : forall j, 0 <= j ->
            Z.testbit (flags_ (set_reboot m value)) j
            = if j =? 7 then value else Z.testbit (flags_ m) j).
  { intros j Hj. unfold set_reboot.
    replace (flags_ (if value then set_flags m (to_uint8 (Z.lor (flags_ m) 128))
                     else set_flags m (to_uint8 (Z.land (flags_ m) (Z.lnot 128)))))
      with (to_uint8 (if value then Z.lor (flags_ m) (2 ^ 7)
                      else Z.land (flags_ m) (Z.lnot (2 ^ 7))))
      by (destruct value; reflexivity).
    apply Hbit; lia. }
  assert (Hunicast : forall j, 0 <= j ->
            Z.testbit (flags_ (set_unicast m value)) j
            = if j =? 6 then value else Z.testbit (flags_ m) j).
  { intros j Hj. unfold set_unicast.
    replace (flags_ (if value then set_flags m (to_uint8 (Z.lor (flags_ m) 64))
                     else set_flags m (to_uint8 (Z.land (flags_ m) (Z.lnot 64)))))
      with (to_uint8 (if value then Z.lor (flags_ m) (2 ^ 6)
                      else Z.land (flags_ m) (Z.lnot (2 ^ 6))))
      by (destruct value; reflexivity).
    apply Hbit; lia. }
  unfold is_reboot, is_unicast.
  change 128 with (2 ^ 7). change 64 with (2 ^ 6).
  rewrite !flag_bit by lia.
  rewrite !Hreboot, !Hunicast by lia. cbn [Z.eqb Pos.eqb].
  repeat split.
  - intros n Hn. destruct (Z_lt_dec n 0) as [Hneg|Hpos].
    + now rewrite !Z.testbit_neg_r by lia.
    + rewrite Hreboot by lia. now rewrite (proj2 (Z.eqb_neq n 7) Hn).
  - intros n Hn. destruct (Z_lt_dec n 0) as [Hneg|Hpos].
    + now rewrite !Z.testbit_neg_r by lia.
    + rewrite Hunicast by lia. now rewrite (proj2 (Z.eqb_neq n 6) Hn).
Qed.

Lemma reboot_and_unicast_flags_witness :
  is_reboot (set_reboot two_subscriptions false) = false
  /\ is_unicast (set_unicast two_subscriptions false) = false
  /\ (forall n : Z, n <> 7 ->
        Z.testbit (flags_ (set_reboot two_subscriptions false)) n
        = Z.testbit (flags_ two_subscriptions) n)
  /\ (forall n : Z, n <> 6 ->
        Z.testbit (flags_ (set_unicast two_subscriptions false)) n
        = Z.testbit (flags_ two_subscriptions) n)
  /\ is_unicast (set_reboot two_subscriptions false) = is_unicast two_subscriptions
  /\ is_reboot (set_unicast two_subscriptions false) = is_reboot two_subscriptions.
Proof.
  apply (reboot_and_unicast_flags two_subscriptions false). in_range.
Defined.
End SdFlagBits.

(* ------------------------------------------------------------------ *)
(** ** Transport protocol: more about segments, buffers and transfers *)

Section SegmenterMore.
Import Wire Tp.

Lemma slice_skipn (P : list Z) (po mss : Z) :
  0 <= po -> 0 <= mss ->
  slice P po (po + mss) ++ skipn (Z.to_nat (po + mss)) P = skipn (Z.to_nat po) P.
Proof.
  intros Hpo Hmss. unfold slice.
  replace (po + mss - po) with mss by lia.
  replace (Z.to_nat (po + mss)) with (Z.to_nat po + Z.to_nat mss)%nat by lia.
  rewrite <- drop_drop. apply take_drop.
Qed.

Lemma tail_segments_concat (mss : Z) (P : list Z) (seq po : Z) (l : list TpSegment) :
  tail_segments mss P seq po l -> 0 <= po -> 1 <= mss ->
  concat (map payload l) = skipn (Z.to_nat po) P
  /\ Forall (fun s => vsize (payload s) <= mss
                      /\ segment_length (header s) = vsize (payload s)) l
  /\ vsize l = (vsize P - po + mss - 1) / mss.
Proof.
  intros Ht Hpo Hmss. induction Ht as [po Hlt Hle | po rest Hgt Ht IH].
  - pose proof (vsize_nonneg P) as HP.
    assert (Hsl : vsize (slice P po (vsize P)) = vsize P - po)
      by (apply slice_length; lia).
    repeat split.
    + cbn [map concat payload]. rewrite app_nil_r. unfold slice.
      apply take_ge. rewrite length_drop. unfold vsize. lia.
    + apply Forall_cons_2; [|apply Forall_nil_2]. cbn [payload header segment_length].
      lia.
    + change (vsize [_]) with 1.
      apply Z.div_unique with (vsize P - po - 1); lia.
  - destruct (IH ltac:(lia)) as (Hc & Hf & Hn).
    pose proof (vsize_nonneg P) as HP.
    assert (Hsl : vsize (slice P po (po + mss)) = mss)
      by (rewrite slice_length; lia).
    repeat split.
    + cbn [map concat payload]. rewrite Hc. apply slice_skipn; lia.
    + apply Forall_cons_2; [|exact Hf]. cbn [payload header segment_length]. lia.
    + replace (vsize (_ :: rest)) with (1 + vsize rest)
        by (unfold vsize; cbn [length]; lia).
      rewrite Hn.
      replace (vsize P - po + mss - 1) with (vsize P - (po + mss) + mss - 1 + 1 * mss)
        by lia.
      rewrite Z.div_add by lia. lia.
Qed.

(** X19.  The segments of a split message carry the message exactly once.
    Under the conditions of a split that returns (16 <= max_segment_size <
    N <= 65535, N <= max_message_size), the first segment starts with the 16
    header bytes of the serialized message, and the bytes after them followed
    by the payloads of the other segments, in order, are the payload of the
    message; no segment payload is longer than max_segment_size, every
    [segment_length] is the size of the segment's payload, and the number of
    segments is 1 + (N + 15) / max_segment_size. *)
Theorem split_segments_partition_payload (fuel : nat) (self : TpSegmenter)
    (message : Message.t) (segments : list TpSegment) :
  16 <= max_segment_size (config_ self) ->
  max_segment_size (config_ self) < vsize (Message.payload_ message) <= 65535 ->
  vsize (Message.payload_ message) <= max_message_size (config_ self) ->
  vsize (Message.payload_ message) < Z.of_nat fuel ->
  exists (self' : TpSegmenter) (first : TpSegment) (rest : list TpSegment),
    segment_message fuel self message segments
    = Some (SUCCESS, self', segments ++ first :: rest)
    /\ firstn 16 (payload first) = firstn 16 (Message.serialize message)
    /\ skipn 16 (payload first) ++ concat (map payload rest) = Message.payload_ message
    /\ Forall (fun s => vsize (payload s) <= max_segment_size (config_ self)
                        /\ segment_length (header s) = vsize (payload s))
              (first :: rest)
    /\ vsize (first :: rest)
       = 1 + (vsize (Message.payload_ message) + 15) / max_segment_size (config_ self).
Proof.
  intros Hmss HN Hmax Hfuel.
  destruct (segment_message_split fuel self message segments Hmss HN Hmax Hfuel)
    as (tail & Hseg & Htail).
  destruct (tail_segments_concat _ _ _ _ _ Htail ltac:(lia) ltac:(lia))
    as (Hc & Hf & Hn).
  set (P := Message.payload_ message) in *.
  set (mss := max_segment_size (config_ self)) in *.
  assert (Hhdr : length (firstn 16 (Message.serialize message)) = 16%nat).
  { rewrite length_take. pose proof (serialize_size message) as Hs.
    unfold vsize, Message.HEADER_SIZE in Hs. lia. }
  eexists _, _, tail. split; [exact Hseg|].
  unfold first_segment. cbn [payload header segment_length].
  split; [|split; [|split]].
  - rewrite take_app_length'; [reflexivity | exact Hhdr].
  - rewrite drop_app_length'; [|exact Hhdr]. rewrite Hc. apply take_drop.
  - apply Forall_cons_2; [|exact Hf]. cbn [payload header segment_length].
    rewrite vsize_app. unfold vsize. rewrite Hhdr, length_take.
    fold P. unfold vsize in HN. lia.
  - replace (vsize (_ :: tail)) with (1 + vsize tail)
      by (unfold vsize; cbn [length]; lia).
    rewrite Hn. do 2 f_equal. lia.
Qed.

Lemma split_segments_partition_payload_witness :
  exists (self' : TpSegmenter) (first : TpSegment) (rest : list TpSegment),
    segment_message 400 (mkTpSegmenter config_100 0) message_350 []
    = Some (SUCCESS, self', [] ++ first :: rest)
    /\ firstn 16 (payload first) = firstn 16 (Message.serialize message_350)
    /\ skipn 16 (payload first) ++ concat (map payload rest)
       = Message.payload_ message_350
    /\ Forall (fun s => vsize (payload s)
                        <= max_segment_size (config_ (mkTpSegmenter config_100 0))
                        /\ segment_length (header s) = vsize (payload s))
              (first :: rest)
    /\ vsize (first :: rest)
       = 1 + (vsize (Message.payload_ message_350) + 15)
             / max_segment_size (config_ (mkTpSegmenter config_100 0)).
Proof.
  apply (split_segments_partition_payload 400 (mkTpSegmenter config_100 0)
           message_350 []).
  - vm_compute. discriminate.
  - vm_compute. split; [reflexivity | discriminate].
  - vm_compute. discriminate.
  - vm_compute. reflexivity.
Defined.
End SegmenterMore.

Section ReassemblerMore.
Import Wire Tp TpOps.

(** X20.  A FIRST_SEGMENT (or SINGLE_MESSAGE segment) without any byte is
    taken for a whole message.  When no buffer exists for its sequence
    number and it announces a message length L within [max_message_size],
    [process_segment] returns true, hands out L zero bytes as the complete
    message and leaves the reassembler as it was: the buffer it creates has
    no byte marked yet, so the empty segment counts as already received and
    the empty bitmap as complete. *)
Theorem empty_first_segment_completes (self : TpReassembler)
    (announced seq : Z) (type : TpMessageType)
    (complete_message : list Z) :
  0 <= announced <= max_message_size (r_config_ self) ->
  type = FIRST_SEGMENT \/ type = SINGLE_MESSAGE ->
  is_reassembling self seq = false ->
  process_segment self
    (mkTpSegment (mkTpSegmentHeader announced 0 0 seq type) [])
    complete_message
  = (true, self, replicate (Z.to_nat announced) 0).
Proof.
  intros HL Hty Hnew.
  assert (Hnone : reassembly_buffers_ self !! seq = None).
  { unfold is_reassembling in Hnew. apply bool_decide_eq_false in Hnew.
    destruct (reassembly_buffers_ self !! seq) eqn:E; [|reflexivity].
    exfalso. apply Hnew. eauto. }
  unfold process_segment, validate_segment, find_or_create_buffer.
  cbn [header payload segment_length message_length segment_offset
       sequence_number message_type].
  change (vsize []) with 0. change (0 =? 0) with true. cbn [negb].
  rewrite !gtb_false by lia.
  rewrite Hnone.
  assert (Hbranch :
    match type with
    | FIRST_SEGMENT | SINGLE_MESSAGE =>
        (Some seq,
         mkTpReassembler (r_config_ self)
           (<[seq :=
                TpReassemblyBuffer_make seq announced]>
              (reassembly_buffers_ self)))
    | _ => (None, self)
    end
    = (Some seq,
       mkTpReassembler (r_config_ self)
         (<[seq :=
              TpReassemblyBuffer_make seq announced]>
            (reassembly_buffers_ self)))).
  { destruct Hty as [-> | ->]; reflexivity. }
  rewrite Hbranch. cbn [reassembly_buffers_ r_config_].
  rewrite lookup_insert_eq.
  unfold add_segment_to_buffer, is_segment_received.
  cbn [header segment_offset segment_length].
  change (Z.to_nat 0) with 0%nat. cbn [List.seq forallb].
  unfold is_complete, get_complete_message, is_complete, TpReassemblyBuffer_make.
  cbn [complete received_segments forallb andb negb message_id total_length
       received_data last_sequence_number].
  rewrite !insert_insert_eq, delete_insert_eq. rewrite delete_id by exact Hnone.
  destruct self; reflexivity.
Qed.

Lemma empty_first_segment_completes_witness :
  process_segment (TpReassembler_make TpConfig_default) empty_first_segment [9; 9]
  = (true, TpReassembler_make TpConfig_default, replicate (Z.to_nat 5) 0).
Proof.
  apply (empty_first_segment_completes (TpReassembler_make TpConfig_default)
           5 3 FIRST_SEGMENT [9; 9]).
  - vm_compute. split; discriminate.
  - now left.
  - reflexivity.
Defined.
Lemma gtb_false_le (a b : Z) : (a >? b) = false -> a <= b.
Proof. rewrite Z.gtb_ltb. apply Z.ltb_ge. Qed.

Lemma copy_at_idem (src dst : list Z) (offset : Z) :
  0 <= offset -> offset + vsize src <= vsize dst ->
  copy_at src (copy_at src dst offset) offset = copy_at src dst offset.
Proof.
  intros Ho Hb.
  assert (Hl : length (copy_at src dst offset) = length dst)
    by now apply copy_at_length.
  apply list_eq. intros j.
  rewrite (copy_at_lookup src (copy_at src dst offset))
    by (unfold vsize in *; rewrite ?Hl; lia).
  rewrite copy_at_lookup by assumption.
  destruct (decide _); reflexivity.
Qed.

Lemma mark_loop_idem (offset : Z) (n : nat) (bits : list bool) :
  mark_loop offset n (mark_loop offset n bits) = mark_loop offset n bits.
Proof.
  apply list_eq. intros j. rewrite !mark_loop_lookup.
  destruct (decide _); [|reflexivity].
  destruct (bits !! j); reflexivity.
Qed.

Lemma mark_segment_received_idem (b : TpReassemblyBuffer) (offset length : Z) :
  mark_segment_received (mark_segment_received b offset length) offset length
  = mark_segment_received b offset length.
Proof.
  unfold mark_segment_received. cbn [received_segments total_length message_id
    received_data last_sequence_number complete].
  f_equal.
  set (bits := if vsize (received_segments b) <? total_length b then _ else _).
  assert (Hlen : (vsize (mark_loop offset (Z.to_nat length) bits) <? total_length b)
                 = false).
  { apply Z.ltb_ge. unfold vsize. rewrite mark_loop_length. subst bits.
    destruct (Z.ltb_spec (vsize (received_segments b)) (total_length b)) as [Hlt|Hge].
    - rewrite length_resize. lia.
    - exact Hge. }
  rewrite Hlen. apply mark_loop_idem.
Qed.

Lemma mark_segment_received_fields (b : TpReassemblyBuffer) (offset length : Z) :
  message_id (mark_segment_received b offset length) = message_id b
  /\ total_length (mark_segment_received b offset length) = total_length b
  /\ received_data (mark_segment_received b offset length) = received_data b
  /\ complete (mark_segment_received b offset length) = complete b.
Proof. repeat split. Qed.

(** What [add_segment_to_buffer] does to a buffer when it goes past the two
    checks: the bytes it copies and where, then the marks and the sequence
    number. *)
Lemma add_segment_to_buffer_fields (b b' : TpReassemblyBuffer) (s : TpSegment) (r : bool) :
  add_segment_to_buffer b s = (r, b') ->
  message_id b' = message_id b /\ total_length b' = total_length b
  /\ complete b' = complete b
  /\ (segment_length (header s) = vsize (payload s) ->
      0 <= segment_offset (header s) ->
      vsize (received_data b) = total_length b ->
      vsize (received_data b') = total_length b').
Proof.
  unfold add_segment_to_buffer. cbv zeta.
  destruct (is_segment_received b _ _).
  { intros [= <- <-]. repeat split. auto. }
  destruct (_ >? total_length b) eqn:Eb.
  { intros [= <- <-]. repeat split. auto. }
  apply gtb_false_le in Eb.
  pose proof (vsize_nonneg (payload s)) as Hp.
  destruct (message_type (header s));
    try destruct (vsize (payload s) >? 16) eqn:E16;
    intros [= <- <-]; cbn [message_id total_length complete received_data
                           mark_segment_received set_received_data];
    (split; [reflexivity|]; split; [reflexivity|]; split; [reflexivity|]);
    intros Hlen Hoff Hsz; try exact Hsz;
    unfold vsize; rewrite copy_at_length; try (unfold vsize in *; lia);
    try (rewrite vsize_app || idtac).
  all: try (apply Z.gtb_lt in E16).
  all: unfold vsize in *; rewrite ?length_drop; try lia.
Qed.

Lemma marked_twice (bits : list bool) (total offset : Z) (n : nat) :
  let marked :=
    mark_loop offset n
      (if vsize bits <? total then resize (Z.to_nat total) false bits else bits) in
  mark_loop offset n
    (if vsize marked <? total then resize (Z.to_nat total) false marked else marked)
  = marked.
Proof.
  cbv zeta.
  set (bits' := if vsize bits <? total then _ else _).
  assert (Hlen : (vsize (mark_loop offset n bits') <? total) = false).
  { apply Z.ltb_ge. unfold vsize. rewrite mark_loop_length. subst bits'.
    destruct (Z.ltb_spec (vsize bits) total) as [Hlt|Hge].
    - rewrite length_resize. lia.
    - exact Hge. }
  rewrite Hlen. apply mark_loop_idem.
Qed.

Lemma add_segment_to_buffer_idem (b b' : TpReassemblyBuffer) (s : TpSegment) (r : bool) :
  segment_length (header s) = vsize (payload s) ->
  0 <= segment_offset (header s) ->
  vsize (received_data b) = total_length b ->
  add_segment_to_buffer b s = (r, b') ->
  add_segment_to_buffer b' s = (r, b').
Proof.
  intros Hlen Hoff Hsz.
  pose proof (vsize_nonneg (payload s)) as Hp.
  unfold add_segment_to_buffer at 1. cbv zeta.
  destruct (is_segment_received b _ _) eqn:E1.
  { intros [= <- <-]. unfold add_segment_to_buffer. now rewrite E1. }
  destruct (_ >? total_length b) eqn:Eb.
  { intros [= <- <-]. unfold add_segment_to_buffer. now rewrite E1, Eb. }
  pose proof (gtb_false_le _ _ Eb) as Hb.
  intros H.
  assert (Hr : r = true).
  { destruct (message_type (header s)); try destruct (vsize (payload s) >? 16);
      now injection H as <- _. }
  subst r.
  unfold add_segment_to_buffer. cbv zeta.
  destruct (is_segment_received b' _ _); [reflexivity|].
  assert (Ht : total_length b' = total_length b).
  { destruct (message_type (header s)); try destruct (vsize (payload s) >? 16);
      now injection H as <-. }
  rewrite Ht, Eb.
  destruct (message_type (header s));
    try destruct (vsize (payload s) >? 16) eqn:E16;
    injection H as <-;
    cbn [message_id total_length complete received_data received_segments
         last_sequence_number mark_segment_received set_received_data];
    f_equal; f_equal;
    try apply marked_twice;
    try (apply copy_at_idem; try lia).
  all: try apply Z.gtb_lt in E16.
  all: unfold vsize in *; rewrite ?length_drop; lia.
Qed.
Lemma process_segment_result (self : TpReassembler) (s : TpSegment)
    (complete_message : list Z) :
  process_segment self s complete_message
  = if negb (validate_segment self s) then (false, self, complete_message) else
    match buffer_for self s with
    | None => (false, self, complete_message)
    | Some b0 =>
        let '(added, b) := add_segment_to_buffer b0 s in
        if added && is_complete b then
          (true,
           mkTpReassembler (r_config_ self)
             (delete (message_id b)
                (<[sequence_number (header s) :=
                     mkTpReassemblyBuffer (message_id b) (total_length b)
                       (received_data b) (received_segments b)
                       (last_sequence_number b) true]>
                   (reassembly_buffers_ self))),
           received_data b)
        else
          (true,
           mkTpReassembler (r_config_ self)
             (<[sequence_number (header s) := b]> (reassembly_buffers_ self)),
           complete_message)
    end.
Proof.
  unfold process_segment, buffer_for, find_or_create_buffer.
  destruct (negb (validate_segment self s)); [reflexivity|].
  destruct (reassembly_buffers_ self !! sequence_number (header s)) as [b0|] eqn:E.
  - cbn [reassembly_buffers_ r_config_]. rewrite E.
    destruct (add_segment_to_buffer b0 s) as [added b].
    cbn [reassembly_buffers_ r_config_].
    destruct (added && is_complete b); [|reflexivity].
    unfold get_complete_message, is_complete.
    cbn [complete message_id negb received_data]. now rewrite insert_insert_eq.
  - destruct (message_type (header s));
      cbn [reassembly_buffers_ r_config_]; try reflexivity;
      rewrite lookup_insert_eq;
      destruct (add_segment_to_buffer _ s) as [added b];
      cbn [reassembly_buffers_ r_config_];
      rewrite ?insert_insert_eq;
      (destruct (added && is_complete b); [|reflexivity]);
      unfold get_complete_message, is_complete;
      cbn [complete message_id negb received_data]; now rewrite ?insert_insert_eq.
Qed.

Lemma buffer_for_consistent (self : TpReassembler) (s : TpSegment)
    (b0 : TpReassemblyBuffer) :
  buffers_consistent self -> 0 <= message_length (header s) ->
  buffer_for self s = Some b0 ->
  message_id b0 = sequence_number (header s)
  /\ vsize (received_data b0) = total_length b0.
Proof.
  intros Hc HL. unfold buffer_for.
  destruct (reassembly_buffers_ self !! sequence_number (header s)) as [b|] eqn:E.
  - intros [= <-]. now apply Hc.
  - destruct (message_type (header s)); intros [= <-];
      (split; [reflexivity|]);
      unfold TpReassemblyBuffer_make, vsize; cbn [received_data total_length];
      rewrite length_replicate; lia.
Qed.

Lemma validate_segment_config (self self' : TpReassembler) (s : TpSegment) :
  r_config_ self' = r_config_ self ->
  validate_segment self' s = validate_segment self s.
Proof. intros E. unfold validate_segment. now rewrite E. Qed.

(** X21.  [process_segment] works on one buffer only.  In a reassembler
    whose buffers are stored under their own [message_id] and have a data
    vector of the announced length (as all buffers that [process_segment]
    creates), a call leaves the buffers in that state, does not change the
    configuration, leaves the buffer of every other sequence number
    untouched, and adds at most one buffer; a CONSECUTIVE or LAST segment
    never adds one. *)
Theorem process_segment_touches_one_buffer (self : TpReassembler) (s : TpSegment)
    (complete_message : list Z) :
  buffers_consistent self -> header_in_range s ->
  let self' := snd (fst (process_segment self s complete_message)) in
  buffers_consistent self'
  /\ r_config_ self' = r_config_ self
  /\ (forall key : Z, key <> sequence_number (header s) ->
        reassembly_buffers_ self' !! key = reassembly_buffers_ self !! key)
  /\ get_active_reassemblies self' <= get_active_reassemblies self + 1
  /\ (message_type (header s) = CONSECUTIVE_SEGMENT
      \/ message_type (header s) = LAST_SEGMENT ->
      get_active_reassemblies self' <= get_active_reassemblies self).
Proof.
  intros Hc (HL & Hoff & Hlen & Hseq). unfold is_uint32, is_uint16 in *.
  cbv zeta. rewrite process_segment_result.
  assert (Hsame : buffers_consistent self /\ r_config_ self = r_config_ self
            /\ (forall key : Z, key <> sequence_number (header s) ->
                  reassembly_buffers_ self !! key = reassembly_buffers_ self !! key)
            /\ get_active_reassemblies self <= get_active_reassemblies self + 1
            /\ (message_type (header s) = CONSECUTIVE_SEGMENT
                \/ message_type (header s) = LAST_SEGMENT ->
                get_active_reassemblies self <= get_active_reassemblies self))
    by (split; [exact Hc|]; split; [reflexivity|]; split; [reflexivity|]; split; [lia|]; intros _; lia).
  destruct (negb (validate_segment self s)) eqn:Ev; [exact Hsame|].
  apply negb_false_iff, validate_segment_true in Ev as (Hv1 & Hv2 & Hv3).
  destruct (buffer_for self s) as [b0|] eqn:Eb; [|exact Hsame].
  destruct (buffer_for_consistent self s b0 Hc ltac:(lia) Eb) as (Hid0 & Hsz0).
  destruct (add_segment_to_buffer b0 s) as [added b] eqn:Ea.
  destruct (add_segment_to_buffer_fields b0 b s added Ea) as (Hid & Htl & _ & Hsz).
  specialize (Hsz Hv1 ltac:(lia) Hsz0).
  assert (Htail : message_type (header s) = CONSECUTIVE_SEGMENT
                  \/ message_type (header s) = LAST_SEGMENT ->
                  is_Some (reassembly_buffers_ self !! sequence_number (header s))).
  { intros Hty. unfold buffer_for in Eb.
    destruct (reassembly_buffers_ self !! sequence_number (header s)); [eauto|].
    destruct Hty as [Hty|Hty]; rewrite Hty in Eb; discriminate. }
  unfold get_active_reassemblies.
  destruct (added && is_complete b); cbn [fst snd reassembly_buffers_ r_config_].
  - rewrite Hid, Hid0, delete_insert_eq.
    split; [|split; [reflexivity|split; [|split]]].
    + intros key b1 Hk. cbn [reassembly_buffers_] in Hk.
      apply lookup_delete_Some in Hk as [_ Hk]. now apply Hc.
    + intros key Hk. now rewrite lookup_delete_ne by congruence.
    + rewrite map_size_delete.
      destruct (reassembly_buffers_ self !! sequence_number (header s)); cbn; lia.
    + intros _. rewrite map_size_delete.
      destruct (reassembly_buffers_ self !! sequence_number (header s)); cbn; lia.
  - split; [|split; [reflexivity|split; [|split]]].
    + intros key b1 Hk. cbn [reassembly_buffers_] in Hk.
      apply lookup_insert_Some in Hk as [[<- <-]|[_ Hk]].
      * split; [congruence | exact Hsz].
      * now apply Hc.
    + intros key Hk. now rewrite lookup_insert_ne by congruence.
    + rewrite map_size_insert.
      destruct (reassembly_buffers_ self !! sequence_number (header s)); cbn; lia.
    + intros Hty. destruct (Htail Hty) as [b1 Hb1].
      rewrite map_size_insert, Hb1. cbn. lia.
Qed.

Lemma process_segment_touches_one_buffer_witness :
  let self' :=
    snd (fst (process_segment (TpReassembler_make TpConfig_default) (first_of 0) [])) in
  buffers_consistent self'
  /\ r_config_ self' = r_config_ (TpReassembler_make TpConfig_default)
  /\ (forall key : Z, key <> sequence_number (header (first_of 0)) ->
        reassembly_buffers_ self' !! key
        = reassembly_buffers_ (TpReassembler_make TpConfig_default) !! key)
  /\ get_active_reassemblies self'
     <= get_active_reassemblies (TpReassembler_make TpConfig_default) + 1
  /\ (message_type (header (first_of 0)) = CONSECUTIVE_SEGMENT
      \/ message_type (header (first_of 0)) = LAST_SEGMENT ->
      get_active_reassemblies self'
      <= get_active_reassemblies (TpReassembler_make TpConfig_default)).
Proof.
  apply (process_segment_touches_one_buffer (TpReassembler_make TpConfig_default)
           (first_of 0) []).
  - intros key b Hb. cbn in Hb. rewrite lookup_empty in Hb. discriminate.
  - repeat split; vm_compute; congruence.
Defined.

(** X22.  A duplicate is harmless.  In a reassembler with consistent
    buffers, if a segment has been processed and the transfer of its
    sequence number is still in progress afterwards, processing the same
    segment once more returns the same result and changes neither the
    reassembler nor the output vector. *)
Theorem duplicate_segment_is_harmless (self self1 : TpReassembler) (s : TpSegment)
    (complete_message complete_message1 : list Z) (r : bool) :
  buffers_consistent self -> header_in_range s ->
  process_segment self s complete_message = (r, self1, complete_message1) ->
  is_reassembling self1 (sequence_number (header s)) = true ->
  process_segment self1 s complete_message1 = (r, self1, complete_message1).
Proof.
  intros Hc (HL & Hoff & Hlen & Hseq) H Hre. unfold is_uint32, is_uint16 in *.
  rewrite process_segment_result in H.
  destruct (negb (validate_segment self s)) eqn:Ev.
  { injection H as <- <- <-. rewrite process_segment_result. now rewrite Ev. }
  destruct (buffer_for self s) as [b0|] eqn:Eb.
  2: { injection H as <- <- <-. rewrite process_segment_result. now rewrite Ev, Eb. }
  pose proof Ev as Hvalid.
  apply negb_false_iff, validate_segment_true in Hvalid as (Hv1 & Hv2 & Hv3).
  destruct (buffer_for_consistent self s b0 Hc ltac:(lia) Eb) as (Hid0 & Hsz0).
  destruct (add_segment_to_buffer b0 s) as [added b] eqn:Ea.
  destruct (add_segment_to_buffer_fields b0 b s added Ea) as (Hid & Htl & _ & Hsz).
  specialize (Hsz Hv1 ltac:(lia) Hsz0).
  destruct (added && is_complete b) eqn:Edone; injection H as <- <- <-.
  - exfalso. unfold is_reassembling in Hre. cbn [reassembly_buffers_] in Hre.
    rewrite Hid, Hid0, lookup_delete_eq in Hre.
    apply bool_decide_eq_true in Hre. destruct Hre as [x Hx]. discriminate.
  - rewrite process_segment_result.
    rewrite (validate_segment_config self); [|reflexivity]. rewrite Ev.
    unfold buffer_for. cbn [reassembly_buffers_ r_config_].
    rewrite lookup_insert_eq.
    rewrite (add_segment_to_buffer_idem b0 b s added Hv1 ltac:(lia) Hsz0 Ea).
    rewrite Edone, insert_insert_eq. reflexivity.
Qed.

Lemma duplicate_segment_is_harmless_witness :
  process_segment
    (snd (fst (process_segment (TpReassembler_make TpConfig_default) (first_of 0) [])))
    (first_of 0) []
  = (true,
     snd (fst (process_segment (TpReassembler_make TpConfig_default) (first_of 0) [])),
     []).
Proof.
  apply (duplicate_segment_is_harmless (TpReassembler_make TpConfig_default) _
           (first_of 0) [] [] true).
  - intros key b Hb. cbn in Hb. rewrite lookup_empty in Hb. discriminate.
  - repeat split; vm_compute; congruence.
  - reflexivity.
  - reflexivity.
Defined.

Lemma to_uint32_add_l (a b : Z) : to_uint32 (to_uint32 a + b) = to_uint32 (a + b).
Proof. unfold to_uint32. apply Zplus_mod_idemp_l. Qed.

Lemma progress_fold (mss : Z) (bits : list bool) :
  forall a : Z,
  fold_left (fun (received_bytes : Z) (received : bool) =>
               if received then to_uint32 (received_bytes + mss) else received_bytes)
            bits (to_uint32 a)
  = to_uint32 (a + vsize (List.filter (fun received : bool => received) bits) * mss).
Proof.
  induction bits as [|[] bits IH]; intros a; cbn [fold_left List.filter].
  - change (vsize []) with 0. f_equal. lia.
  - rewrite to_uint32_add_l, IH. f_equal.
    replace (vsize (true :: List.filter (fun received : bool => received) bits))
      with (1 + vsize (List.filter (fun received : bool => received) bits))
      by (unfold vsize; cbn [length]; lia).
    lia.
  - apply IH.
Qed.

(** X23.  [get_reassembly_progress] reports the configured segment size
    once per received byte.  For an unknown id it returns false and leaves
    both outputs alone.  For a known id it returns true, [total_bytes] is
    the announced length, and [received_bytes] is the number of bytes marked
    as received, times [max_segment_size] (as a [uint32_t]), capped at
    [total_bytes]. *)
Theorem progress_counts_a_segment_per_byte (self : TpReassembler)
    (message_id received_bytes total_bytes : Z) :
  get_reassembly_progress self message_id received_bytes total_bytes
  = match reassembly_buffers_ self !! message_id with
    | None => (false, received_bytes, total_bytes)
    | Some buffer =>
        (true,
         Z.min (total_length buffer)
           (to_uint32
              (vsize (List.filter (fun received : bool => received)
                                  (received_segments buffer))
               * max_segment_size (r_config_ self))),
         total_length buffer)
    end.
Proof.
  unfold get_reassembly_progress.
  destruct (reassembly_buffers_ self !! message_id) as [b|]; [|reflexivity].
  pose proof (progress_fold (max_segment_size (r_config_ self))
                (received_segments b) 0) as Hf.
  change (to_uint32 0) with 0 in Hf. rewrite Z.add_0_l in Hf.
  cbv zeta. rewrite Hf.
  set (x := to_uint32 _). clearbody x.
  destruct (Z.gtb_spec x (total_length b)); f_equal; f_equal; lia.
Qed.
End ReassemblerMore.

(* ------------------------------------------------------------------ *)
(** ** Transport protocol: the transfers of the manager *)

Section ManagerTransfers.
Import Wire Tp TpOps.

(** The manager after [sent] segments of the transfer [transfer_id] were
    handed out: the transfer is replaced and [segments_sent] has grown. *)
Lemma next_segments_sending (n : nat) :
  forall (self : TpManager) (transfer_id : Z) (t : TpTransfer),
  active_transfers_ self !! transfer_id = Some t ->
  0 <= next_segment_to_send t ->
  next_segment_to_send t + Z.of_nat n <= vsize (segments t) ->
  next_segments n self transfer_id
  = (firstn n (skipn (Z.to_nat (next_segment_to_send t)) (segments t)),
     mkTpManager (m_config_ self) (segmenter_ self) (reassembler_ self)
       (<[transfer_id :=
            mkTpTransfer (Tp.transfer_id t) (t_message_id t) (state t) (segments t)
              (next_segment_to_send t + Z.of_nat n) (retry_count t)]>
          (active_transfers_ self))
       (next_transfer_id_ self)
       (mkTpStatistics (messages_segmented (statistics_ self))
          (messages_reassembled (statistics_ self))
          (Nat.iter n (fun sent : Z => to_uint32 (sent + 1))
                    (segments_sent (statistics_ self)))
          (segments_received (statistics_ self))
          (retransmissions (statistics_ self)) (timeouts (statistics_ self))
          (errors (statistics_ self)))).
Proof.
  induction n as [|n IH]; intros self id t Ht Hk Hn.
  - cbn [next_segments firstn Nat.iter nat_rect]. f_equal.
    rewrite !Z.add_0_r.
    rewrite insert_id by (rewrite Ht; destruct t; reflexivity).
    destruct self as [c sg r a nx st]; destruct st; reflexivity.
  - cbn [next_segments]. unfold get_next_segment. rewrite Ht.
    replace (next_segment_to_send t >=? vsize (segments t)) with false
      by (symmetry; rewrite Z.geb_leb; apply Z.leb_gt; lia).
    cbv zeta.
    set (t1 := mkTpTransfer _ _ _ _ (next_segment_to_send t + 1) _).
    set (self1 := set_statistics _ _).
    rewrite (IH self1 id t1).
    + cbn [self1 t1 set_statistics set_active_transfers m_config_ segmenter_ reassembler_
             active_transfers_ next_transfer_id_ statistics_ Tp.transfer_id t_message_id
             state segments next_segment_to_send retry_count messages_segmented
             messages_reassembled segments_sent segments_received retransmissions
             timeouts errors].
      pose proof (Nat.iter_succ_r n (fun sent : Z => to_uint32 (sent + 1))
                    (segments_sent (statistics_ self))) as Hiter.
      cbv beta in Hiter. rewrite insert_insert_eq, <- Hiter.
      replace (next_segment_to_send t + 1 + Z.of_nat n)
        with (next_segment_to_send t + Z.of_nat (S n)) by lia.
      f_equal.
      replace (Z.to_nat (next_segment_to_send t + 1))
        with (S (Z.to_nat (next_segment_to_send t))) by lia.
      assert (Hlt : (Z.to_nat (next_segment_to_send t) < length (segments t))%nat)
        by (unfold vsize in Hn; lia).
      destruct (lookup_lt_is_Some_2 _ _ Hlt) as [x Hx].
      rewrite (drop_S _ x _ Hx). cbn [firstn]. f_equal.
      apply nth_lookup_Some with (d := TpSegment_default) in Hx. exact Hx.
    + cbn. apply lookup_insert_eq.
    + cbn. lia.
    + cbn. lia.
Qed.

Lemma segments_sent_iter (n : nat) (sent : Z) :
  is_uint32 sent ->
  Nat.iter n (fun sent : Z => to_uint32 (sent + 1)) sent = to_uint32 (sent + Z.of_nat n).
Proof.
  intros Hsent. induction n as [|n IH].
  - cbn [Nat.iter nat_rect]. rewrite Z.add_0_r. symmetry. now apply to_uint32_small.
  - rewrite Nat.iter_succ, IH, to_uint32_add_l. f_equal. lia.
Qed.

(** Once every segment was handed out, further calls mark the transfer
    COMPLETE and return the empty default segment. *)
Lemma next_segments_complete (n : nat) :
  forall (self : TpManager) (transfer_id : Z) (t : TpTransfer),
  active_transfers_ self !! transfer_id = Some t ->
  vsize (segments t) <= next_segment_to_send t ->
  next_segments (S n) self transfer_id
  = (replicate (S n) TpSegment_default,
     set_active_transfers self
       (<[transfer_id :=
            mkTpTransfer (Tp.transfer_id t) (t_message_id t) COMPLETE (segments t)
              (next_segment_to_send t) (retry_count t)]>
          (active_transfers_ self))).
Proof.
  induction n as [|n IH]; intros self id t Ht Hk.
  - cbn [next_segments]. unfold get_next_segment. rewrite Ht.
    replace (next_segment_to_send t >=? vsize (segments t)) with true
      by (symmetry; rewrite Z.geb_leb; apply Z.leb_le; lia).
    reflexivity.
  - change (next_segments (S (S n)) self id)
      with (let '(_, self, segment) := get_next_segment self id TpSegment_default in
            let '(rest, self) := next_segments (S n) self id in
            (segment :: rest, self)).
    unfold get_next_segment at 1. rewrite Ht.
    replace (next_segment_to_send t >=? vsize (segments t)) with true
      by (symmetry; rewrite Z.geb_leb; apply Z.leb_le; lia).
    cbv zeta.
    set (t1 := mkTpTransfer _ _ COMPLETE _ _ _).
    rewrite (IH _ id t1); [| cbn; apply lookup_insert_eq | cbn; lia].
    cbn [t1 set_active_transfers m_config_ segmenter_ reassembler_
           active_transfers_ next_transfer_id_ statistics_ Tp.transfer_id t_message_id
           state segments next_segment_to_send retry_count].
    rewrite insert_insert_eq. reflexivity.
Qed.

Lemma next_segments_app (a b : nat) :
  forall (self : TpManager) (transfer_id : Z),
  next_segments (a + b) self transfer_id
  = let '(first, self) := next_segments a self transfer_id in
    let '(rest, self) := next_segments b self transfer_id in
    (first ++ rest, self).
Proof.
  induction a as [|a IH]; intros self id.
  - cbn [Nat.add next_segments]. destruct (next_segments b self id). reflexivity.
  - cbn [Nat.add next_segments].
    destruct (get_next_segment self id TpSegment_default) as [[r self1] s].
    rewrite IH. destruct (next_segments a self1 id) as [first self2].
    destruct (next_segments b self2 id). reflexivity.
Qed.

(** A call for a known transfer returns SUCCESS, whatever segment is handed
    in; the segment handed in is overwritten, by the next stored segment or,
    when none is left, by the empty default segment. *)
Lemma get_next_segment_known (self : TpManager) (transfer_id : Z) (t : TpTransfer)
    (segment : TpSegment) :
  active_transfers_ self !! transfer_id = Some t ->
  get_next_segment self transfer_id segment
  = (SUCCESS, snd (fst (get_next_segment self transfer_id TpSegment_default)),
     nth (Z.to_nat (next_segment_to_send t)) (segments t) TpSegment_default).
Proof.
  intros Ht. unfold get_next_segment. rewrite Ht.
  destruct (Z.geb_spec (next_segment_to_send t) (vsize (segments t))) as [Hge|Hlt].
  - cbn [fst snd]. rewrite nth_overflow by (unfold vsize in Hge; lia). reflexivity.
  - reflexivity.
Qed.

(** The transfer after [k] calls, for a transfer that had sent nothing. *)
Lemma next_segments_transfer (k : nat) (self : TpManager) (transfer_id : Z)
    (t : TpTransfer) :
  active_transfers_ self !! transfer_id = Some t ->
  next_segment_to_send t = 0 ->
  exists t',
    active_transfers_ (snd (next_segments k self transfer_id)) !! transfer_id = Some t'
    /\ segments t' = segments t
    /\ next_segment_to_send t' = Z.of_nat (Nat.min k (length (segments t))).
Proof.
  intros Ht Hk.
  destruct (Nat.le_gt_cases k (length (segments t))) as [Hle|Hgt].
  - rewrite (next_segments_sending k self transfer_id t Ht) by (unfold vsize; lia).
    cbn [snd active_transfers_]. rewrite lookup_insert_eq.
    eexists. split; [reflexivity|]. cbn [segments next_segment_to_send].
    split; [reflexivity | lia].
  - replace k with (length (segments t) + S (k - length (segments t) - 1))%nat by lia.
    rewrite next_segments_app.
    rewrite (next_segments_sending _ self transfer_id t Ht) by (unfold vsize; lia).
    set (t1 := mkTpTransfer _ _ _ _ _ _).
    set (self1 := mkTpManager _ _ _ _ _ _).
    rewrite (next_segments_complete _ self1 transfer_id t1);
      [| cbn; apply lookup_insert_eq | cbn; unfold vsize; lia].
    cbn [snd self1 t1 set_active_transfers active_transfers_ segments
           next_segment_to_send].
    rewrite lookup_insert_eq.
    eexists. split; [reflexivity|]. cbn [segments next_segment_to_send].
    split; [reflexivity | lia].
Qed.

(** X24.  [get_next_segment] hands out the segments of a transfer once, in
    the order [segment_message] stored them.  For a transfer that has not
    sent anything yet, every call returns SUCCESS, whatever segment is
    handed in: call number k (from 0) overwrites that segment with stored
    segment k, and once all are handed out every further call overwrites it
    with the empty default segment and marks the transfer COMPLETE.
    [segments_sent] grows by the number of segments, the transfer is never
    removed from the table, and no other transfer is touched. *)
Theorem transfer_hands_out_its_segments (self : TpManager) (transfer_id : Z)
    (t : TpTransfer) (extra : nat) :
  active_transfers_ self !! transfer_id = Some t ->
  next_segment_to_send t = 0 ->
  is_uint32 (segments_sent (statistics_ self)) ->
  let r := next_segments (length (segments t) + extra) self transfer_id in
  fst r = segments t ++ replicate extra TpSegment_default
  /\ get_transfer_status (snd r) transfer_id
     = match extra with O => state t | S _ => COMPLETE end
  /\ segments_sent (get_statistics (snd r))
     = to_uint32 (segments_sent (statistics_ self) + vsize (segments t))
  /\ size (active_transfers_ (snd r)) = size (active_transfers_ self)
  /\ (forall other : Z, other <> transfer_id ->
        active_transfers_ (snd r) !! other = active_transfers_ self !! other)
  /\ forall (k : nat) (segment : TpSegment),
       get_next_segment (snd (next_segments k self transfer_id)) transfer_id segment
       = (SUCCESS, snd (next_segments (k + 1) self transfer_id),
          nth k (segments t) TpSegment_default).
Proof.
  intros Ht Hk Hsent r. subst r.
  assert (Hcalls : forall (k : nat) (segment : TpSegment),
            get_next_segment (snd (next_segments k self transfer_id)) transfer_id segment
            = (SUCCESS, snd (next_segments (k + 1) self transfer_id),
               nth k (segments t) TpSegment_default)).
  { intros k segment.
    destruct (next_segments_transfer k self transfer_id t Ht Hk) as (t' & Ht' & Hs & Hn).
    rewrite next_segments_app.
    destruct (next_segments k self transfer_id) as [first self1]. cbn [snd] in *.
    cbn [next_segments].
    rewrite (get_next_segment_known self1 transfer_id t' segment Ht').
    rewrite (get_next_segment_known self1 transfer_id t' TpSegment_default Ht').
    cbn [fst snd]. rewrite Hs, Hn, Nat2Z.id. f_equal.
    destruct (Nat.le_gt_cases k (length (segments t))) as [Hle|Hgt].
    - now rewrite Nat.min_l by exact Hle.
    - rewrite Nat.min_r by lia. rewrite !nth_overflow by lia. reflexivity. }
  rewrite next_segments_app.
  rewrite (next_segments_sending _ self transfer_id t Ht) by (unfold vsize; lia).
  rewrite segments_sent_iter by exact Hsent.
  rewrite Hk. change (Z.to_nat 0) with 0%nat. rewrite drop_0, firstn_all.
  assert (Hsize : forall t', size (<[transfer_id := t']> (active_transfers_ self))
                             = size (active_transfers_ self)).
  { intros t'. rewrite map_size_insert, Ht. reflexivity. }
  destruct extra as [|extra].
  - cbn [next_segments replicate fst snd]. rewrite app_nil_r.
    unfold get_transfer_status, get_statistics.
    cbn [active_transfers_ statistics_ segments_sent].
    rewrite lookup_insert_eq. cbn [state].
    split; [reflexivity|]. split; [reflexivity|]. split; [reflexivity|].
    split; [apply Hsize|]. split; [|exact Hcalls].
    intros other Ho. now rewrite lookup_insert_ne by congruence.
  - set (t1 := mkTpTransfer _ _ _ _ _ _).
    set (self1 := mkTpManager _ _ _ _ _ _).
    rewrite (next_segments_complete extra self1 transfer_id t1);
      [| cbn; apply lookup_insert_eq | cbn; unfold vsize; lia].
    cbn [fst snd]. unfold get_transfer_status, get_statistics.
    cbn [self1 t1 set_active_transfers active_transfers_ statistics_ segments_sent].
    rewrite insert_insert_eq, lookup_insert_eq. cbn [state].
    split; [reflexivity|]. split; [reflexivity|]. split; [reflexivity|].
    split; [apply Hsize|]. split; [|exact Hcalls].
    intros other Ho. now rewrite lookup_insert_ne by congruence.
Qed.

Lemma transfer_hands_out_its_segments_witness :
  let r := next_segments (length (segments transfer_350) + 1) sending_350 1 in
  fst r = segments transfer_350 ++ replicate 1 TpSegment_default
  /\ get_transfer_status (snd r) 1 = COMPLETE
  /\ segments_sent (get_statistics (snd r))
     = to_uint32 (segments_sent (statistics_ sending_350) + vsize (segments transfer_350))
  /\ size (active_transfers_ (snd r)) = size (active_transfers_ sending_350)
  /\ (forall other : Z, other <> 1 ->
        active_transfers_ (snd r) !! other = active_transfers_ sending_350 !! other)
  /\ forall (k : nat) (segment : TpSegment),
       get_next_segment (snd (next_segments k sending_350 1)) 1 segment
       = (SUCCESS, snd (next_segments (k + 1) sending_350 1),
          nth k (segments transfer_350) TpSegment_default).
Proof.
  apply (transfer_hands_out_its_segments sending_350 1 transfer_350 1).
  - reflexivity.
  - reflexivity.
  - vm_compute. split; [discriminate | reflexivity].
Defined.
End ManagerTransfers.

Section ManagerEndToEnd.
Import Wire Tp TpOps.

(** The segments of a split message, fed in the order they were built. *)
Lemma feed_split_in_order (fuel : nat) (segmenter : TpSegmenter)
    (message : Message.t) (self : TpReassembler) (complete_message : list Z) :
  16 <= max_segment_size (config_ segmenter) ->
  max_segment_size (config_ segmenter) < vsize (Message.payload_ message) <= 65535 ->
  vsize (Message.payload_ message) <= max_message_size (config_ segmenter) ->
  vsize (Message.payload_ message) <= max_message_size (r_config_ self) ->
  vsize (Message.payload_ message) < Z.of_nat fuel ->
  is_reassembling self (next_sequence_number_ segmenter) = false ->
  exists segmenter' segments,
    segment_message fuel segmenter message [] = Some (SUCCESS, segmenter', segments)
    /\ Forall (fun s => message_type (header s) <> SINGLE_MESSAGE) segments
    /\ feed self segments complete_message = (true, self, Message.payload_ message).
Proof.
  intros Hmss HN Hmax Hrmax Hfuel Hnew.
  set (P := Message.payload_ message) in *.
  set (mss := max_segment_size (config_ segmenter)) in *.
  set (seq := next_sequence_number_ segmenter) in *.
  destruct (segment_message_split fuel segmenter message [])
    as (tail & Hsegs & Htail); try assumption.
  fold P mss seq in Hsegs, Htail. cbn [app] in Hsegs.
  set (hdr := firstn 16 (Message.serialize message)).
  assert (Hhead : length hdr = 16%nat).
  { subst hdr. rewrite length_take.
    pose proof (serialize_size message) as Hser. unfold vsize, Message.HEADER_SIZE in Hser.
    lia. }
  set (first := first_segment mss message seq) in *.
  assert (Hfirst : first = mkTpSegment (mkTpSegmentHeader (vsize P) 0 mss seq FIRST_SEGMENT)
                                       (hdr ++ firstn (Z.to_nat (mss - 16)) P))
    by reflexivity.
  destruct (tail_segments_facts mss P seq (mss - 16) tail Htail)
    as (Hall & Hcov & Hnodup & Hpriv); try lia.
  assert (Hnone : reassembly_buffers_ self !! seq = None).
  { unfold is_reassembling in Hnew. apply bool_decide_eq_false in Hnew.
    destruct (reassembly_buffers_ self !! seq) eqn:E; [|reflexivity].
    exfalso. apply Hnew. eauto. }
  destruct (process_first_segment self hdr P mss seq complete_message)
    as (self1 & Hstep & Hre); try assumption; try lia.
  rewrite <- Hfirst in Hstep, Hre.
  assert (Hok : forall x, x ∈ tail ->
            tail_segment_of P seq x /\ mss - 16 <= segment_offset (header x)).
  { intros x Hx. rewrite Forall_forall in Hall. apply Hall. exact Hx. }
  exists (mkTpSegmenter (config_ segmenter) (to_uint8 ((to_uint8 (seq + 1) + 1) mod 256))),
    (first :: tail).
  split; [exact Hsegs|]. split.
  { apply Forall_cons_2; [rewrite Hfirst; discriminate|].
    apply Forall_forall. intros x Hx.
    apply Hok in Hx as [(_ & _ & [Hty|Hty] & _) _]; rewrite Hty; discriminate. }
  destruct (feed_tail (r_config_ self) (reassembly_buffers_ self) P seq
              (first :: tail) tail [first] self1 complete_message)
    as (Hfeed & _); try assumption.
  - apply Forall_forall. intros x Hx. apply Hok. exact Hx.
  - apply (tail_segments_nonempty _ _ _ _ _ Htail).
  - intros x Hx Hxf. apply list_elem_of_singleton in Hxf. subst x.
    apply Hok in Hx as [(_ & _ & [Hty|Hty] & _) _]; discriminate Hty.
  - intros x. rewrite elem_of_cons, list_elem_of_singleton. reflexivity.
  - intros j Hj. apply covered_cons.
    destruct (decide (j < Z.to_nat (mss - 16))%nat) as [Hlow|Hhigh].
    + left. rewrite Hfirst. apply first_segment_covers; (assumption || lia).
    + right. apply Hcov. lia.
  - intros r Hr. destruct (Hok r Hr) as [Hrok Hroff].
    exists (Z.to_nat (segment_offset (header r))). split.
    + apply (tail_segment_covers P seq r _ Hrok).
      destruct Hrok as (_ & _ & _ & _ & _ & Hlen & _). lia.
    + intros s' Hs' Hc. apply elem_of_cons in Hs' as [->|Hs'].
      * rewrite Hfirst in Hc. apply first_segment_covers in Hc; (assumption || lia).
      * apply Hpriv; assumption.
  - rewrite feed_cons, Hstep, Hfeed. destruct self; reflexivity.
Qed.

(** Segments that are not SINGLE_MESSAGE go through the manager to its
    reassembler unchanged. *)
Lemma receive_feed (segments : list TpSegment) :
  forall (self : TpManager) (complete_message : list Z),
  Forall (fun s => message_type (header s) <> SINGLE_MESSAGE) segments ->
  exists self',
    receive self segments complete_message
    = (fst (fst (feed (reassembler_ self) segments complete_message)), self',
       snd (feed (reassembler_ self) segments complete_message))
    /\ reassembler_ self'
       = snd (fst (feed (reassembler_ self) segments complete_message)).
Proof.
  induction segments as [|s l IH]; intros self cm Hty.
  - exists self. split; reflexivity.
  - apply Forall_cons in Hty as [Hs Hl].
    cbn [receive feed]. unfold handle_received_segment. cbv zeta.
    set (self0 := set_statistics self _).
    change (reassembler_ self0) with (reassembler_ self).
    destruct (process_segment (reassembler_ self) s cm) as [[ok r] cm1].
    assert (E : (match message_type (header s) with
                 | SINGLE_MESSAGE => (true, self0, payload s)
                 | _ => (ok, set_reassembler self0 r, cm1)
                 end) = (ok, set_reassembler self0 r, cm1))
      by (destruct (message_type (header s)); congruence).
    rewrite E.
    destruct (IH (set_reassembler self0 r) cm1 Hl) as (self' & Hrec & Hre).
    change (reassembler_ (set_reassembler self0 r)) with r in Hrec, Hre.
    rewrite Hrec. destruct (feed r l cm1) as [[oks r'] cm2]. cbn [fst snd] in *.
    exists self'. split; [reflexivity | exact Hre].
Qed.

Lemma manager_segment_message_registers (fuel : nat) (self : TpManager)
    (message : Message.t) (transfer_id : Z) (segmenter' : TpSegmenter)
    (segments : list TpSegment) :
  Z.of_nat (size (active_transfers_ self)) < max_concurrent_transfers (m_config_ self) ->
  segment_message fuel (segmenter_ self) message [] = Some (SUCCESS, segmenter', segments) ->
  exists self',
    manager_segment_message fuel self message transfer_id
    = Some (SUCCESS, self', next_transfer_id_ self)
    /\ active_transfers_ self'
       = <[next_transfer_id_ self :=
             mkTpTransfer (next_transfer_id_ self)
               (Z.lor (to_uint32 (Z.shiftl (Message.service_id (Message.message_id_ message)) 16))
                      (Message.method_id (Message.message_id_ message)))
               SENDING segments 0 0]> (active_transfers_ self)
    /\ reassembler_ self' = reassembler_ self
    /\ segmenter_ self' = segmenter'
    /\ next_transfer_id_ self' = to_uint32 (next_transfer_id_ self + 1).
Proof.
  intros Hcap Hseg. unfold manager_segment_message.
  replace (_ >=? _) with false by (symmetry; rewrite Z.geb_leb; apply Z.leb_gt; lia).
  cbv zeta. cbn [segmenter_]. rewrite Hseg. cbn.
  eexists. split; [reflexivity|]. cbn. repeat split.
Qed.

(** X25.  A split message sent through one manager and received through
    another arrives as its payload.  When the payload of N bytes is split
    ([max_segment_size] at least 16 and below N, N at most 65 535 and within
    [max_message_size] on both sides), the sender has a free transfer slot
    and the receiver has no reassembly under the sequence number,
    [segment_message] registers a transfer under [next_transfer_id_]; the
    segments that [get_next_segment] hands out for it, given one by one to
    [handle_received_segment] of the receiver, are all accepted, the output
    vector ends as the N payload bytes (without the 16 header bytes), and
    the reassembler of the receiver is as it was before. *)
Theorem manager_delivers_split_payload (fuel : nat) (sender receiver : TpManager)
    (message : Message.t) (transfer_id : Z) (complete_message : list Z) :
  16 <= max_segment_size (config_ (segmenter_ sender)) ->
  max_segment_size (config_ (segmenter_ sender)) < vsize (Message.payload_ message) <= 65535 ->
  vsize (Message.payload_ message) <= max_message_size (config_ (segmenter_ sender)) ->
  vsize (Message.payload_ message) <= max_message_size (r_config_ (reassembler_ receiver)) ->
  vsize (Message.payload_ message) < Z.of_nat fuel ->
  Z.of_nat (size (active_transfers_ sender)) < max_concurrent_transfers (m_config_ sender) ->
  is_reassembling (reassembler_ receiver) (next_sequence_number_ (segmenter_ sender)) = false ->
  exists sender1 t receiver1,
    manager_segment_message fuel sender message transfer_id
    = Some (SUCCESS, sender1, next_transfer_id_ sender)
    /\ active_transfers_ sender1 !! next_transfer_id_ sender = Some t
    /\ receive receiver
         (fst (next_segments (length (segments t)) sender1 (next_transfer_id_ sender)))
         complete_message
       = (true, receiver1, Message.payload_ message)
    /\ reassembler_ receiver1 = reassembler_ receiver.
Proof.
  intros Hmss HN Hmax Hrmax Hfuel Hcap Hnew.
  destruct (feed_split_in_order fuel (segmenter_ sender) message (reassembler_ receiver)
              complete_message Hmss HN Hmax Hrmax Hfuel Hnew)
    as (segmenter' & segs & Hseg & Hty & Hfeed).
  destruct (manager_segment_message_registers fuel sender message transfer_id
              segmenter' segs Hcap Hseg) as (sender1 & Hreg & Hact & _).
  set (t := mkTpTransfer _ _ SENDING segs 0 0) in Hact.
  assert (Ht : active_transfers_ sender1 !! next_transfer_id_ sender = Some t)
    by (rewrite Hact; apply lookup_insert_eq).
  destruct (receive_feed segs receiver complete_message Hty) as (receiver1 & Hrec & Hre).
  rewrite Hfeed in Hrec, Hre. cbn [fst snd] in Hrec, Hre.
  exists sender1, t, receiver1.
  split; [exact Hreg|]. split; [exact Ht|]. split; [|exact Hre].
  rewrite (next_segments_sending _ sender1 _ t Ht) by (cbn; unfold vsize; lia).
  cbn [fst t segments next_segment_to_send]. change (Z.to_nat 0) with 0%nat.
  rewrite drop_0, firstn_all. exact Hrec.
Qed.

Lemma manager_delivers_split_payload_witness :
  exists sender1 t receiver1,
    manager_segment_message 400 (TpManager_make config_100) message_350 0
    = Some (SUCCESS, sender1, next_transfer_id_ (TpManager_make config_100))
    /\ active_transfers_ sender1 !! next_transfer_id_ (TpManager_make config_100) = Some t
    /\ receive (TpManager_make config_100)
         (fst (next_segments (length (segments t)) sender1
                 (next_transfer_id_ (TpManager_make config_100))))
         []
       = (true, receiver1, Message.payload_ message_350)
    /\ reassembler_ receiver1 = reassembler_ (TpManager_make config_100).
Proof.
  apply (manager_delivers_split_payload 400 (TpManager_make config_100)
           (TpManager_make config_100) message_350 0 []).
  - vm_compute. discriminate.
  - vm_compute. split; [reflexivity | discriminate].
  - vm_compute. discriminate.
  - vm_compute. discriminate.
  - vm_compute. reflexivity.
  - vm_compute. reflexivity.
  - vm_compute. reflexivity.
Defined.

(** X26.  A message that is not split arrives with its header.  When the
    payload fits [max_segment_size] and [max_message_size] and the sender has
    a free transfer slot, [segment_message] registers a transfer of one
    segment; [handle_received_segment] of the receiver accepts that segment
    without asking the reassembler, and the output vector is the whole
    serialized message: the 16 header bytes followed by the payload. *)
Theorem manager_delivers_single_message_with_header (fuel : nat)
    (sender receiver : TpManager) (message : Message.t) (transfer_id : Z)
    (complete_message : list Z) :
  vsize (Message.payload_ message) <= max_message_size (config_ (segmenter_ sender)) ->
  vsize (Message.payload_ message) <= max_segment_size (config_ (segmenter_ sender)) ->
  Z.of_nat (size (active_transfers_ sender)) < max_concurrent_transfers (m_config_ sender) ->
  exists sender1 t receiver1,
    manager_segment_message fuel sender message transfer_id
    = Some (SUCCESS, sender1, next_transfer_id_ sender)
    /\ active_transfers_ sender1 !! next_transfer_id_ sender = Some t
    /\ length (segments t) = 1%nat
    /\ receive receiver
         (fst (next_segments (length (segments t)) sender1 (next_transfer_id_ sender)))
         complete_message
       = (true, receiver1, Message.serialize message)
    /\ reassembler_ receiver1 = reassembler_ receiver.
Proof.
  intros Hmax Hmss Hcap.
  pose proof (segment_message_single fuel (segmenter_ sender) message [] Hmax Hmss) as Hseg.
  cbn [app] in Hseg.
  destruct (manager_segment_message_registers fuel sender message transfer_id
              _ _ Hcap Hseg) as (sender1 & Hreg & Hact & _).
  set (t := mkTpTransfer _ _ SENDING _ 0 0) in Hact.
  assert (Ht : active_transfers_ sender1 !! next_transfer_id_ sender = Some t)
    by (rewrite Hact; apply lookup_insert_eq).
  eexists sender1, t, _.
  split; [exact Hreg|]. split; [exact Ht|]. split; [reflexivity|].
  rewrite (next_segments_sending _ sender1 _ t Ht) by (unfold t, vsize; cbn; lia).
  cbn [fst t segments next_segment_to_send length firstn]. change (Z.to_nat 0) with 0%nat.
  rewrite drop_0. cbn [firstn receive]. unfold handle_received_segment.
  cbn [single_segment header message_type payload]. split; reflexivity.
Qed.

Lemma manager_delivers_single_message_with_header_witness :
  exists sender1 t receiver1,
    manager_segment_message 0 (TpManager_make config_100) message_90 0
    = Some (SUCCESS, sender1, next_transfer_id_ (TpManager_make config_100))
    /\ active_transfers_ sender1 !! next_transfer_id_ (TpManager_make config_100) = Some t
    /\ length (segments t) = 1%nat
    /\ receive (TpManager_make config_100)
         (fst (next_segments (length (segments t)) sender1
                 (next_transfer_id_ (TpManager_make config_100))))
         []
       = (true, receiver1, Message.serialize message_90)
    /\ reassembler_ receiver1 = reassembler_ (TpManager_make config_100).
Proof.
  apply (manager_delivers_single_message_with_header 0 (TpManager_make config_100)
           (TpManager_make config_100) message_90 0 []).
  - vm_compute. discriminate.
  - vm_compute. discriminate.
  - vm_compute. reflexivity.
Defined.
End ManagerEndToEnd.

Section ManagerCapacity.
Import Wire Tp TpOps.

(** X27.  A full transfer table refuses new messages until a transfer is
    cancelled.  When the table holds [max_concurrent_transfers] transfers,
    whatever their state, [segment_message] returns RESOURCE_EXHAUSTED and
    changes nothing.  [cancel_transfer] of a known id returns SUCCESS and
    removes that transfer only: its status reads FAILED, [get_next_segment]
    answers INVALID_SEGMENT without touching the segment, a second
    [cancel_transfer] answers INVALID_SEGMENT, and [segment_message]
    accepts a message that fits one segment again. *)
Theorem cancel_transfer_frees_a_slot (fuel : nat) (self : TpManager)
    (transfer_id new_id : Z) (message : Message.t) (segment : TpSegment) :
  Z.of_nat (size (active_transfers_ self)) = max_concurrent_transfers (m_config_ self) ->
  is_Some (active_transfers_ self !! transfer_id) ->
  vsize (Message.payload_ message) <= max_message_size (config_ (segmenter_ self)) ->
  vsize (Message.payload_ message) <= max_segment_size (config_ (segmenter_ self)) ->
  manager_segment_message fuel self message new_id = Some (RESOURCE_EXHAUSTED, self, new_id)
  /\ exists self1,
       cancel_transfer self transfer_id = (SUCCESS, self1)
       /\ (forall other : Z, other <> transfer_id ->
             active_transfers_ self1 !! other = active_transfers_ self !! other)
       /\ get_transfer_status self1 transfer_id = FAILED
       /\ get_next_segment self1 transfer_id segment = (INVALID_SEGMENT, self1, segment)
       /\ cancel_transfer self1 transfer_id = (INVALID_SEGMENT, self1)
       /\ exists self2,
            manager_segment_message fuel self1 message new_id
            = Some (SUCCESS, self2, next_transfer_id_ self).
Proof.
  intros Hfull [t Ht] Hmax Hmss.
  split; [apply manager_segment_message_capacity; lia|].
  unfold cancel_transfer at 1. rewrite Ht.
  set (self1 := set_active_transfers self _).
  assert (Hgone : active_transfers_ self1 !! transfer_id = None)
    by (cbn; apply lookup_delete_eq).
  exists self1. split; [reflexivity|]. split.
  { intros other Ho. cbn. now rewrite lookup_delete_ne by congruence. }
  unfold get_transfer_status, get_next_segment, cancel_transfer. rewrite Hgone.
  split; [reflexivity|]. split; [reflexivity|]. split; [reflexivity|].
  pose proof (segment_message_single fuel (segmenter_ self1) message [] Hmax Hmss) as Hseg.
  assert (Hroom : Z.of_nat (size (active_transfers_ self1))
                  < max_concurrent_transfers (m_config_ self1)).
  { cbn [self1 set_active_transfers active_transfers_ m_config_].
    rewrite map_size_delete, Ht.
    assert (size (active_transfers_ self) <> 0%nat).
    { intros Hz. apply map_size_empty_inv in Hz. rewrite Hz, lookup_empty in Ht. discriminate. }
    lia. }
  destruct (manager_segment_message_registers fuel self1 message new_id _ _ Hroom Hseg)
    as (self2 & Hreg & _).
  exists self2. exact Hreg.
Qed.

Lemma cancel_transfer_frees_a_slot_witness :
  manager_segment_message 0 sending_350 message_90 0
  = Some (RESOURCE_EXHAUSTED, sending_350, 0)
  /\ exists self1,
       cancel_transfer sending_350 1 = (SUCCESS, self1)
       /\ (forall other : Z, other <> 1 ->
             active_transfers_ self1 !! other = active_transfers_ sending_350 !! other)
       /\ get_transfer_status self1 1 = FAILED
       /\ get_next_segment self1 1 TpSegment_default
          = (INVALID_SEGMENT, self1, TpSegment_default)
       /\ cancel_transfer self1 1 = (INVALID_SEGMENT, self1)
       /\ exists self2,
            manager_segment_message 0 self1 message_90 0
            = Some (SUCCESS, self2, next_transfer_id_ sending_350).
Proof.
  apply (cancel_transfer_frees_a_slot 0 sending_350 1 0 message_90 TpSegment_default).
  - reflexivity.
  - exists transfer_350. reflexivity.
  - vm_compute. discriminate.
  - vm_compute. discriminate.
Defined.
End ManagerCapacity.

(* ------------------------------------------------------------------ *)
(** ** Framing of the TCP byte stream *)

Section TcpFraming.
Import Wire Message Tcp.

Lemma at_prefix (frame rest : list Z) (i : Z) :
  0 <= i < vsize frame -> at_ (frame ++ rest) i = at_ frame i.
Proof. intros Hi. unfold at_, vsize in *. apply app_nth1. lia. Qed.

Lemma word_at_ntohl (buffer : list Z) (i : Z) :
  Forall is_uint8 buffer -> word_at buffer i = ntohl_at buffer i.
Proof.
  intros H. unfold word_at. apply to_uint32_small.
  apply (ntohl_at_range buffer i H).
Qed.

Lemma frame_length_field (m : t) (rest : list Z) :
  wf m -> word_at (serialize m ++ rest) 4 = length_ m.
Proof.
  intros Hwf. unfold word_at.
  pose proof (serialize_size m) as Hs. pose proof (vsize_nonneg (payload_ m)) as Hp.
  unfold HEADER_SIZE in Hs.
  rewrite !at_prefix by lia.
  pose proof (serialize_length_field m (wf_length m Hwf)) as E.
  unfold ntohl_at in E. rewrite E.
  apply to_uint32_small. exact (wf_length m Hwf).
Qed.

Lemma find_header_spec (buffer : list Z) (fuel : nat) :
  forall search_start k : Z,
  find_header fuel buffer search_start = Some k ->
  search_start <= k /\ k + SOMEIP_HEADER_SIZE <= vsize buffer.
Proof.
  induction fuel as [|fuel IH]; intros s k; cbn [find_header]; [discriminate|].
  destruct (Z.leb_spec (s + SOMEIP_HEADER_SIZE) (vsize buffer)); [|discriminate].
  cbv zeta. destruct (negb _).
  - intros [= <-]. lia.
  - intros H1. apply IH in H1. lia.
Qed.

(** The fuel that [parse_message_from_buffer] gives the search is enough:
    with [buffer.size()] iterations the loop has left the buffer. *)
Lemma find_header_fuel (buffer : list Z) (fuel : nat) :
  forall search_start : Z,
  0 <= search_start -> vsize buffer < search_start + Z.of_nat fuel + SOMEIP_HEADER_SIZE ->
  find_header (S fuel) buffer search_start = find_header fuel buffer search_start.
Proof.
  induction fuel as [|fuel IH]; intros s Hs Hf.
  - cbn [find_header]. destruct (Z.leb_spec (s + SOMEIP_HEADER_SIZE) (vsize buffer)); [lia|reflexivity].
  - change (find_header (S (S fuel)) buffer s)
      with (if s + SOMEIP_HEADER_SIZE <=? vsize buffer then
              if negb (word_at buffer s =? 0) then Some s
              else find_header (S fuel) buffer (s + 1)
            else None).
    rewrite IH by lia. reflexivity.
Qed.

Lemma parse_accepts (config : TcpTransportConfig) (buffer buffer' : list Z)
    (message message' : option t) :
  Forall is_uint8 buffer ->
  parse_message_from_buffer config buffer message = (true, buffer', message') ->
  exists m : t,
    message' = Some m /\ buffer = serialize m ++ buffer'
    /\ is_valid m = true /\ wf m
    /\ vsize (payload_ m) <= MAX_MESSAGE_SIZE - 8
    /\ vsize buffer <= max_receive_buffer config.
Proof.
  intros Hbytes. unfold parse_message_from_buffer.
  destruct (Z.gtb_spec (vsize buffer) (max_receive_buffer config)); [discriminate|].
  destruct (Z.ltb_spec (vsize buffer) SOMEIP_HEADER_SIZE); [discriminate|].
  cbv zeta.
  destruct (Z.ltb_spec (word_at buffer 4) 8); cbn [orb].
  { destruct (find_header _ _ _); discriminate. }
  destruct (Z.gtb_spec (word_at buffer 4) MAX_MESSAGE_SIZE).
  { destruct (find_header _ _ _); discriminate. }
  destruct (Z.ltb_spec (vsize buffer) (8 + word_at buffer 4)); [discriminate|].
  destruct (deserialize default _) as [ok m] eqn:Ed.
  intros [= -> <- <-].
  apply deserialize_sound_aux in Ed as (Es & Hv & Hwf);
    [|now apply Forall_take].
  exists m. split; [reflexivity|].
  split; [rewrite Es; symmetry; apply take_drop|].
  split; [exact Hv|]. split; [exact Hwf|]. split; [|lia].
  pose proof (serialize_size m) as Hs. rewrite Es in Hs.
  unfold vsize in Hs at 1. rewrite length_take in Hs.
  unfold HEADER_SIZE, vsize in *. lia.
Qed.

(** X28.  A valid message survives the TCP framing.  For every valid
    message whose payload has at most 65 527 bytes, when the serialized
    message, followed by any further bytes, is in a receive buffer within
    [max_receive_buffer], [parse_message_from_buffer] returns true, hands out
    a message equal to the one sent, and leaves exactly the further bytes in
    the buffer. *)
Theorem tcp_frame_round_trip (config : TcpTransportConfig) (m : t) (rest : list Z)
    (message : option t) :
  wf m -> is_valid m = true ->
  vsize (payload_ m) <= MAX_MESSAGE_SIZE - 8 ->
  vsize (serialize m ++ rest) <= max_receive_buffer config ->
  parse_message_from_buffer config (serialize m ++ rest) message = (true, rest, Some m).
Proof.
  intros Hwf Hvalid Hsmall Hfit.
  destruct (proj1 (is_valid_iff m Hwf) Hvalid) as (_ & _ & El & _).
  pose proof (serialize_size m) as Hs. pose proof (vsize_nonneg (payload_ m)) as Hp.
  pose proof (vsize_nonneg rest) as Hr.
  unfold HEADER_SIZE, MAX_MESSAGE_SIZE in *.
  unfold parse_message_from_buffer. cbv zeta.
  rewrite frame_length_field by exact Hwf.
  rewrite gtb_false by lia.
  assert (Hsz : vsize (serialize m ++ rest) = 16 + vsize (payload_ m) + vsize rest)
    by (rewrite vsize_app; lia).
  unfold SOMEIP_HEADER_SIZE, MAX_MESSAGE_SIZE.
  rewrite (proj2 (Z.ltb_ge _ _)) by lia.
  rewrite (proj2 (Z.ltb_ge (length_ m) 8)) by lia.
  rewrite gtb_false by lia. cbn [orb].
  rewrite (proj2 (Z.ltb_ge _ _)) by lia.
  replace (Z.to_nat (8 + length_ m)) with (length (serialize m))
    by (unfold vsize in *; lia).
  rewrite take_app_length, drop_app_length.
  rewrite deserialize_serialize_consistent by assumption.
  now rewrite Hvalid.
Qed.

Lemma tcp_frame_round_trip_witness :
  parse_message_from_buffer TcpTransportConfig_default
    (serialize hello_world ++ [0xAA; 0xBB]) None
  = (true, [0xAA; 0xBB], Some hello_world).
Proof.
  apply (tcp_frame_round_trip TcpTransportConfig_default hello_world [0xAA; 0xBB] None).
  - constructor; first [in_range | all_in_range].
  - reflexivity.
  - vm_compute. discriminate.
  - vm_compute. discriminate.
Defined.

(** X29.  [parse_message_from_buffer] hands out whole frames only.  When
    it returns true on a buffer of bytes, the message it hands out is valid,
    the buffer held exactly the serialization of that message followed by
    the bytes that are left in it, the payload has at most 65 527 bytes, and
    the buffer was within [max_receive_buffer]. *)
Theorem tcp_parse_accepts_only_whole_frames (config : TcpTransportConfig)
    (buffer buffer' : list Z) (message message' : option t) :
  Forall is_uint8 buffer ->
  parse_message_from_buffer config buffer message = (true, buffer', message') ->
  exists m : t,
    message' = Some m /\ buffer = serialize m ++ buffer'
    /\ is_valid m = true /\ wf m
    /\ vsize (payload_ m) <= MAX_MESSAGE_SIZE - 8
    /\ vsize buffer <= max_receive_buffer config.
Proof. apply parse_accepts. Qed.

Lemma tcp_parse_accepts_only_whole_frames_witness :
  exists m : t,
    Some hello_world = Some m
    /\ serialize hello_world ++ [0xAA; 0xBB] = serialize m ++ [0xAA; 0xBB]
    /\ is_valid m = true /\ wf m
    /\ vsize (payload_ m) <= MAX_MESSAGE_SIZE - 8
    /\ vsize (serialize hello_world ++ [0xAA; 0xBB])
       <= max_receive_buffer TcpTransportConfig_default.
Proof.
  apply (tcp_parse_accepts_only_whole_frames TcpTransportConfig_default
           (serialize hello_world ++ [0xAA; 0xBB]) [0xAA; 0xBB] None (Some hello_world)).
  - all_in_range.
  - reflexivity.
Defined.


End TcpFraming.
